(** * easy-llm-tools: a shallow embedding of the tool scanner, the JSON
    descriptor canonicaliser and the tool dispatcher, with the properties
    the specification states about them.

    Source files embedded here:
    - [_json_utils.py]   : [is_valid_json], [prettify_json]
    - [_tools_finder.py] : [find_tools_json]
    - [llm_tools.py]     : [LlmTools.run_tool]
    - [_utils.py]        : [return_or_raise], [print_verbose]
    - [verbose_settings.py] : [VerboseLevel], [VerboseSettings]

    Python's [json] module ([json.loads], [json.dumps]) and [str] methods
    are library code the sources call; they are modelled after CPython's
    [json/decoder.py], [json/scanner.py] and [json/encoder.py].

    The interpreter is taken without its resource bounds: the recursion
    limit (a [RecursionError] of [json.loads], of
    [replace_lists_with_placeholders] or of the encoder on a deeply
    nested document) and the limit on the digits of an integer literal
    (a [ValueError] of [json.loads]) are not modelled.  What is stated
    about a JSON text is stated for the texts within these bounds. *)

From Stdlib Require Import String Ascii.
From Stdlib Require Import List NArith ZArith Bool Lia.
Import Corelib.Init.Datatypes.
From Stdlib Require Import DecimalZ DecimalN DecimalPos DecimalFacts.
Import ListNotations.

Set Implicit Arguments.

(* ================================================================== *)
(** * Part I: definitions                                              *)
(* ================================================================== *)

(** ** Python strings

    A Python [str] is a sequence of Unicode code points; a code point is
    modelled as an [N]. *)

Definition pystr := list N.

(** [py "abc"] is the Python string with the characters of the literal. *)
Definition py (s : String.string) : pystr :=
  map Ascii.N_of_ascii (String.list_ascii_of_string s).
Arguments py s%_string.

(** [jtext] is [py] with every apostrophe of the literal standing for a
    double quote (code point 34), so that JSON texts can be written down. *)
Definition jtext (s : String.string) : pystr :=
  map (fun c => if (c =? 39)%N then 34%N else c) (py s).
Arguments jtext s%_string.

Fixpoint str_eqb (a b : pystr) : bool :=
  match a, b with
  | [], [] => true
  | x :: a', y :: b' => (x =? y)%N && str_eqb a' b'
  | _, _ => false
  end.

(** [s.startswith(p)] *)
Fixpoint starts_with (p s : pystr) : bool :=
  match p, s with
  | [], _ => true
  | a :: p', b :: s' => (a =? b)%N && starts_with p' s'
  | _ :: _, [] => false
  end.

(** [s.endswith(p)] *)
Definition ends_with (p s : pystr) : bool := starts_with (rev p) (rev s).

(** [sub in s]: substring test. *)
Fixpoint contains (sub s : pystr) : bool :=
  starts_with sub s ||
  match s with
  | [] => false
  | _ :: s' => contains sub s'
  end.

(** [s.replace(old, new)]: every non-overlapping occurrence of [old],
    scanning from the left.  [skip] counts the characters of a matched
    occurrence that are still to be stepped over. *)
Fixpoint replace_from (old new : pystr) (skip : nat) (s : pystr) : pystr :=
  match s with
  | [] => match old with [] => new | _ :: _ => [] end
  | c :: s' =>
      match skip with
      | S k => replace_from old new k s'
      | O =>
          if starts_with old s
          then new ++ match old with
                      | [] => c :: replace_from old new 0 s'
                      | _ :: _ => replace_from old new (length old - 1) s'
                      end
          else c :: replace_from old new 0 s'
      end
  end.

Definition str_replace (old new s : pystr) : pystr := replace_from old new 0 s.

(** [sep.join(parts)] *)
Fixpoint join (sep : pystr) (parts : list pystr) : pystr :=
  match parts with
  | [] => []
  | [x] => x
  | x :: rest => x ++ sep ++ join sep rest
  end.

(** [ind * n] *)
Fixpoint str_times (ind : pystr) (n : nat) : pystr :=
  match n with
  | O => []
  | S n' => ind ++ str_times ind n'
  end.

(** [str.isspace] on one character, as [str.strip()] uses it. *)
Definition is_py_space (c : N) : bool :=
  ((9 <=? c) && (c <=? 13) || (28 <=? c) && (c <=? 32) || (c =? 133) || (c =? 160)
   || (c =? 5760) || (8192 <=? c) && (c <=? 8202) || (c =? 8232) || (c =? 8233)
   || (c =? 8239) || (c =? 8287) || (c =? 12288))%N.

(** Truth value of [s.strip()]: some character is not white space. *)
Definition strip_nonempty (s : pystr) : bool := existsb (fun c => negb (is_py_space c)) s.

(** ** Python dictionaries

    A [dict] keeps its keys in insertion order; assigning to a key that is
    present replaces the value in place.  A value of this type stands for
    a Python dict when its keys are pairwise different. *)

Definition pydict (V : Type) := list (pystr * V).

Fixpoint dict_get {V} (k : pystr) (d : pydict V) : option V :=
  match d with
  | [] => None
  | (k', v) :: d' => if str_eqb k k' then Some v else dict_get k d'
  end.

(** [k in d] *)
Definition dict_has {V} (k : pystr) (d : pydict V) : bool :=
  match dict_get k d with Some _ => true | None => false end.

(** [d[k] = v] *)
Fixpoint dict_set {V} (k : pystr) (v : V) (d : pydict V) : pydict V :=
  match d with
  | [] => [(k, v)]
  | (k', v') :: d' => if str_eqb k k' then (k', v) :: d' else (k', v') :: dict_set k v d'
  end.

Definition dict_keys {V} (d : pydict V) : list pystr := map fst d.

(** ** Exceptions and results *)

(** A raised exception: [type(ex).__name__] and [str(ex)]. *)
Record pyexc := mk_exc { exc_type : pystr; exc_text : pystr }.

(** What a call produces: a value, an exception, or nothing yet (a loop
    of the source that the model cut short). *)
Inductive outcome (A : Type) :=
| Returned (a : A)
| Raised (e : pyexc)
| Unfinished.
Arguments Raised {A} e.
Arguments Unfinished {A}.

(** [_utils.return_or_raise]: the factory is only called when it raises. *)
Definition return_or_raise {A} (no_throw : bool) (return_value : A)
    (exception_factory : pyexc) : outcome A :=
  if no_throw then Returned return_value else Raised exception_factory.

(** ** Verbosity ([verbose_settings.py]) *)

Inductive VerboseLevel := NONE | LOW | MID | HIGH.

Definition level_value (l : VerboseLevel) : nat :=
  match l with NONE => 0 | LOW => 1 | MID => 2 | HIGH => 3 end.

(** [VerboseLevel.includes] : [self >= message_level] *)
Definition includes (self message_level : VerboseLevel) : bool :=
  Nat.leb (level_value message_level) (level_value self).

(** The fields of [VerboseSettings] the embedded code reads; [output] is
    the list of written lines, [lock] only serialises writes. *)
Record VerboseSettings := mk_settings {
  verbose_level : VerboseLevel;
  no_throw : bool
}.

(** ** Library behaviour left abstract

    - [pyfloat] are Python's floats: [float_of_lit] is [float(text)] on a
      JSON number literal or on one of [NaN], [Infinity], [-Infinity];
      [float_str] is [json.encoder]'s [floatstr] ([float.__repr__], or one
      of the three names);
    - [float_eq] is [==] on two floats, under which a NaN differs from
      every float, itself included;
    - [json_error_text] is the message of the error [json.loads] raises on
      a text it rejects;
    - [exception_class] is the class hierarchy of the running program, as
      far as a handler [except Exception] reads it: whether the class of
      that name derives from [Exception].  [SystemExit],
      [KeyboardInterrupt], [GeneratorExit] and the classes a tool derives
      from [BaseException] alone do not. *)
Class PyLib := {
  pyfloat : Type;
  float_of_lit : pystr -> pyfloat;
  float_str : pyfloat -> pystr;
  float_eq : pyfloat -> pyfloat -> bool;
  json_error_text : pystr -> pystr;
  exception_class : pystr -> bool
}.

(** [isinstance(ex, Exception)], the test of [except Exception]. *)
Definition is_exception {PL : PyLib} (ex : pyexc) : bool :=
  exception_class (exc_type ex).

(** The instance in which a float is the text it was read from (two
    floats are equal when their texts are, the NaN apart), with the class
    hierarchy of the built-in exceptions. *)
Definition literal_floats : PyLib := {|
  pyfloat := pystr;
  float_of_lit := fun s => s;
  float_str := fun s => s;
  float_eq := fun s t => negb (str_eqb s (py "NaN")) && str_eqb s t;
  json_error_text := fun _ => py "Expecting value";
  exception_class := fun name =>
    negb (existsb (str_eqb name)
            [py "BaseException"; py "SystemExit"; py "KeyboardInterrupt";
             py "GeneratorExit"])
|}.

(** ** JSON values

    What [json.loads] builds and [json.dumps] prints: [None], [bool],
    [int], [float], [str], [list] and [dict] with string keys.  The same
    type stands for the Python values [run_tool] receives. *)

Section Model.
Context {PL : PyLib}.

#[local] Unset Elimination Schemes.
Inductive json :=
| JNull
| JBool (b : bool)
| JInt (z : Z)
| JFloat (f : pyfloat)
| JStr (s : pystr)
| JArr (items : list json)
| JObj (members : pydict json).
#[local] Set Elimination Schemes.

(** *** [json.dumps] ([json/encoder.py]) *)

Definition hex_digit (n : N) : N := (if n <? 10 then 48 + n else 87 + n)%N.

(** [ESCAPE_DCT] of the encoder with [ensure_ascii=False]: the quote, the
    backslash and the control characters below 0x20 are escaped; every
    other character is written as it is. *)
Definition escape_char (c : N) : pystr :=
  (if c =? 34 then [92; 34]            (* backslash, quote *)
   else if c =? 92 then [92; 92]       (* backslash, backslash *)
   else if c =? 10 then [92; 110]      (* backslash, n *)
   else if c =? 13 then [92; 114]      (* backslash, r *)
   else if c =? 9 then [92; 116]       (* backslash, t *)
   else if c =? 12 then [92; 102]      (* backslash, f *)
   else if c =? 8 then [92; 98]        (* backslash, b *)
   else if c <? 32 then [92; 117; 48; 48; hex_digit (c / 16); hex_digit (c mod 16)]
   else [c])%N.

(** [encode_basestring]: the string between double quotes. *)
Definition encode_basestring (s : pystr) : pystr :=
  34%N :: flat_map escape_char s ++ [34%N].

Fixpoint uint_chars (u : Decimal.uint) : pystr :=
  match u with
  | Decimal.Nil => []
  | Decimal.D0 u' => 48%N :: uint_chars u'
  | Decimal.D1 u' => 49%N :: uint_chars u'
  | Decimal.D2 u' => 50%N :: uint_chars u'
  | Decimal.D3 u' => 51%N :: uint_chars u'
  | Decimal.D4 u' => 52%N :: uint_chars u'
  | Decimal.D5 u' => 53%N :: uint_chars u'
  | Decimal.D6 u' => 54%N :: uint_chars u'
  | Decimal.D7 u' => 55%N :: uint_chars u'
  | Decimal.D8 u' => 56%N :: uint_chars u'
  | Decimal.D9 u' => 57%N :: uint_chars u'
  end.

(** [int.__repr__] *)
Definition int_repr (z : Z) : pystr :=
  match Z.to_int z with
  | Decimal.Pos u => uint_chars u
  | Decimal.Neg u => 45%N :: uint_chars u
  end.

(** [_make_iterencode]: [indent] is the indentation unit ([None] for the
    compact form), [level] is [_current_indent_level]. *)
Fixpoint iterencode (indent : option pystr) (item_separator key_separator : pystr)
    (level : nat) (o : json) {struct o} : pystr :=
  let newline_indent :=
    match indent with
    | None => []
    | Some ind => 10%N :: str_times ind (S level)
    end in
  let closing :=
    match indent with
    | None => []
    | Some ind => 10%N :: str_times ind level
    end in
  match o with
  | JNull => py "null"
  | JBool true => py "true"
  | JBool false => py "false"
  | JInt z => int_repr z
  | JFloat f => float_str f
  | JStr s => encode_basestring s
  | JArr [] => py "[]"
  | JArr items =>
      py "[" ++ newline_indent
      ++ join (item_separator ++ newline_indent)
           (map (iterencode indent item_separator key_separator (S level)) items)
      ++ closing ++ py "]"
  | JObj [] => py "{}"
  | JObj members =>
      py "{" ++ newline_indent
      ++ join (item_separator ++ newline_indent)
           (map (fun kv => encode_basestring (fst kv) ++ key_separator
                           ++ iterencode indent item_separator key_separator (S level) (snd kv))
                members)
      ++ closing ++ py "}"
  end.

(** [json.dumps(o, indent=indent, ensure_ascii=False, separators=(item, key))];
    an integer [indent] stands for that many spaces. *)
Definition json_dumps (indent : option nat) (separators : pystr * pystr) (o : json) : pystr :=
  iterencode (option_map (str_times [32%N]) indent) (fst separators) (snd separators) 0 o.

(** *** [json.loads] ([json/decoder.py], [json/scanner.py]) *)

(** [WHITESPACE]: space, tab, line feed, carriage return. *)
Definition is_ws (c : N) : bool := ((c =? 32) || (c =? 9) || (c =? 10) || (c =? 13))%N.

Fixpoint skip_ws (s : pystr) : pystr :=
  match s with
  | c :: r => if is_ws c then skip_ws r else s
  | [] => []
  end.

Definition is_digit (c : N) : bool := ((48 <=? c) && (c <=? 57))%N.

(** The longest run of digits at the head of [s], and what follows it. *)
Fixpoint span_digits (s : pystr) : pystr * pystr :=
  match s with
  | c :: r => if is_digit c then let (d, r') := span_digits r in (c :: d, r') else ([], s)
  | [] => ([], [])
  end.

(** [NUMBER_RE], group by group: an integer part (an optional minus
    sign, then a single zero or a non-zero digit and more digits), an
    optional fraction (a dot and at least one digit) and an optional
    exponent (e or E, an optional sign, at least one digit). *)
Definition match_integer (s : pystr) : option (pystr * pystr) :=
  let (sign, s1) :=
    match s with
    | c :: r => if (c =? 45)%N then ([45%N], r) else ([], s)
    | [] => ([], s)
    end in
  match s1 with
  | c :: r =>
      if (c =? 48)%N then Some (sign ++ [c], r)
      else if is_digit c then let (d, r') := span_digits r in Some (sign ++ c :: d, r')
      else None
  | [] => None
  end.

Definition match_frac (s : pystr) : option (pystr * pystr) :=
  match s with
  | c :: r =>
      if (c =? 46)%N then
        match span_digits r with
        | ([], _) => None
        | (d, r') => Some (c :: d, r')
        end
      else None
  | [] => None
  end.

Definition match_exp (s : pystr) : option (pystr * pystr) :=
  match s with
  | c :: r =>
      if ((c =? 101) || (c =? 69))%N then
        let (sign, r1) :=
          match r with
          | x :: r' => if ((x =? 45) || (x =? 43))%N then ([x], r') else ([], r)
          | [] => ([], r)
          end in
        match span_digits r1 with
        | ([], _) => None
        | (d, r') => Some (c :: sign ++ d, r')
        end
      else None
  | [] => None
  end.

Definition digit_of_char (c : N) (u : Decimal.uint) : Decimal.uint :=
  (if c =? 48 then Decimal.D0 u else if c =? 49 then Decimal.D1 u
   else if c =? 50 then Decimal.D2 u else if c =? 51 then Decimal.D3 u
   else if c =? 52 then Decimal.D4 u else if c =? 53 then Decimal.D5 u
   else if c =? 54 then Decimal.D6 u else if c =? 55 then Decimal.D7 u
   else if c =? 56 then Decimal.D8 u else Decimal.D9 u)%N.

Definition uint_of_chars (s : pystr) : Decimal.uint :=
  fold_right digit_of_char Decimal.Nil s.

(** [int(text)] on an integer literal. *)
Definition int_of_lit (s : pystr) : Z :=
  match s with
  | c :: r => if (c =? 45)%N then Z.of_int (Decimal.Neg (uint_of_chars r))
              else Z.of_int (Decimal.Pos (uint_of_chars s))
  | [] => 0%Z
  end.

(** [match_number] and the scanner's choice between [int] and [float]. *)
Definition scan_number (s : pystr) : option (json * pystr) :=
  match match_integer s with
  | None => None
  | Some (integer, r1) =>
      let (frac, r2) := match match_frac r1 with Some (f, r) => (f, r) | None => ([], r1) end in
      let (exp, r3) := match match_exp r2 with Some (e, r) => (e, r) | None => ([], r2) end in
      match frac, exp with
      | [], [] => Some (JInt (int_of_lit integer), r3)
      | _, _ => Some (JFloat (float_of_lit (integer ++ frac ++ exp)), r3)
      end
  end.

Definition hex_value (c : N) : option N :=
  (if (48 <=? c) && (c <=? 57) then Some (c - 48)
   else if (97 <=? c) && (c <=? 102) then Some (c - 87)
   else if (65 <=? c) && (c <=? 70) then Some (c - 55)
   else None)%N.

(** The four hexadecimal digits after a [\u]: their value and the rest. *)
Definition decode_uXXXX (s : pystr) : option (N * pystr) :=
  match s with
  | a :: b :: c :: d :: r =>
      match hex_value a, hex_value b, hex_value c, hex_value d with
      | Some x, Some y, Some z, Some w => Some (((x * 16 + y) * 16 + z) * 16 + w, r)%N
      | _, _, _, _ => None
      end
  | _ => None
  end.

(** [BACKSLASH]: the one-letter escapes. *)
Definition backslash (c : N) : option N :=
  (if c =? 34 then Some 34 else if c =? 92 then Some 92 else if c =? 47 then Some 47
   else if c =? 98 then Some 8 else if c =? 102 then Some 12 else if c =? 110 then Some 10
   else if c =? 114 then Some 13 else if c =? 116 then Some 9 else None)%N.

(** [scanstring] with [strict=True], from just after the opening quote:
    the decoded string and the text after the closing quote.  A [\u]
    escape of a high surrogate followed by one of a low surrogate is one
    character. *)
Fixpoint scanstring (s : pystr) : option (pystr * pystr) :=
  match s with
  | [] => None                                    (* unterminated *)
  | c :: r =>
      if (c =? 34)%N then Some ([], r)
      else if (c <? 32)%N then None               (* control character *)
      else if (c =? 92)%N then
        match r with
        | [] => None
        | e :: r1 =>
            if (e =? 117)%N then
              match r1 with
              | h1 :: h2 :: h3 :: h4 :: r2 =>
                  match decode_uXXXX (h1 :: h2 :: h3 :: h4 :: []) with
                  | None => None
                  | Some (uni, _) =>
                      let single :=
                        match scanstring r2 with
                        | Some (t, r') => Some (uni :: t, r')
                        | None => None
                        end in
                      if ((55296 <=? uni) && (uni <=? 56319))%N then
                        match r2 with
                        | b1 :: u1 :: g1 :: g2 :: g3 :: g4 :: r3 =>
                            if ((b1 =? 92) && (u1 =? 117))%N then
                              match decode_uXXXX (g1 :: g2 :: g3 :: g4 :: []) with
                              | None => None
                              | Some (uni2, _) =>
                                  if ((56320 <=? uni2) && (uni2 <=? 57343))%N then
                                    match scanstring r3 with
                                    | Some (t, r') =>
                                        Some ((65536 + (N.lor (N.shiftl (uni - 55296) 10)
                                                              (uni2 - 56320)))%N :: t, r')
                                    | None => None
                                    end
                                  else single
                              end
                            else single
                        | _ => single
                        end
                      else single
                  end
              | _ => None
              end
            else
              match backslash e with
              | None => None
              | Some ch =>
                  match scanstring r1 with
                  | Some (t, r') => Some (ch :: t, r')
                  | None => None
                  end
              end
        end
      else
        match scanstring r with
        | Some (t, r') => Some (c :: t, r')
        | None => None
        end
  end.

(** [scan_once], [JSONArray] and [JSONObject].  [fuel] bounds the nesting
    and the number of items; [json_loads] gives more than any text
    needs.  [parse_items] starts at an item, [parse_members] just after
    the opening quote of a key. *)
Fixpoint scan_once (fuel : nat) (s : pystr) {struct fuel} : option (json * pystr) :=
  match fuel with
  | O => None
  | S fuel' =>
      match s with
      | [] => None
      | c :: r =>
          if (c =? 34)%N then
            match scanstring r with
            | Some (str, r') => Some (JStr str, r')
            | None => None
            end
          else if (c =? 123)%N then
            match skip_ws r with
            | d :: r1 =>
                if (d =? 125)%N then Some (JObj [], r1)
                else if (d =? 34)%N then
                  match parse_members fuel' r1 [] with
                  | Some (m, r') => Some (JObj m, r')
                  | None => None
                  end
                else None
            | [] => None
            end
          else if (c =? 91)%N then
            match skip_ws r with
            | d :: r1 =>
                if (d =? 93)%N then Some (JArr [], r1)
                else
                  match parse_items fuel' (d :: r1) [] with
                  | Some (l, r') => Some (JArr l, r')
                  | None => None
                  end
            | [] => None
            end
          else if starts_with (py "null") s then Some (JNull, skipn 4 s)
          else if starts_with (py "true") s then Some (JBool true, skipn 4 s)
          else if starts_with (py "false") s then Some (JBool false, skipn 5 s)
          else
            match scan_number s with
            | Some res => Some res
            | None =>
                if starts_with (py "NaN") s
                then Some (JFloat (float_of_lit (py "NaN")), skipn 3 s)
                else if starts_with (py "Infinity") s
                then Some (JFloat (float_of_lit (py "Infinity")), skipn 8 s)
                else if starts_with (py "-Infinity") s
                then Some (JFloat (float_of_lit (py "-Infinity")), skipn 9 s)
                else None
            end
      end
  end

with parse_items (fuel : nat) (s : pystr) (values : list json) {struct fuel}
    : option (list json * pystr) :=
  match fuel with
  | O => None
  | S fuel' =>
      match scan_once fuel' s with
      | None => None
      | Some (value, r1) =>
          match skip_ws r1 with
          | d :: r2 =>
              if (d =? 93)%N then Some (values ++ [value], r2)
              else if (d =? 44)%N then parse_items fuel' (skip_ws r2) (values ++ [value])
              else None
          | [] => None
          end
      end
  end

with parse_members (fuel : nat) (s : pystr) (pairs : pydict json) {struct fuel}
    : option (pydict json * pystr) :=
  match fuel with
  | O => None
  | S fuel' =>
      match scanstring s with
      | None => None
      | Some (key, r1) =>
          match skip_ws r1 with
          | c :: r2 =>
              if (c =? 58)%N then
                match scan_once fuel' (skip_ws r2) with
                | None => None
                | Some (value, r3) =>
                    let pairs' := dict_set key value pairs in
                    match skip_ws r3 with
                    | d :: r4 =>
                        if (d =? 125)%N then Some (pairs', r4)
                        else if (d =? 44)%N then
                          match skip_ws r4 with
                          | q :: r5 => if (q =? 34)%N then parse_members fuel' r5 pairs' else None
                          | [] => None
                          end
                        else None
                    | [] => None
                    end
                end
              else None
          | [] => None
          end
      end
  end.

(** [json.loads(s)]: one value between optional white space, nothing
    after it.  [None] stands for the raised [JSONDecodeError]. *)
Definition json_loads (s : pystr) : option json :=
  match scan_once (S (length s)) (skip_ws s) with
  | Some (v, r) => match skip_ws r with [] => Some v | _ :: _ => None end
  | None => None
  end.


(** ** Tools, modules and the directory tree *)

(** What a call of a tool's entry point does: it returns a value or
    raises an exception, of any class: [is_exception] tells whether a
    handler [except Exception] catches it. *)
Inductive tool_result :=
| ToolReturns (v : json)
| ToolRaises (ex : pyexc).

(** An entry point, called with keyword arguments. *)
Definition callable := pydict json -> tool_result.

(** The Python values a module attribute or a registry field can hold, as
    far as [callable(x)] and [isinstance(x, str)] tell them apart. *)
Inductive pyval :=
| PNone
| PInt (z : Z)
| PStr (s : pystr)
| PCallable (f : callable).

Definition is_callable (v : pyval) : bool :=
  match v with PCallable _ => true | _ => false end.

Definition is_str (v : pyval) : bool :=
  match v with PStr _ => true | _ => false end.

(** The namespace of a loaded module: the two names the scanner reads,
    each bound or not. *)
Record pymodule := mk_module {
  tool_run : option pyval;
  TOOL_DEFINITION : option pyval
}.

(** [getattr(module, name, default)] *)
Definition getattr (binding : option pyval) (default : pyval) : pyval :=
  match binding with Some v => v | None => default end.

(** A call of the file system or of the import machinery: its value, or
    the exception it raises.  The file system raises [OSError] and other
    instances of [Exception]; the top-level code of an imported file can
    raise an exception of any class. *)
Inductive result (A : Type) :=
| Ok (a : A)
| Err (ex : pyexc).
Arguments Err {A} ex.

(** A regular file: [entry.stem], [entry.suffix], what [entry.stat().st_size]
    gives and what importing it gives ([spec_from_file_location],
    [module_from_spec], [exec_module]). *)
Record pyfile := mk_file {
  f_stem : pystr;
  f_suffix : pystr;
  f_size : result N;
  f_module : result pymodule
}.

(** [entry.name] *)
Definition f_name (f : pyfile) : pystr := f_stem f ++ f_suffix f.

(** An entry of a directory listing.  For a directory: its name, whether
    it is a symbolic link, and what [iterdir()] gives on it. *)
#[local] Unset Elimination Schemes.
Inductive entry :=
| EDir (name : pystr) (is_symlink : bool) (listing : result (list entry))
| EFile (f : pyfile)
| EOther (name : pystr).
#[local] Set Elimination Schemes.

Definition entry_name (e : entry) : pystr :=
  match e with
  | EDir name _ _ => name
  | EFile f => f_name f
  | EOther name => name
  end.

(** ** Diagnostics ([_utils.print_verbose]) *)

(** The messages of the embedded code, one constructor per format
    string, holding the formatted values. *)
Inductive diag :=
| MsgText (text : pystr)
| MsgTraversing (depth : Z) (dir : pystr)
| MsgCannotList (dir : pystr) (ex : pyexc)
| MsgSymlink (name : pystr)
| MsgMaxDepth (name : pystr)
| MsgNoMiddle (name : pystr)
| MsgCannotStat (name : pystr) (ex : pyexc)
| MsgTooBig (name : pystr) (size : N)
| MsgImportFailed (name : pystr) (ex : pyexc)
| MsgSkipping (name : pystr) (ex : pyexc)
| MsgOverwriting (module_name : pystr)
| MsgLoaded (module_name : pystr) (name : pystr)
| MsgLoadedTools (accepted : nat) (tool_names : list pystr)
| MsgFinished (base : pystr) (counts : list nat).

(** The diagnostics channel: [issued] records every call of
    [print_verbose] with its level, in order; [written] are the lines
    printed to [verbose_settings.output]. *)
Record channel := mk_channel {
  issued : list (VerboseLevel * diag);
  written : list diag
}.

(** [print_verbose(required, message, verbose_settings)]: the settings
    object switches validation off; nothing is printed at level [NONE],
    and otherwise the message is printed when the level includes it. *)
Definition print_verbose (required_verbose_level : VerboseLevel) (message : diag)
    (vs : VerboseSettings) (ch : channel) : channel :=
  {| issued := issued ch ++ [(required_verbose_level, message)];
     written :=
       match verbose_level vs with
       | NONE => written ch
       | current =>
           if includes current required_verbose_level
           then written ch ++ [message]
           else written ch
       end |}.

(** The world outside the scanner's variables: the diagnostics channel,
    the files whose top-level code has run ([exec_module]'s side effect),
    and the values that the coming calls of [uuid.uuid4().hex] deliver. *)
Record World := mk_world {
  chan : channel;
  executed : list pyfile;
  draws : list pystr
}.

Definition say (lvl : VerboseLevel) (m : diag) (vs : VerboseSettings) (w : World) : World :=
  {| chan := print_verbose lvl m vs (chan w); executed := executed w; draws := draws w |}.

Definition set_draws (d : list pystr) (w : World) : World :=
  {| chan := chan w; executed := executed w; draws := d |}.

Definition run_file (f : pyfile) (w : World) : World :=
  {| chan := chan w; executed := executed w ++ [f]; draws := draws w |}.

(** ** [_json_utils.py] *)

(** [is_valid_json(json_str, no_throw)] for a [str] argument: the tuple
    (is_valid, parsed_value, error_message), [JNull] and [None] standing
    for Python's [None]. *)
Definition is_valid_json (json_str : pystr) (no_throw : bool)
    : outcome (bool * json * option pystr) :=
  match json_loads json_str with
  | Some parsed => Returned (true, parsed, None)
  | None =>
      if no_throw
      then Returned (false, JNull,
                     Some (py "Exception (" ++ py "JSONDecodeError" ++ py "): "
                           ++ json_error_text json_str))
      else Raised (mk_exc (py "JSONDecodeError") (json_error_text json_str))
  end.

(** The token built around one value of [uuid.uuid4().hex]. *)
Definition placeholder_token (hex : pystr) : pystr :=
  py "__JSON_LIST_PLACEHOLDER_" ++ hex ++ py "__".

(** [generate_unique_token]: draws until a token occurs neither in
    [json_text] nor among the keys of [placeholders]; [None] when the
    given draws are used up before that. *)
Fixpoint generate_unique_token (json_text : pystr) (placeholders : pydict pystr)
    (uuids : list pystr) : option (pystr * list pystr) :=
  match uuids with
  | [] => None
  | hex :: uuids' =>
      let token := placeholder_token hex in
      if negb (contains token json_text) && negb (dict_has token placeholders)
      then Some (token, uuids')
      else generate_unique_token json_text placeholders uuids'
  end.

(** [list_to_single_line_json] *)
Definition list_to_single_line_json (value : json) : pystr :=
  json_dumps None (py ",", py ":") value.

(** [replace_lists_with_placeholders], threading the [placeholders]
    dictionary and the draws.  The dict comprehension visits the items in
    order. *)
Fixpoint replace_lists_with_placeholders (json_text : pystr) (value : json)
    (st : pydict pystr * list pystr) {struct value}
    : option (json * (pydict pystr * list pystr)) :=
  match value with
  | JArr _ =>
      match generate_unique_token json_text (fst st) (snd st) with
      | None => None
      | Some (token, uuids') =>
          Some (JStr token,
                (dict_set token (list_to_single_line_json value) (fst st), uuids'))
      end
  | JObj members =>
      let fix items (ms : pydict json) (st : pydict pystr * list pystr)
          : option (pydict json * (pydict pystr * list pystr)) :=
        match ms with
        | [] => Some ([], st)
        | (key, val) :: ms' =>
            match replace_lists_with_placeholders json_text val st with
            | None => None
            | Some (val', st1) =>
                match items ms' st1 with
                | None => None
                | Some (ms'', st2) => Some ((key, val') :: ms'', st2)
                end
            end
        end in
      match items members st with
      | None => None
      | Some (members', st') => Some (JObj members', st')
      end
  | _ => Some (value, st)
  end.

(** The final loop of [prettify_json]: each quoted token is replaced by
    the one-line text of its list, in the order of [placeholders.items()]. *)
Definition splice_placeholders (placeholders : pydict pystr) (pretty_text : pystr) : pystr :=
  fold_left (fun text item => str_replace (34%N :: fst item ++ [34%N]) (snd item) text)
            placeholders pretty_text.

(** [prettify_json(json_text, verbose_settings)] for a [str] argument. *)
Definition prettify_json (json_text : pystr) (vs : VerboseSettings) (w : World)
    : outcome pystr * World :=
  match is_valid_json json_text (no_throw vs) with
  | Raised e => (Raised e, w)
  | Unfinished => (Unfinished, w)
  | Returned (false, _, error_message) =>
      let w1 :=
        match error_message with
        | Some m => say LOW (MsgText m) vs w
        | None => w
        end in
      (return_or_raise (no_throw vs) json_text
         (mk_exc (py "RuntimeError") (py "`json_text` is not a valid json")), w1)
  | Returned (true, valid_json, _) =>
      match replace_lists_with_placeholders json_text valid_json ([], draws w) with
      | None => (Unfinished, set_draws [] w)
      | Some (transformed_obj, (placeholders, uuids')) =>
          let pretty_text := json_dumps (Some 1) (py ",", py ": ") transformed_obj in
          (Returned (splice_placeholders placeholders pretty_text), set_draws uuids' w)
      end
  end.

(** ** [_tools_finder.py] *)

(** [_MAX_TOOL_FILE_SIZE_BYTES] *)
Definition MAX_TOOL_FILE_SIZE_BYTES : N := 1048576.

(** A registry entry: the dict with the keys [description] and [runner]. *)
Record tool_entry := mk_entry {
  description : pyval;
  runner : pyval
}.

(** The keyword arguments of [find_tools_json], of the types its guards
    accept ([max_depth] an [int], [prefix] and [suffix] a [str] or [None],
    [prettify] and [validate] a [bool]). *)
Record scan_args := mk_args {
  max_depth : Z;
  prefix : option pystr;
  suffix : option pystr;
  prettify : bool;
  validate : bool
}.

(** The counters of the scan, in the order of their declaration. *)
Record counters := mk_counters {
  dirs_visited : nat;
  files_seen : nat;
  name_matched : nat;
  skipped_too_big : nat;
  skipped_import_error : nat;
  skipped_missing_fields : nat;
  skipped_invalid_description : nat;
  accepted : nat
}.

(** The local variables of the scan and the world around it.  The head
    of [stack] is the end of the Python list, where [append] and [pop]
    work. *)
Record scan_state := mk_state {
  tools : pydict tool_entry;
  stack : list (entry * Z);
  count : counters;
  world : World
}.

Definition set_tools (t : pydict tool_entry) (st : scan_state) : scan_state :=
  mk_state t (stack st) (count st) (world st).
Definition set_stack (k : list (entry * Z)) (st : scan_state) : scan_state :=
  mk_state (tools st) k (count st) (world st).
Definition set_count (c : counters) (st : scan_state) : scan_state :=
  mk_state (tools st) (stack st) c (world st).
Definition set_world (w : World) (st : scan_state) : scan_state :=
  mk_state (tools st) (stack st) (count st) w.

Definition log (lvl : VerboseLevel) (m : diag) (vs : VerboseSettings) (st : scan_state)
    : scan_state :=
  set_world (say lvl m vs (world st)) st.

Definition incr_dirs_visited (c : counters) : counters :=
  mk_counters (S (dirs_visited c)) (files_seen c) (name_matched c) (skipped_too_big c)
    (skipped_import_error c) (skipped_missing_fields c) (skipped_invalid_description c)
    (accepted c).
Definition incr_files_seen (c : counters) : counters :=
  mk_counters (dirs_visited c) (S (files_seen c)) (name_matched c) (skipped_too_big c)
    (skipped_import_error c) (skipped_missing_fields c) (skipped_invalid_description c)
    (accepted c).
Definition incr_name_matched (c : counters) : counters :=
  mk_counters (dirs_visited c) (files_seen c) (S (name_matched c)) (skipped_too_big c)
    (skipped_import_error c) (skipped_missing_fields c) (skipped_invalid_description c)
    (accepted c).
Definition incr_skipped_too_big (c : counters) : counters :=
  mk_counters (dirs_visited c) (files_seen c) (name_matched c) (S (skipped_too_big c))
    (skipped_import_error c) (skipped_missing_fields c) (skipped_invalid_description c)
    (accepted c).
Definition incr_skipped_import_error (c : counters) : counters :=
  mk_counters (dirs_visited c) (files_seen c) (name_matched c) (skipped_too_big c)
    (S (skipped_import_error c)) (skipped_missing_fields c) (skipped_invalid_description c)
    (accepted c).
Definition incr_skipped_missing_fields (c : counters) : counters :=
  mk_counters (dirs_visited c) (files_seen c) (name_matched c) (skipped_too_big c)
    (skipped_import_error c) (S (skipped_missing_fields c)) (skipped_invalid_description c)
    (accepted c).
Definition incr_skipped_invalid_description (c : counters) : counters :=
  mk_counters (dirs_visited c) (files_seen c) (name_matched c) (skipped_too_big c)
    (skipped_import_error c) (skipped_missing_fields c) (S (skipped_invalid_description c))
    (accepted c).
Definition incr_accepted (c : counters) : counters :=
  mk_counters (dirs_visited c) (files_seen c) (name_matched c) (skipped_too_big c)
    (skipped_import_error c) (skipped_missing_fields c) (skipped_invalid_description c)
    (S (accepted c)).

Definition bump (f : counters -> counters) (st : scan_state) : scan_state :=
  set_count (f (count st)) st.

(** How one pass through a loop body ends: the loop goes on, an
    exception leaves the function, or a call inside did not finish. *)
Inductive flow :=
| Next (st : scan_state)
| Throw (ex : pyexc) (st : scan_state)
| Stall (st : scan_state).

(** [isinstance(ex, ValueError)], for the exceptions that can reach the
    handler ([JSONDecodeError] derives from [ValueError]). *)
Definition is_value_error (ex : pyexc) : bool :=
  str_eqb (exc_type ex) (py "ValueError") || str_eqb (exc_type ex) (py "JSONDecodeError").

(** [stem[len(prefix):]], then [[:-len(suffix)]] when [suffix] is not empty. *)
Definition module_name_of (prefix suffix stem : pystr) : pystr :=
  let module_name := skipn (length prefix) stem in
  match suffix with
  | [] => module_name
  | _ :: _ => firstn (length module_name - length suffix) module_name
  end.

(** The [try] block that extracts [tool_run] and [TOOL_DEFINITION]: the
    description and the runner, or the exception raised inside it. *)
Definition extract_fields (prettify validate : bool) (vs : VerboseSettings)
    (module : pymodule) (w : World) : outcome (pystr * pyval) * World :=
  let runner := getattr (tool_run module) PNone in
  let description_obj := getattr (TOOL_DEFINITION module) PNone in
  if negb (is_callable runner)
  then (Raised (mk_exc (py "AttributeError") (py "Missing or non-callable `tool_run`")), w)
  else
    match description_obj with
    | PStr description =>
        let checked :=
          if validate || prettify
          then
            match is_valid_json description (no_throw vs) with
            | Returned (result, _, error_message) =>
                if result then Returned tt
                else Raised (mk_exc (py "ValueError")
                       match error_message with
                       | Some (c :: m) => c :: m
                       | _ => py "`TOOL_DEFINITION` is not valid JSON"
                       end)
            | Raised e => Raised e
            | Unfinished => Unfinished
            end
          else Returned tt in
        match checked with
        | Raised e => (Raised e, w)
        | Unfinished => (Unfinished, w)
        | Returned _ =>
            if prettify
            then
              match prettify_json description vs w with
              | (Returned pretty, w') => (Returned (pretty, runner), w')
              | (Raised e, w') => (Raised e, w')
              | (Unfinished, w') => (Unfinished, w')
              end
            else (Returned (description, runner), w)
        end
    | _ =>
        (Raised (mk_exc (py "TypeError")
                   (py "`TOOL_DEFINITION` must be a JSON string (type str)")), w)
    end.

(** The body of [for entry in entries], for a file that passed
    [entry.is_file()]. *)
Definition process_file (a : scan_args) (pre suf : pystr) (vs : VerboseSettings)
    (f : pyfile) (st : scan_state) : flow :=
  let st := bump incr_files_seen st in
  (* Only the files with the suffix .py *)
  if negb (str_eqb (f_suffix f) (py ".py")) then Next st
  else
    (* Name filter *)
    let stem := f_stem f in
    if negb (starts_with pre stem && ends_with suf stem) then Next st
    else if (length stem <=? length pre + length suf)%nat
    then Next (log HIGH (MsgNoMiddle (f_name f)) vs st)
    else
      let st := bump incr_name_matched st in
      (* Size guard *)
      match f_size f with
      | Err ex =>
          let st := log HIGH (MsgCannotStat (f_name f) ex) vs st in
          if no_throw vs then Next st else Throw ex st
      | Ok size =>
          if (MAX_TOOL_FILE_SIZE_BYTES <? size)%N
          then Next (log LOW (MsgTooBig (f_name f) size) vs (bump incr_skipped_too_big st))
          else
            (* Load module (executes top-level code) *)
            let module_name := module_name_of pre suf stem in
            let st := set_world (run_file f (world st)) st in
            match f_module f with
            | Err ex =>
                (* except Exception: what the top-level code raises outside
                   Exception (SystemExit, KeyboardInterrupt) is not caught
                   and leaves the scan under both policies *)
                if is_exception ex
                then
                  let st := bump incr_skipped_import_error st in
                  let st := log LOW (MsgImportFailed (f_name f) ex) vs st in
                  if no_throw vs then Next st else Throw ex st
                else Throw ex st
            | Ok module =>
                (* Extract only what we need *)
                match extract_fields (prettify a) (validate a) vs module (world st) with
                | (Unfinished, w) => Stall (set_world w st)
                | (Raised ex, w) =>
                    (* except Exception: the exceptions of this block are
                       raised by the block itself and by is_valid_json,
                       and all derive from Exception *)
                    let st := set_world w st in
                    let st := bump incr_skipped_missing_fields st in
                    let st :=
                      if is_value_error ex && contains (py "JSON") (exc_text ex)
                      then bump incr_skipped_invalid_description st
                      else st in
                    let st := log LOW (MsgSkipping (f_name f) ex) vs st in
                    if no_throw vs then Next st else Throw ex st
                | (Returned (descr, run), w) =>
                    let st := set_world w st in
                    let st :=
                      if dict_has module_name (tools st)
                      then log LOW (MsgOverwriting module_name) vs st
                      else st in
                    (* Accept tool *)
                    let st :=
                      set_tools (dict_set module_name (mk_entry (PStr descr) run) (tools st))
                                st in
                    let st := bump incr_accepted st in
                    Next (log MID (MsgLoaded module_name (f_name f)) vs st)
                end
            end
      end.

(** The body of [for entry in entries] in the directory at [depth]. *)
Definition process_entry (a : scan_args) (pre suf : pystr) (vs : VerboseSettings)
    (depth : Z) (e : entry) (st : scan_state) : flow :=
  match e with
  | EDir name is_symlink _ =>
      if is_symlink then Next (log HIGH (MsgSymlink name) vs st)
      else if (max_depth a <=? depth)%Z then Next (log HIGH (MsgMaxDepth name) vs st)
      else Next (set_stack ((e, (depth + 1)%Z) :: stack st) st)
  | EOther _ => Next st
  | EFile f => process_file a pre suf vs f st
  end.

(** [for entry in entries: ...] *)
Fixpoint process_entries (a : scan_args) (pre suf : pystr) (vs : VerboseSettings)
    (depth : Z) (entries : list entry) (st : scan_state) : flow :=
  match entries with
  | [] => Next st
  | e :: rest =>
      match process_entry a pre suf vs depth e st with
      | Next st' => process_entries a pre suf vs depth rest st'
      | stopped => stopped
      end
  end.

(** [list(current_dir.iterdir())] *)
Definition iterdir (current_dir : entry) : result (list entry) :=
  match current_dir with
  | EDir _ _ listing => listing
  | _ => Err (mk_exc (py "NotADirectoryError") (entry_name current_dir))
  end.

(** [while stack: ...]; [fuel] bounds the number of directories popped. *)
Fixpoint scan_loop (fuel : nat) (a : scan_args) (pre suf : pystr) (vs : VerboseSettings)
    (st : scan_state) : flow :=
  match stack st with
  | [] => Next st
  | (current_dir, depth) :: below =>
      match fuel with
      | O => Stall st
      | S fuel' =>
          let st := set_stack below st in
          let st := bump incr_dirs_visited st in
          let st := log HIGH (MsgTraversing depth (entry_name current_dir)) vs st in
          match iterdir current_dir with
          | Err ex =>
              let st := log LOW (MsgCannotList (entry_name current_dir) ex) vs st in
              if no_throw vs then scan_loop fuel' a pre suf vs st else Throw ex st
          | Ok entries =>
              match process_entries a pre suf vs depth entries st with
              | Next st' => scan_loop fuel' a pre suf vs st'
              | stopped => stopped
              end
          end
      end
  end.

(** The number of directories under an entry, itself included. *)
Fixpoint dir_count (e : entry) : nat :=
  match e with
  | EDir _ _ (Ok entries) => S (list_sum (map dir_count entries))
  | EDir _ _ (Err _) => 1
  | _ => 0
  end.

Definition new_counters : counters := mk_counters 0 0 0 0 0 0 0 0.

Definition counts_list (c : counters) : list nat :=
  [dirs_visited c; files_seen c; name_matched c; accepted c; skipped_too_big c;
   skipped_import_error c; skipped_missing_fields c; skipped_invalid_description c].

(** [find_tools_json(base_dir, verbose_settings, max_depth=.., prefix=..,
    suffix=.., prettify=.., validate=..)].  [base_dir] is what
    [Path(base_dir).expanduser().resolve()] gives: the resolved entry, or
    the exception of the call.  The result comes with the world after the
    call. *)
Definition find_tools_json (base_dir : result entry) (vs : VerboseSettings) (a : scan_args)
    (w : World) : outcome (pydict tool_entry) * World :=
  (* ---- Validate input ---- *)
  if (max_depth a <? 0)%Z
  then (return_or_raise (no_throw vs) []
          (mk_exc (py "ValueError") (py "`max_depth` value must be >= 0")), w)
  else
    let pre := match prefix a with Some p => p | None => [] end in
    let suf := match suffix a with Some p => p | None => [] end in
    let a := mk_args (max_depth a) (prefix a) (suffix a) (prettify a)
                     (if prettify a then false else validate a) in
    match base_dir with
    | Err ex =>
        (return_or_raise (no_throw vs) []
           (mk_exc (py "RuntimeError")
              (py "Failed to resolve base path. Exception (" ++ exc_type ex ++ py "): "
               ++ exc_text ex)), w)
    | Ok base_path =>
        match base_path with
        | EDir _ _ _ =>
            (* ---- Scan + load ---- *)
            let st := mk_state [] [(base_path, 0%Z)] new_counters w in
            match scan_loop (dir_count base_path) a pre suf vs st with
            | Throw ex st' => (Raised ex, world st')
            | Stall st' => (Unfinished, world st')
            | Next st' =>
                let st' :=
                  log MID (MsgLoadedTools (accepted (count st')) (dict_keys (tools st')))
                      vs st' in
                let st' :=
                  log LOW (MsgFinished (entry_name base_path) (counts_list (count st')))
                      vs st' in
                (Returned (tools st'), world st')
            end
        | _ =>
            (return_or_raise (no_throw vs) []
               (mk_exc (py "FileNotFoundError")
                  (py "Base directory does not exist or is not a directory: "
                   ++ entry_name base_path)), w)
        end
    end.

(** ** [llm_tools.py]: [LlmTools.run_tool] *)

(** Where the resolution of a call ends: with a name and its arguments,
    or with the function left early. *)
Inductive resolution :=
| Resolved (name : pystr) (args : pydict json)
| Exit (o : outcome json).

(** [payload.get(key, None)] *)
Definition get_or_none (key : pystr) (payload : pydict json) : json :=
  match dict_get key payload with Some v => v | None => JNull end.

(** The primary path, from the decoded payload on: the name and the
    arguments it yields, if any. *)
Definition read_payload (payload : json) : option (pystr * pydict json) :=
  (* a single-item list around the payload *)
  let payload :=
    match payload with
    | JArr [JObj m] => JObj m
    | JArr _ => JNull
    | other => other
    end in
  match payload with
  | JObj m =>
      let candidate_name := get_or_none (py "name") m in
      let candidate_name :=
        match candidate_name with
        | JNull => get_or_none (py "function_name") m
        | _ => candidate_name
        end in
      let candidate_args := get_or_none (py "parameters") m in
      let candidate_args :=
        match candidate_args with
        | JNull => get_or_none (py "arguments") m
        | _ => candidate_args
        end in
      let candidate_args :=
        match candidate_args with
        | JNull => JObj []
        | _ => candidate_args
        end in
      let candidate_args :=
        match candidate_args with
        | JStr text => match json_loads text with Some v => v | None => JNull end
        | _ => candidate_args
        end in
      match candidate_name, candidate_args with
      | JStr name, JObj args => if strip_nonempty name then Some (name, args) else None
      | _, _ => None
      end
  | _ => None
  end.

(** The first half of [run_tool]: the primary path on [tool_call], then
    the fallback on [tool_name] and [tool_args].  [JNull] is [None]. *)
Definition resolve_call (no_throw : bool) (tool_call tool_name tool_args : json)
    : resolution :=
  let bad_call :=
    Exit (return_or_raise no_throw JNull
            (mk_exc (py "TypeError") (py "`tool_call` must be of type str, dict or None"))) in
  let fallback :=
    match tool_name with
    | JNull =>
        Exit (return_or_raise no_throw JNull
                (mk_exc (py "ValueError")
                   (py "Unknown tool-call format or missing `tool_call`; "
                    ++ py "fallback `tool_name` must be provided")))
    | JStr name =>
        if strip_nonempty name then
          match tool_args with
          | JNull => Resolved name []
          | JObj args => Resolved name args
          | _ =>
              Exit (return_or_raise no_throw JNull
                      (mk_exc (py "TypeError") (py "`tool_args` must be a dict or None")))
          end
        else
          Exit (return_or_raise no_throw JNull
                  (mk_exc (py "TypeError") (py "`tool_name` must be a non-empty str")))
    | _ =>
        Exit (return_or_raise no_throw JNull
                (mk_exc (py "TypeError") (py "`tool_name` must be a non-empty str")))
    end in
  let primary (payload : json) :=
    match read_payload payload with
    | Some (name, args) => Resolved name args
    | None => fallback
    end in
  match tool_call with
  | JNull => fallback
  | JStr text => primary (match json_loads text with Some v => v | None => JNull end)
  | JObj _ => primary tool_call
  | _ => bad_call
  end.

(** [run_tool(tool_call, tool_name=.., tool_args=..)] on an object whose
    [tools] and [verbose_settings] are set: its result, and the calls of
    entry points it made (name and keyword arguments). *)
Definition run_tool (tools : pydict tool_entry) (vs : VerboseSettings)
    (tool_call tool_name tool_args : json)
    : outcome json * list (pystr * pydict json) :=
  match resolve_call (no_throw vs) tool_call tool_name tool_args with
  | Exit o => (o, [])
  | Resolved tool_name_final tool_args_final =>
      if negb (dict_has tool_name_final tools)
      then (return_or_raise (no_throw vs) JNull
              (mk_exc (py "ValueError")
                 (py "`" ++ tool_name_final ++ py "` is not a registered tool")), [])
      else
        let run :=
          match dict_get tool_name_final tools with
          | Some meta => runner meta
          | None => PNone
          end in
        match run with
        | PCallable f =>
            match f tool_args_final with
            | ToolReturns v => (Returned v, [(tool_name_final, tool_args_final)])
            | ToolRaises ex =>
                (* except Exception: an exception outside Exception
                   (SystemExit, KeyboardInterrupt) is not caught *)
                (if is_exception ex
                 then
                   if no_throw vs then Returned JNull
                   else Raised (mk_exc (py "RuntimeError")
                          (py "Tool `" ++ tool_name_final
                           ++ py "` execution failed. Exception (" ++ exc_type ex
                           ++ py "): " ++ exc_text ex))
                 else Raised ex,
                 [(tool_name_final, tool_args_final)])
            end
        | _ =>
            (return_or_raise (no_throw vs) JNull
               (mk_exc (py "RuntimeError")
                  (py "Registered tool `" ++ tool_name_final
                   ++ py "` has no callable `runner`")), [])
        end
  end.

(** ** Vocabulary of the properties *)

(** The state a pass through a loop body ends in. *)
Definition flow_state (r : flow) : scan_state :=
  match r with
  | Next st => st
  | Throw _ st => st
  | Stall st => st
  end.

(** The size of a file is known and within the ceiling. *)
Definition within_ceiling (f : pyfile) : Prop :=
  exists size, f_size f = Ok size /\ (size <= MAX_TOOL_FILE_SIZE_BYTES)%N.

(** The registry invariant: every key is a non-empty string, every
    description a string, every runner callable. *)
Definition registry_ok (reg : pydict tool_entry) : Prop :=
  Forall (fun kv => fst kv <> [] /\ is_str (description (snd kv)) = true
                    /\ is_callable (runner (snd kv)) = true) reg.

(** The name filter of the scan: the suffix [.py], the prefix, the suffix
    of the stem, and something between the two. *)
Definition is_candidate (pre suf : pystr) (f : pyfile) : bool :=
  str_eqb (f_suffix f) (py ".py")
  && (starts_with pre (f_stem f) && ends_with suf (f_stem f))
  && negb (length (f_stem f) <=? length pre + length suf)%nat.

(** An entry without what lies below it: a directory loses its listing. *)
Definition prune (e : entry) : entry :=
  match e with
  | EDir name is_symlink _ => EDir name is_symlink (Ok [])
  | _ => e
  end.

(** *** Vocabulary of the round trip *)

(** The text [prettify_json] aims at: objects over several lines, one
    space of indentation per level, lists on one line.  [mode] is [None]
    inside a list and the indentation level outside. *)
Fixpoint render (mode : option nat) (v : json) {struct v} : pystr :=
  let nl :=
    fun k => match mode with
             | None => []
             | Some level => 10%N :: str_times [32%N] (k + level)
             end in
  let colon := match mode with None => py ":" | Some _ => py ": " end in
  match v with
  | JNull => py "null"
  | JBool true => py "true"
  | JBool false => py "false"
  | JInt z => int_repr z
  | JFloat f => float_str f
  | JStr s => encode_basestring s
  | JArr [] => py "[]"
  | JArr items => py "[" ++ join (py ",") (map (render None) items) ++ py "]"
  | JObj [] => py "{}"
  | JObj members =>
      py "{" ++ nl 1
      ++ join (py "," ++ nl 1)
           (map (fun kv => encode_basestring (fst kv) ++ colon
                           ++ render (option_map S mode) (snd kv)) members)
      ++ nl 0 ++ py "}"
  end.

Definition canonical (v : json) : pystr := render (Some 0) v.

(** Lexemes of [NUMBER_RE]. *)
Definition nat_lexeme (d : pystr) : bool :=
  match d with
  | [] => false
  | c :: r => if (c =? 48)%N then match r with [] => true | _ :: _ => false end
              else is_digit c && forallb is_digit r
  end.

Definition int_lexeme (i : pystr) : bool :=
  match i with
  | c :: r => if (c =? 45)%N then nat_lexeme r else nat_lexeme i
  | [] => false
  end.

Definition digits1 (d : pystr) : bool :=
  match d with [] => false | _ :: _ => forallb is_digit d end.

Definition frac_lexeme (f : pystr) : bool :=
  match f with
  | c :: d => (c =? 46)%N && digits1 d
  | [] => false
  end.

Definition exp_lexeme (e : pystr) : bool :=
  match e with
  | c :: r =>
      ((c =? 101) || (c =? 69))%N
      && match r with
         | x :: d => if ((x =? 45) || (x =? 43))%N then digits1 d else digits1 r
         | [] => false
         end
  | [] => false
  end.

(** The texts [json.loads] reads as a float: a number literal with a
    fraction or an exponent, or one of the three names. *)
Definition float_token (l : pystr) : Prop :=
  l = py "NaN" \/ l = py "Infinity" \/ l = py "-Infinity"
  \/ exists i f e,
       l = i ++ f ++ e /\ int_lexeme i = true
       /\ (f = [] \/ frac_lexeme f = true) /\ (e = [] \/ exp_lexeme e = true)
       /\ (f <> [] \/ e <> []).

(** A float prints as a float token and reads back as itself. *)
Definition float_ok (x : pyfloat) : Prop :=
  float_token (float_str x) /\ float_of_lit (float_str x) = x.

(** The law of the float library: the float read from a float token
    round-trips ([float.__repr__] prints the shortest text that reads
    back as the same float). *)
Definition float_laws : Prop :=
  forall l, float_token l -> float_ok (float_of_lit l).

(** The values that stand for Python values: the keys of every object
    are pairwise different, every float round-trips. *)
Fixpoint wf_json (v : json) : Prop :=
  match v with
  | JFloat x => float_ok x
  | JArr items => fold_right (fun x acc => wf_json x /\ acc) True items
  | JObj members =>
      NoDup (map fst members)
      /\ fold_right (fun kv acc => wf_json (snd kv) /\ acc) True members
  | _ => True
  end.

(** Fuel that [scan_once] needs for the text of a value. *)
Fixpoint weight (v : json) : nat :=
  match v with
  | JArr items => S (list_sum (map (fun x => S (weight x)) items))
  | JObj members => S (list_sum (map (fun kv => S (weight (snd kv))) members))
  | _ => 1
  end.

(** The text does not go on with a digit. *)
Definition nodigit_head (r : pystr) : Prop :=
  match r with [] => True | c :: _ => is_digit c = false end.

(** What may follow a value in a text: nothing, a comma, a closing
    bracket or brace, or white space. *)
Definition delim (rest : pystr) : Prop :=
  match rest with
  | [] => True
  | c :: _ => c = 44%N \/ c = 93%N \/ c = 125%N \/ is_ws c = true
  end.

(** The round trip of a value, as a property to carry through the
    induction. *)
Definition reads_back (v : json) : Prop :=
  forall mode fuel rest,
    weight v <= fuel -> delim rest ->
    scan_once fuel (render mode v ++ rest) = Some (v, rest).

(** The text of one member, after the key's opening quote. *)
Definition member_text (mode : option nat) (wc : pystr) (kv : pystr * json) : pystr :=
  encode_basestring (fst kv) ++ 58%N :: wc ++ render mode (snd kv).

Definition wf_dict (m : pydict json) : Prop :=
  NoDup (map fst m) /\ Forall (fun kv => wf_json (snd kv)) m.

(** *** Vocabulary of the placeholders *)

(** The text [json.dumps(.., indent=1, separators=(",", ": "))] writes at
    an indentation level. *)
Definition pretty (level : nat) (v : json) : pystr :=
  iterencode (Some [32%N]) (py ",") (py ": ") level v.

(** The number of lists that are not inside another list: one
    placeholder each. *)
Fixpoint n_lists (v : json) : nat :=
  match v with
  | JArr _ => 1
  | JObj members => list_sum (map (fun kv => n_lists (snd kv)) members)
  | _ => 0
  end.

Definition is_scalar (v : json) : Prop :=
  match v with JArr _ | JObj _ => False | _ => True end.

(** [holed v v' e]: [v'] is [v] with each such list replaced by a string,
    and [e] records against each string the one-line text of its list,
    in the order of the traversal. *)
Inductive holed : json -> json -> pydict pystr -> Prop :=
| holed_list (items : list json) (token : pystr) :
    holed (JArr items) (JStr token) [(token, list_to_single_line_json (JArr items))]
| holed_object (ms ms' : pydict json) (e : pydict pystr) :
    holed_members ms ms' e -> holed (JObj ms) (JObj ms') e
| holed_scalar (v : json) :
    is_scalar v -> holed v v []
with holed_members : pydict json -> pydict json -> pydict pystr -> Prop :=
| holed_nil : holed_members [] [] []
| holed_cons (k : pystr) (x x' : json) (e1 : pydict pystr)
    (ms ms' : pydict json) (e2 : pydict pystr) :
    holed x x' e1 -> holed_members ms ms' e2 ->
    holed_members ((k, x) :: ms) ((k, x') :: ms') (e1 ++ e2).

Scheme holed_mind := Minimality for holed Sort Prop
  with holed_members_mind := Minimality for holed_members Sort Prop.

(** The loop of [replace_lists_with_placeholders] over the items of an
    object. *)
Definition rlwp_items (json_text : pystr)
    : pydict json -> pydict pystr * list pystr
      -> option (pydict json * (pydict pystr * list pystr)) :=
  fix items (ms : pydict json) (st : pydict pystr * list pystr) :=
    match ms with
    | [] => Some ([], st)
    | (key, val) :: ms' =>
        match replace_lists_with_placeholders json_text val st with
        | None => None
        | Some (val', st1) =>
            match items ms' st1 with
            | None => None
            | Some (ms'', st2) => Some ((key, val') :: ms'', st2)
            end
        end
    end.

(** [t] occurs in [s]. *)
Definition occurs (t s : pystr) : Prop := exists pre post, s = pre ++ t ++ post.

(** The characters the encoder writes as they are, a quote and a
    backslash apart. *)
Definition plain_char (c : N) : bool :=
  ((32 <=? c) && negb (c =? 34) && negb (c =? 92))%N.

(** The text of one member in the pretty text, at the level of the
    members. *)
Definition pretty_member (level : nat) (kv : pystr * json) : pystr :=
  encode_basestring (fst kv) ++ 58%N :: [32%N] ++ pretty level (snd kv).

Combined Scheme holed_both from holed_mind, holed_members_mind.

(** The conditions on the tokens of a record of placeholders: no quote,
    only characters written as they are, pairwise different, none inside
    another. *)
Definition tokens_ok (e : pydict pystr) : Prop :=
  (forall t, In t (map fst e) -> forallb plain_char t = true)
  /\ NoDup (map fst e)
  /\ (forall t t', In t (map fst e) -> In t' (map fst e) -> occurs t t' -> t = t').

(** What [uuid.uuid4().hex] returns: 32 hexadecimal digits in lower case. *)
Definition is_hex_lower (c : N) : bool :=
  ((48 <=? c) && (c <=? 57) || (97 <=? c) && (c <=? 102))%N.

Definition is_uuid_hex (h : pystr) : bool :=
  (length h =? 32)%nat && forallb is_hex_lower h.

Fixpoint distinct (l : list pystr) : bool :=
  match l with
  | [] => true
  | h :: t => negb (existsb (str_eqb h) t) && distinct t
  end.

(** The draws of [uuid.uuid4().hex] are fresh for a document: they are
    uuid values, pairwise different, enough for the lists of the
    document, and the token of none occurs in the text read or in the
    canonical text of the value. *)
Definition fresh_draws (json_text : pystr) (v : json) (uuids : list pystr) : bool :=
  distinct uuids
  && forallb (fun h => is_uuid_hex h
                       && negb (contains (placeholder_token h) json_text)
                       && negb (contains (placeholder_token h) (canonical v))) uuids
  && (n_lists v <=? length uuids)%nat.





(** [entry.is_dir()] *)
Definition is_dir (e : entry) : bool :=
  match e with EDir _ _ _ => true | _ => false end.

(** The number of directories still to be listed from a stack. *)
Definition stack_size (k : list (entry * Z)) : nat :=
  list_sum (map (fun p => dir_count (fst p)) k).

(** The draws left are good for a state of the traversal: pairwise
    different, and the token of none is in the text or a key of the
    placeholders recorded so far. *)
Definition draws_good (json_text : pystr) (ph : pydict pystr) (uuids : list pystr) : Prop :=
  NoDup uuids
  /\ forall h, In h uuids ->
       contains (placeholder_token h) json_text = false
       /\ dict_has (placeholder_token h) ph = false.

(** The traversal of a value with good draws: it uses one draw per list,
    in order, and leaves the value with its lists replaced by tokens. *)
Definition traverses (json_text : pystr) (v : json) : Prop :=
  forall ph uuids,
    draws_good json_text ph uuids -> n_lists v <= length uuids ->
    exists v' e used rest,
      uuids = used ++ rest /\ length used = n_lists v
      /\ replace_lists_with_placeholders json_text v (ph, uuids) = Some (v', (ph ++ e, rest))
      /\ holed v v' e /\ map fst e = map placeholder_token used.


End Model.

Arguments Err {A} ex.

(** Re-association of the appends of a rendered member. *)
Ltac list_assoc :=
  unfold member_text, pretty_member; cbn [fst snd];
  repeat (rewrite <- app_assoc; cbn [app]); cbn [app]; reflexivity.


(** ** [llm_tools.py]: the [LlmTools] object *)

Section Objects.
Context {PL : PyLib}.

(** [str(f)] of a function object, whose text holds an address: left
    abstract. *)
Class PyRepr := {
  function_repr : callable -> pystr
}.

Context {PR : PyRepr}.

(** [str(x)] on the values a registry field can hold. *)
Definition py_str (v : pyval) : pystr :=
  match v with
  | PNone => py "None"
  | PInt z => int_repr z
  | PStr s => s
  | PCallable f => function_repr f
  end.

(** The attributes [__init__] sets, and [tools], which is missing until
    [scan_tools] has set it.  [max_depth], [prefix], [suffix], [prettify]
    and [validate] are kept together as the keyword arguments
    [scan_tools] passes on. *)
Record LlmTools := mk_llm_tools {
  self_verbose_settings : VerboseSettings;
  self_scan_args : scan_args;
  self_use_toon : bool;
  self_tools : option (pydict tool_entry)
}.

(** [self.tools = ...] *)
Definition set_self_tools (t : pydict tool_entry) (self : LlmTools) : LlmTools :=
  mk_llm_tools (self_verbose_settings self) (self_scan_args self) (self_use_toon self)
               (Some t).

(** [scan_tools(self)].  [base_dir] is what [self.base_dir] resolves to
    when the scan runs.  The method returns [None]; the object after the
    call is returned in its place. *)
Definition scan_tools (self : LlmTools) (base_dir : result entry) (w : World)
    : outcome LlmTools * World :=
  if negb (self_use_toon self)
  then
    match find_tools_json base_dir (self_verbose_settings self) (self_scan_args self) w with
    | (Returned t, w') => (Returned (set_self_tools t self), w')
    | (Raised e, w') => (Raised e, w')
    | (Unfinished, w') => (Unfinished, w')
    end
  else (Raised (mk_exc (py "NotImplementedError") (py "TOON format is not implemented yet")),
        w).

(** [LlmTools(base_dir, verbose_settings, max_depth=.., prefix=..,
    suffix=.., prettify=.., validate=.., use_toon=..)]: [verbose_settings]
    is [None] for an argument that is no [VerboseSettings] instance, and
    [VerboseSettings()] is used in its place. *)
Definition LlmTools_init (base_dir : result entry) (verbose_settings : option VerboseSettings)
    (a : scan_args) (use_toon : bool) (w : World) : outcome LlmTools * World :=
  let self :=
    mk_llm_tools
      (match verbose_settings with Some vs => vs | None => mk_settings NONE false end)
      a use_toon None in
  scan_tools self base_dir w.

(** [get_tool_definitions(self)] *)
Definition get_tool_definitions (self : LlmTools) : outcome (pydict pystr) :=
  match self_tools self with
  | None =>
      Raised (mk_exc (py "RuntimeError")
                (py "`self` has no attribute `tools`. "
                 ++ py "                    Create a `LlmTools` instance first, or run `scan_tools()`"))
  | Some tools =>
      Returned (map (fun item => (fst item, py_str (description (snd item)))) tools)
  end.

(** [self.run_tool(tool_call, tool_name=.., tool_args=..)]: the check of
    the attribute [tools], then the body embedded as [run_tool].  The
    attribute [verbose_settings] is a field of the record, so the check
    of its presence always passes. *)
Definition LlmTools_run_tool (self : LlmTools) (tool_call tool_name tool_args : json)
    : outcome json * list (pystr * pydict json) :=
  match self_tools self with
  | None =>
      (Raised (mk_exc (py "RuntimeError")
                 (py "`self` has no attribute `tools`. "
                  ++ py "Create a `LlmTools` instance first, or run `scan_tools()`")), [])
  | Some tools => run_tool tools (self_verbose_settings self) tool_call tool_name tool_args
  end.

(** *** Vocabulary of the dispatch *)

(** The fallback path of [run_tool], on [tool_name] and [tool_args]. *)
Definition fallback_call (no_throw : bool) (tool_name tool_args : json) : resolution :=
  match tool_name with
  | JNull =>
      Exit (return_or_raise no_throw JNull
              (mk_exc (py "ValueError")
                 (py "Unknown tool-call format or missing `tool_call`; "
                  ++ py "fallback `tool_name` must be provided")))
  | JStr name =>
      if strip_nonempty name then
        match tool_args with
        | JNull => Resolved name []
        | JObj args => Resolved name args
        | _ =>
            Exit (return_or_raise no_throw JNull
                    (mk_exc (py "TypeError") (py "`tool_args` must be a dict or None")))
        end
      else
        Exit (return_or_raise no_throw JNull
                (mk_exc (py "TypeError") (py "`tool_name` must be a non-empty str")))
  | _ =>
      Exit (return_or_raise no_throw JNull
              (mk_exc (py "TypeError") (py "`tool_name` must be a non-empty str")))
  end.

End Objects.

(** ** Vocabulary of further properties of the scan *)

Section ScanVocabulary.
Context {PL : PyLib}.

(** Whether [print_verbose] prints a message of level [required] at the
    verbosity [current]. *)
Definition shown (current required : VerboseLevel) : bool :=
  match current with
  | NONE => false
  | _ => includes current required
  end.

(** The messages of a log that are printed at a verbosity. *)
Definition printed (current : VerboseLevel) (log : list (VerboseLevel * diag)) : list diag :=
  map snd (filter (fun p => shown current (fst p)) log).

(** The channel [c'] is the channel [c] after more messages were
    issued, of which those shown at the verbosity [l] were printed. *)
Definition extends (l : VerboseLevel) (c c' : channel) : Prop :=
  exists new, issued c' = issued c ++ new /\ written c' = written c ++ printed l new.

(** The settings with the verbosity [NONE], and a world, a state, with
    what was printed forgotten. *)
Definition quiet (vs : VerboseSettings) : VerboseSettings :=
  mk_settings NONE (no_throw vs).

Definition mute (w : World) : World :=
  mk_world (mk_channel (issued (chan w)) []) (executed w) (draws w).

Definition mute_st (st : scan_state) : scan_state := set_world (mute (world st)) st.

Definition flow_map (g : scan_state -> scan_state) (r : flow) : flow :=
  match r with
  | Next st => Next (g st)
  | Throw ex st => Throw ex (g st)
  | Stall st => Stall (g st)
  end.

(** What a scan can reach of a directory that is listed with [k] more
    levels allowed below it: the listing, where a subdirectory that is a
    symbolic link, or any subdirectory when [k] is 0, has lost what lies
    below it. *)
Fixpoint trim (k : nat) (e : entry) {struct e} : entry :=
  match e with
  | EDir name sl (Ok entries) =>
      EDir name sl
        (Ok (map (fun c =>
                    match c with
                    | EDir _ true _ => prune c
                    | EDir _ false _ =>
                        match k with
                        | O => prune c
                        | S k' => trim k' c
                        end
                    | _ => c
                    end) entries))
  | _ => e
  end.

(** An entry of a listing, as [trim k] leaves it. *)
Definition trim_child (k : nat) (c : entry) : entry :=
  match c with
  | EDir _ true _ => prune c
  | EDir _ false _ =>
      match k with
      | O => prune c
      | S k' => trim k' c
      end
  | _ => c
  end.

Definition trim_item (maxd : Z) (item : entry * Z) : entry * Z :=
  (trim (Z.to_nat (maxd - snd item)) (fst item), snd item).

Definition trim_st (maxd : Z) (st : scan_state) : scan_state :=
  set_stack (map (trim_item maxd) (stack st)) st.

(** The file is somewhere in the tree under the entry. *)
Fixpoint file_in (f : pyfile) (e : entry) {struct e} : Prop :=
  match e with
  | EFile g => g = f
  | EDir _ _ (Ok entries) => fold_right (fun c acc => file_in f c \/ acc) False entries
  | _ => False
  end.

(** What the counters of a scan satisfy at any time. *)
Definition counters_ok (c : counters) (reg : pydict tool_entry) : Prop :=
  accepted c + skipped_too_big c + skipped_import_error c + skipped_missing_fields c
  <= name_matched c
  /\ name_matched c <= files_seen c
  /\ skipped_invalid_description c <= skipped_missing_fields c
  /\ length reg <= accepted c.

(** The prefix and the suffix of the scan: [None] stands for the empty
    string. *)
Definition prefix_of (a : scan_args) : pystr :=
  match prefix a with Some p => p | None => [] end.

Definition suffix_of (a : scan_args) : pystr :=
  match suffix a with Some p => p | None => [] end.

(** Where an entry of the registry comes from: a candidate file within
    the size ceiling that was loaded, whose stem is the key between the
    prefix and the suffix, whose [tool_run] is the runner and whose
    [TOOL_DEFINITION] is a string, kept as the description unless
    [prettify] is on, and JSON when it was to be checked. *)
Definition comes_from (a : scan_args) (kv : pystr * tool_entry) (f : pyfile) : Prop :=
  is_candidate (prefix_of a) (suffix_of a) f = true
  /\ within_ceiling f
  /\ f_stem f = prefix_of a ++ fst kv ++ suffix_of a
  /\ exists m d,
       f_module f = Ok m
       /\ runner (snd kv) = getattr (tool_run m) PNone
       /\ getattr (TOOL_DEFINITION m) PNone = PStr d
       /\ (prettify a = false -> description (snd kv) = PStr d)
       /\ (validate a || prettify a = true -> json_loads d <> None).

(** A file the scan accepts when it meets it and the descriptor is not
    read as JSON ([validate] and [prettify] off): a candidate within the
    size ceiling whose import succeeds, with a callable [tool_run] and a
    string [TOOL_DEFINITION]. *)
Definition loadable (a : scan_args) (f : pyfile) : Prop :=
  is_candidate (prefix_of a) (suffix_of a) f = true
  /\ within_ceiling f
  /\ exists m d,
       f_module f = Ok m
       /\ is_callable (getattr (tool_run m) PNone) = true
       /\ getattr (TOOL_DEFINITION m) PNone = PStr d.

(** The state of a scan that started with the files [before] executed:
    the files run since, and every entry of the registry with the file
    among them it comes from. *)
Definition sourced (a : scan_args) (before : list pyfile) (st : scan_state) : Prop :=
  exists new,
    executed (world st) = before ++ new
    /\ Forall (fun kv => exists f, In f new /\ comes_from a kv f) (tools st).

(** The file was run and its name is a key of the registry. *)
Definition registered (a : scan_args) (f : pyfile) (st : scan_state) : Prop :=
  dict_has (module_name_of (prefix_of a) (suffix_of a) (f_stem f)) (tools st) = true
  /\ In f (executed (world st)).

End ScanVocabulary.

(** ** Sample data

    A registry, a directory tree and a document, over [literal_floats],
    on which the statements of Part II are run. *)

Section Samples.
Existing Instance literal_floats.

Definition strict (lvl : VerboseLevel) : VerboseSettings := mk_settings lvl false.
Definition lenient (lvl : VerboseLevel) : VerboseSettings := mk_settings lvl true.

(** Two entry points: one returns its keyword arguments, one raises. *)
Definition echo : callable := fun kwargs => ToolReturns (JObj kwargs).
Definition failing : callable :=
  fun _ => ToolRaises (mk_exc (py "KeyError") (py "missing key")).

Definition sample_registry : pydict tool_entry :=
  [(py "echo", mk_entry (PStr (jtext "{'name':'echo'}")) (PCallable echo));
   (py "boom", mk_entry (PStr (jtext "{'name':'boom'}")) (PCallable failing))].

(** An entry point that calls [sys.exit(2)], and a registry that holds it. *)
Definition quitting : callable :=
  fun _ => ToolRaises (mk_exc (py "SystemExit") (py "2")).

Definition exit_registry : pydict tool_entry :=
  [(py "quit", mk_entry (PStr (jtext "{'name':'quit'}")) (PCallable quitting))].

(** The descriptor of the sample tool: its text and the value it reads as. *)
Definition calc_text : pystr :=
  jtext "{'name': 'calc', 'parameters': {'type': 'object', 'required': ['a', 'b'], 'scale': 2.5e0}, 'tags': [[], {'k': [1, -2]}]}".

Definition calc_value : json :=
  JObj [(py "name", JStr (py "calc"));
        (py "parameters",
         JObj [(py "type", JStr (py "object"));
               (py "required", JArr [JStr (py "a"); JStr (py "b")]);
               (py "scale", JFloat (py "2.5e0"))]);
        (py "tags",
         JArr [JArr []; JObj [(py "k", JArr [JInt 1; JInt (-2)])]])].

(** Values of [uuid.uuid4().hex]. *)
Definition sample_draws : list pystr :=
  [py "9f1b6c0e5a7d4e3f8b2a1c0d9e8f7a6b";
   py "0a1b2c3d4e5f60718293a4b5c6d7e8f9";
   py "c4ca4238a0b923820dcc509a6f75849b";
   py "6512bd43d9caa6e02c990b0a82652dca"].

Definition sample_world : World := mk_world (mk_channel [] []) [] sample_draws.

(** The files of the sample tree. *)
Definition calc_file : pyfile :=
  mk_file (py "calc_tool") (py ".py") (Ok 310%N)
          (Ok (mk_module (Some (PCallable echo)) (Some (PStr calc_text)))).

Definition calc_again : pyfile :=
  mk_file (py "calc_tool") (py ".py") (Ok 96%N)
          (Ok (mk_module (Some (PCallable failing))
                         (Some (PStr (jtext "{'name': 'calc', 'version': 2}"))))).

Definition broken_file : pyfile :=
  mk_file (py "broken_tool") (py ".py") (Ok 64%N)
          (Err (mk_exc (py "SyntaxError") (py "invalid syntax"))).

(** A file whose top-level code calls [sys.exit(2)]. *)
Definition quitting_file : pyfile :=
  mk_file (py "quit_tool") (py ".py") (Ok 20%N)
          (Err (mk_exc (py "SystemExit") (py "2"))).


Definition huge_file : pyfile :=
  mk_file (py "huge_tool") (py ".py") (Ok 2097152%N)
          (Ok (mk_module (Some (PCallable echo)) (Some (PStr (jtext "{}"))))).

Definition bare_file : pyfile :=
  mk_file (py "_tool") (py ".py") (Ok 12%N)
          (Ok (mk_module (Some (PCallable echo)) (Some (PStr (jtext "{}"))))).

Definition sample_dir : entry :=
  EDir (py "tools") false
       (Ok [EFile calc_file; EFile huge_file; EFile bare_file; EOther (py "fifo");
            EDir (py "more") false (Ok [EFile calc_again]);
            EDir (py "link") true (Ok [EFile broken_file])]).

(** A directory in which an import fails before a good file is reached. *)
Definition faulty_dir : entry :=
  EDir (py "tools") false (Ok [EFile broken_file; EFile calc_file]).

Definition sample_args (depth : Z) (prettify : bool) : scan_args :=
  mk_args depth None (Some (py "_tool")) prettify true.

(** The scanner's variables after [calc_file] was accepted. *)
Definition after_calc : scan_state :=
  mk_state [(py "echo", mk_entry (PStr (jtext "{'name':'echo'}")) (PCallable echo));
            (py "calc", mk_entry (PStr calc_text) (PCallable echo))]
           [] new_counters sample_world.

(** What the scan of the base directory alone registers, with [prettify]. *)
Definition scanned_registry : pydict tool_entry :=
  [(py "calc", mk_entry (PStr (canonical calc_value)) (PCallable echo))].

(** A document whose text hides, behind an escape, the token of the
    draw that follows, and the world with that draw. *)
Definition masked_text : pystr :=
  jtext "{'k': '\u005f_JSON_LIST_PLACEHOLDER_00000000000000000000000000000000__', 'l': [1]}".

Definition masked_world : World :=
  mk_world (mk_channel [] []) [] [py "00000000000000000000000000000000"].





(** A representation of function objects, and the object the
    construction over the sample tree gives. *)
Definition sample_repr : PyRepr := {| function_repr := fun _ => py "<function tool_run>" |}.

Definition sample_self : LlmTools :=
  mk_llm_tools (strict LOW) (sample_args 0 true) false (Some scanned_registry).

(** A world in which no value of [uuid.uuid4().hex] is left to draw. *)
Definition drained_world : World := mk_world (mk_channel [] []) [] [].

(** A payload with every key the resolution reads. *)
Definition full_payload : pydict json :=
  [(py "name", JStr (py "echo"));
   (py "function_name", JStr (py "boom"));
   (py "parameters", JObj [(py "a", JInt 1)]);
   (py "arguments", JObj [(py "b", JInt 2)])].

End Samples.

(* ================================================================== *)
(** * Part II: properties                                              *)
(* ================================================================== *)

(** ** Strings and dictionaries *)

Lemma str_eqb_spec (a b : pystr) : reflect (a = b) (str_eqb a b).
Proof.
  revert b; induction a as [|x a IH]; intros [|y b]; simpl; try (constructor; congruence).
  destruct (N.eqb_spec x y) as [->|Hxy]; simpl.
  - destruct (IH b) as [->|Hab]; constructor; congruence.
  - constructor; congruence.
Qed.

Lemma str_eqb_refl (a : pystr) : str_eqb a a = true.
Proof. destruct (str_eqb_spec a a); congruence. Qed.

Lemma starts_with_app (p s : pystr) : starts_with p (p ++ s) = true.
Proof. induction p as [|c p IH]; simpl; [reflexivity|]. now rewrite N.eqb_refl. Qed.

Lemma starts_with_inv (p s : pystr) :
  starts_with p s = true -> exists r, s = p ++ r.
Proof.
  revert s; induction p as [|c p IH]; intros s H; simpl in *.
  - now exists s.
  - destruct s as [|d s]; [discriminate|].
    apply andb_true_iff in H as [Hc Hp]. apply N.eqb_eq in Hc as ->.
    destruct (IH _ Hp) as [r ->]. now exists r.
Qed.

Lemma dict_get_set_same {V} (k : pystr) (v : V) (d : pydict V) :
  dict_get k (dict_set k v d) = Some v.
Proof.
  induction d as [|[k' v'] d IH]; simpl.
  - now rewrite str_eqb_refl.
  - destruct (str_eqb k k') eqn:E; simpl; rewrite E; auto.
Qed.



Lemma dict_set_Forall {V} (P : pystr * V -> Prop) (k : pystr) (v : V) (d : pydict V) :
  (forall k' v', P (k', v') -> P (k', v)) -> P (k, v) ->
  Forall P d -> Forall P (dict_set k v d).
Proof.
  intros Hrepl Hnew. induction 1 as [|[k' v'] d Hx Hd IH]; simpl.
  - constructor; auto.
  - destruct (str_eqb k k'); constructor; eauto.
Qed.

Section Facts.
Context {PL : PyLib}.

(** ** [run_tool] *)

(** C3.  The three canonical tool-call payloads: the object text resolves
    to the name x with the arguments a = 1; the text of a one-element list
    is unwrapped and resolves to x with no arguments; the text that is no
    JSON, with no fallback name, leaves [run_tool] with the ValueError of
    the unknown format when errors are raised, and with [None] when they
    are suppressed. *)
Theorem resolve_canonical_payloads :
  (forall nt, resolve_call nt (JStr (jtext "{'name':'x','arguments':{'a':1}}")) JNull JNull
              = Resolved (py "x") [(py "a", JInt 1)]) /\
  (forall nt, resolve_call nt (JStr (jtext "[{'name':'x','parameters':{}}]")) JNull JNull
              = Resolved (py "x") []) /\
  (forall tools lvl,
     run_tool tools (mk_settings lvl false) (JStr (py "not json")) JNull JNull
     = (Raised (mk_exc (py "ValueError")
                  (py "Unknown tool-call format or missing `tool_call`; fallback `tool_name` must be provided")),
        [])) /\
  (forall tools lvl,
     run_tool tools (mk_settings lvl true) (JStr (py "not json")) JNull JNull
     = (Returned JNull, [])).
Proof.
  repeat split; intros; try (destruct nt); vm_compute; reflexivity.
Qed.

(** C4.  A call that resolves to a name which is no key of the registry:
    [run_tool] raises the ValueError of the unregistered tool when errors
    are raised, returns [None] when they are suppressed, and calls no
    entry point either way. *)
Theorem run_tool_unregistered :
  forall tools vs tool_call tool_name tool_args name args,
    resolve_call (no_throw vs) tool_call tool_name tool_args = Resolved name args ->
    dict_has name tools = false ->
    run_tool tools vs tool_call tool_name tool_args
    = (if no_throw vs
       then Returned JNull
       else Raised (mk_exc (py "ValueError") (py "`" ++ name ++ py "` is not a registered tool")),
       []).
Proof.
  intros tools vs tc tn ta name args Hres Hhas.
  unfold run_tool. rewrite Hres, Hhas. simpl.
  unfold return_or_raise. destruct (no_throw vs); reflexivity.
Qed.

(** C5.  A registered tool whose entry point raises.  When the exception
    is an instance of [Exception], [run_tool] raises a RuntimeError whose
    message carries the name of the tool, the type name and the message
    of the original error when errors are raised, and returns [None] when
    they are suppressed.  When it is not (SystemExit, KeyboardInterrupt),
    the exception leaves [run_tool] as it is under both policies. *)
Theorem run_tool_reclassifies_errors :
  forall tools vs tool_call tool_name tool_args name args meta f ex,
    resolve_call (no_throw vs) tool_call tool_name tool_args = Resolved name args ->
    dict_get name tools = Some meta ->
    runner meta = PCallable f ->
    f args = ToolRaises ex ->
    run_tool tools vs tool_call tool_name tool_args
    = (if is_exception ex
       then
         if no_throw vs
         then Returned JNull
         else Raised (mk_exc (py "RuntimeError")
                        (py "Tool `" ++ name ++ py "` execution failed. Exception ("
                         ++ exc_type ex ++ py "): " ++ exc_text ex))
       else Raised ex,
       [(name, args)]).
Proof.
  intros tools vs tc tn ta name args meta f ex Hres Hget Hrun Hf.
  unfold run_tool, dict_has. rewrite Hres, Hget. simpl. rewrite Hrun, Hf. reflexivity.
Qed.

(** ** The scanner: what a step leaves unchanged *)

Lemma prettify_json_executed (text : pystr) (vs : VerboseSettings) (w : World) :
  executed (snd (prettify_json text vs w)) = executed w.
Proof.
  unfold prettify_json.
  destruct (is_valid_json text (no_throw vs)) as [[[r v] m]| |]; try reflexivity.
  destruct r.
  - destruct (replace_lists_with_placeholders text v ([], draws w)) as [[t [ph u]]|];
      reflexivity.
  - destruct m; reflexivity.
Qed.

Lemma extract_fields_executed (p v : bool) (vs : VerboseSettings) (m : pymodule) (w : World) :
  executed (snd (extract_fields p v vs m w)) = executed w.
Proof.
  unfold extract_fields.
  destruct (is_callable (getattr (tool_run m) PNone)); [|reflexivity]. simpl.
  destruct (getattr (TOOL_DEFINITION m) PNone) as [| |d|]; try reflexivity.
  destruct (v || p).
  - destruct (is_valid_json d (no_throw vs)) as [[[r x] msg]| |]; try reflexivity.
    destruct r; [|reflexivity].
    destruct p; [|reflexivity].
    pose proof (prettify_json_executed d vs w) as H.
    destruct (prettify_json d vs w) as [[t|e|] w']; exact H.
  - destruct p; [|reflexivity].
    pose proof (prettify_json_executed d vs w) as H.
    destruct (prettify_json d vs w) as [[t|e|] w']; exact H.
Qed.

Lemma extract_fields_callable (p v : bool) (vs : VerboseSettings) (m : pymodule)
    (w w' : World) (d : pystr) (r : pyval) :
  extract_fields p v vs m w = (Returned (d, r), w') -> is_callable r = true.
Proof.
  unfold extract_fields.
  destruct (is_callable (getattr (tool_run m) PNone)) eqn:Hc; simpl; [|discriminate].
  destruct (getattr (TOOL_DEFINITION m) PNone) as [| |t|]; try discriminate.
  destruct (match (if v || p then _ else _) with Returned _ => _ | _ => _ end) eqn:E.
  revert E.
  destruct (if v || p then _ else _); try (intros E; inversion E; discriminate).
  destruct p.
  - destruct (prettify_json t vs w) as [[x|e|] w1]; intros E H; rewrite H in E;
      inversion E; subst; assumption.
  - intros E H; rewrite H in E; inversion E; subst; assumption.
Qed.

(** ** Invariants of the scan *)

Section ScanInvariant.
Variables (a : scan_args) (pre suf : pystr) (vs : VerboseSettings).
Variable P : scan_state -> Prop.
Hypothesis P_stack : forall st k, P st -> P (set_stack k st).
Hypothesis P_bump : forall st f, P st -> P (bump f st).
Hypothesis P_log : forall st lvl m, P st -> P (log lvl m vs st).
Hypothesis P_file : forall f st, P st -> P (flow_state (process_file a pre suf vs f st)).

Lemma process_entry_inv (depth : Z) (e : entry) (st : scan_state) :
  P st -> P (flow_state (process_entry a pre suf vs depth e st)).
Proof.
  intros H. destruct e as [name sl l|f|name]; simpl; auto.
  destruct sl; simpl; auto. destruct (max_depth a <=? depth)%Z; simpl; auto.
Qed.

Lemma process_entries_inv (depth : Z) (entries : list entry) (st : scan_state) :
  P st -> P (flow_state (process_entries a pre suf vs depth entries st)).
Proof.
  revert st; induction entries as [|e rest IH]; intros st H; simpl; auto.
  pose proof (process_entry_inv depth e H) as He.
  destruct (process_entry a pre suf vs depth e st); simpl in *; auto.
Qed.

Lemma scan_loop_inv (fuel : nat) (st : scan_state) :
  P st -> P (flow_state (scan_loop fuel a pre suf vs st)).
Proof.
  revert st; induction fuel as [|fuel IH]; intros st H; simpl.
  - destruct (stack st) as [|[d depth] below]; simpl; auto.
  - destruct (stack st) as [|[d depth] below]; simpl; auto.
    set (st1 := log HIGH _ vs _).
    assert (H1 : P st1) by (subst st1; auto).
    destruct (iterdir d) as [entries|ex].
    + pose proof (process_entries_inv depth entries H1) as He.
      destruct (process_entries a pre suf vs depth entries st1); simpl in *; auto.
    + destruct (no_throw vs); simpl; auto.
Qed.

End ScanInvariant.

(** ** The size ceiling (C9) *)

Lemma process_file_oversize (a : scan_args) (pre suf : pystr) (vs : VerboseSettings)
    (f : pyfile) (st : scan_state) (size : N) :
  f_size f = Ok size -> (MAX_TOOL_FILE_SIZE_BYTES < size)%N ->
  exists st', process_file a pre suf vs f st = Next st'
              /\ executed (world st') = executed (world st)
              /\ tools st' = tools st /\ stack st' = stack st.
Proof.
  intros Hsize Hbig. unfold process_file. rewrite Hsize.
  apply N.ltb_lt in Hbig. rewrite Hbig.
  destruct (negb (str_eqb (f_suffix f) (py ".py"))); [eexists; split; [reflexivity|auto]|].
  destruct (negb (starts_with pre (f_stem f) && ends_with suf (f_stem f)));
    [eexists; split; [reflexivity|auto]|].
  destruct (length (f_stem f) <=? length pre + length suf)%nat;
    eexists; (split; [reflexivity|auto]).
Qed.

Lemma process_file_executed (a : scan_args) (pre suf : pystr) (vs : VerboseSettings)
    (f : pyfile) (st : scan_state) :
  let st' := flow_state (process_file a pre suf vs f st) in
  executed (world st') = executed (world st)
  \/ (executed (world st') = executed (world st) ++ [f] /\ within_ceiling f).
Proof.
  unfold process_file.
  destruct (negb (str_eqb (f_suffix f) (py ".py"))); [left; reflexivity|].
  destruct (negb (starts_with pre (f_stem f) && ends_with suf (f_stem f)));
    [left; reflexivity|].
  destruct (length (f_stem f) <=? length pre + length suf)%nat; [left; reflexivity|].
  destruct (f_size f) as [size|ex] eqn:Hsize.
  2:{ destruct (no_throw vs); left; reflexivity. }
  destruct (MAX_TOOL_FILE_SIZE_BYTES <? size)%N eqn:Hbig; [left; reflexivity|].
  right. apply N.ltb_ge in Hbig.
  assert (Hw : within_ceiling f) by (exists size; auto).
  destruct (f_module f) as [m|ex].
  2:{ destruct (is_exception ex); [destruct (no_throw vs)|]; split; auto. }
  match goal with |- context [extract_fields ?p ?v vs m ?w] =>
    pose proof (extract_fields_executed p v vs m w) as E;
    destruct (extract_fields p v vs m w) as [[[d r]|ex|] w'] end; simpl in E.
  - destruct (dict_has _ _); simpl; split; auto.
  - destruct (_ && _); destruct (no_throw vs); simpl; split; auto.
  - simpl; split; auto.
Qed.

(** C9.  A candidate above the ceiling of 1 MiB is not loaded, whatever
    the propagation policy: the step on such a file goes on to the next
    entry with the executed files, the registry and the stack as they
    were; and in the world a scan ends in (returned, raised or cut
    short), every file whose code was run during the scan has a known
    size within the ceiling. *)
Theorem oversize_never_loaded :
  (forall a pre suf vs f st size,
     f_size f = Ok size -> (MAX_TOOL_FILE_SIZE_BYTES < size)%N ->
     exists st', process_file a pre suf vs f st = Next st'
                 /\ executed (world st') = executed (world st)
                 /\ tools st' = tools st) /\
  (forall base_dir vs a w,
     Forall (fun f => In f (executed w) \/ within_ceiling f)
            (executed (snd (find_tools_json base_dir vs a w)))).
Proof.
  split.
  - intros a pre suf vs f st size Hs Hb.
    destruct (process_file_oversize a pre suf vs f st Hs Hb) as (st' & H1 & H2 & H3 & _).
    eauto.
  - intros base_dir vs a w.
    set (Q := fun f => In f (executed w) \/ within_ceiling f).
    assert (Hw : Forall Q (executed w)) by (apply Forall_forall; intros f Hf; left; exact Hf).
    unfold find_tools_json.
    destruct (max_depth a <? 0)%Z; [exact Hw|].
    destruct base_dir as [base|ex]; [|exact Hw].
    destruct base as [name sl l|f|name]; try exact Hw.
    match goal with |- context [scan_loop ?n ?a' ?p ?s vs ?st0] =>
      pose proof (@scan_loop_inv a' p s vs
                    (fun st => Forall Q (executed (world st)))) as Hinv;
      specialize (fun H1 H2 H3 H4 => Hinv H1 H2 H3 H4 n st0) end.
    lapply Hinv; [clear Hinv; intros Hinv|auto].
    lapply Hinv; [clear Hinv; intros Hinv|auto].
    lapply Hinv; [clear Hinv; intros Hinv|auto].
    lapply Hinv; [clear Hinv; intros Hinv|].
    + specialize (Hinv Hw).
      match goal with |- context [scan_loop ?n ?a' ?p ?s vs ?st0] =>
        destruct (scan_loop n a' p s vs st0) end; exact Hinv.
    + intros f st Hst.
      match goal with |- context [process_file ?a' ?p ?s vs f st] =>
        destruct (process_file_executed a' p s vs f st) as [E|[E Hc]] end;
        rewrite E; auto.
      apply Forall_app; split; auto. constructor; [right; exact Hc|constructor].
Qed.

(** ** The registry invariant (C10) *)

Lemma module_name_length (pre suf stem : pystr) :
  length (module_name_of pre suf stem) = length stem - length pre - length suf.
Proof.
  unfold module_name_of. destruct suf as [|c suf].
  - rewrite length_skipn. simpl. lia.
  - rewrite length_firstn, length_skipn. lia.
Qed.

Lemma process_file_registry (a : scan_args) (pre suf : pystr) (vs : VerboseSettings)
    (f : pyfile) (st : scan_state) :
  registry_ok (tools st) ->
  registry_ok (tools (flow_state (process_file a pre suf vs f st))).
Proof.
  intros Hok. unfold process_file.
  destruct (negb (str_eqb (f_suffix f) (py ".py"))); [exact Hok|].
  destruct (negb (starts_with pre (f_stem f) && ends_with suf (f_stem f))); [exact Hok|].
  destruct (length (f_stem f) <=? length pre + length suf)%nat eqn:Hlen; [exact Hok|].
  apply Nat.leb_gt in Hlen.
  destruct (f_size f) as [size|ex].
  2:{ destruct (no_throw vs); exact Hok. }
  destruct (MAX_TOOL_FILE_SIZE_BYTES <? size)%N; [exact Hok|].
  destruct (f_module f) as [m|ex].
  2:{ destruct (is_exception ex); [destruct (no_throw vs)|]; exact Hok. }
  match goal with |- context [extract_fields ?p ?v vs m ?w] =>
    destruct (extract_fields p v vs m w) as [[[d r]|ex|] w'] eqn:E end.
  - apply extract_fields_callable in E.
    assert (Hset : registry_ok
              (dict_set (module_name_of pre suf (f_stem f)) (mk_entry (PStr d) r) (tools st))).
    { apply dict_set_Forall; auto.
      - intros k' v' [Hk _]. simpl. auto.
      - simpl. repeat split; auto.
        intros Hnil. pose proof (module_name_length pre suf (f_stem f)) as Hl.
        rewrite Hnil in Hl. simpl in Hl. lia. }
    destruct (dict_has _ _); exact Hset.
  - destruct (_ && _); destruct (no_throw vs); exact Hok.
  - exact Hok.
Qed.

(** C10.  The registry a scan returns satisfies the invariant: every key
    is a non-empty string, every entry holds a string as description and
    a callable as runner. *)
Theorem returned_registry_ok :
  forall base_dir vs a w reg,
    fst (find_tools_json base_dir vs a w) = Returned reg -> registry_ok reg.
Proof.
  intros base_dir vs a w reg. unfold find_tools_json.
  assert (Hnil : forall nt e, return_or_raise nt ([] : pydict tool_entry) e = Returned reg ->
                              registry_ok reg).
  { intros nt e. unfold return_or_raise. destruct nt; [|discriminate].
    intros H; inversion H. constructor. }
  destruct (max_depth a <? 0)%Z; [apply Hnil|].
  destruct base_dir as [base|ex]; [|apply Hnil].
  destruct base as [name sl l|f|name]; try apply Hnil.
  match goal with |- context [scan_loop ?n ?a' ?p ?s vs ?st0] =>
    pose proof (@scan_loop_inv a' p s vs (fun st => registry_ok (tools st))) as Hinv;
    specialize (fun H1 H2 H3 H4 => Hinv H1 H2 H3 H4 n st0);
    destruct (scan_loop n a' p s vs st0) as [st'|ex st'|st'] end;
    simpl; try discriminate.
  intros H; inversion H; subst reg. apply Hinv; auto.
  - intros f st. apply process_file_registry.
  - constructor.
Qed.

(** ** The name filter (C7) *)

(** C7.  A file whose stem starts with the prefix and ends with the
    suffix, with nothing left between them, is rejected: the step goes on
    to the next entry, the file is not counted as matched, not loaded,
    and the registry is as it was. *)
Theorem empty_middle_rejected :
  forall a pre suf vs f st,
    starts_with pre (f_stem f) = true ->
    ends_with suf (f_stem f) = true ->
    module_name_of pre suf (f_stem f) = [] ->
    exists st',
      process_file a pre suf vs f st = Next st'
      /\ tools st' = tools st
      /\ executed (world st') = executed (world st)
      /\ name_matched (count st') = name_matched (count st).
Proof.
  intros a pre suf vs f st Hpre Hsuf Hmid.
  pose proof (module_name_length pre suf (f_stem f)) as Hl.
  rewrite Hmid in Hl. simpl in Hl.
  unfold process_file. rewrite Hpre, Hsuf. simpl.
  destruct (negb (str_eqb (f_suffix f) (py ".py"))).
  - eexists; split; [reflexivity|auto].
  - assert (Hle : (length (f_stem f) <=? length pre + length suf)%nat = true)
      by (apply Nat.leb_le; lia).
    rewrite Hle. eexists; split; [reflexivity|auto].
Qed.

(** ** Name collisions (C8) *)


(** ** The depth bound (C6) *)

Lemma process_file_stack (a : scan_args) (pre suf : pystr) (vs : VerboseSettings)
    (f : pyfile) (st : scan_state) :
  stack (flow_state (process_file a pre suf vs f st)) = stack st.
Proof.
  unfold process_file.
  destruct (negb (str_eqb (f_suffix f) (py ".py"))); [reflexivity|].
  destruct (negb (starts_with pre (f_stem f) && ends_with suf (f_stem f))); [reflexivity|].
  destruct (length (f_stem f) <=? length pre + length suf)%nat; [reflexivity|].
  destruct (f_size f) as [size|ex]; [|destruct (no_throw vs); reflexivity].
  destruct (MAX_TOOL_FILE_SIZE_BYTES <? size)%N; [reflexivity|].
  destruct (f_module f) as [m|ex]; [|destruct (is_exception ex); [destruct (no_throw vs)|]; reflexivity].
  match goal with |- context [extract_fields ?p ?v vs m ?w] =>
    destruct (extract_fields p v vs m w) as [[[d r]|ex|] w'] end.
  - destruct (dict_has _ _); reflexivity.
  - destruct (_ && _); destruct (no_throw vs); reflexivity.
  - reflexivity.
Qed.

(** A directory is pushed exactly when it is no symbolic link and the
    depth of the directory being listed is below [max_depth]. *)
Lemma process_entry_push (a : scan_args) (pre suf : pystr) (vs : VerboseSettings)
    (depth : Z) (name : pystr) (sl : bool) (l : result (list entry)) (st : scan_state) :
  stack (flow_state (process_entry a pre suf vs depth (EDir name sl l) st))
  = if negb sl && (depth <? max_depth a)%Z
    then (EDir name sl l, (depth + 1)%Z) :: stack st
    else stack st.
Proof.
  simpl. destruct sl; simpl; [reflexivity|].
  rewrite Z.ltb_antisym. destruct (max_depth a <=? depth)%Z; reflexivity.
Qed.

Lemma process_entry_prune (a : scan_args) (pre suf : pystr) (vs : VerboseSettings)
    (depth : Z) (e : entry) (st : scan_state) :
  (max_depth a <= depth)%Z ->
  process_entry a pre suf vs depth (prune e) st = process_entry a pre suf vs depth e st
  /\ stack (flow_state (process_entry a pre suf vs depth e st)) = stack st.
Proof.
  intros Hd. destruct e as [name sl l|f|name]; simpl.
  - apply Z.leb_le in Hd. rewrite Hd. destruct sl; auto.
  - split; [reflexivity|apply process_file_stack].
  - auto.
Qed.

Lemma process_entries_prune (a : scan_args) (pre suf : pystr) (vs : VerboseSettings)
    (depth : Z) (entries : list entry) (st : scan_state) :
  (max_depth a <= depth)%Z ->
  process_entries a pre suf vs depth (map prune entries) st
  = process_entries a pre suf vs depth entries st
  /\ stack (flow_state (process_entries a pre suf vs depth entries st)) = stack st.
Proof.
  intros Hd. revert st. induction entries as [|e rest IH]; intros st; simpl; [auto|].
  destruct (process_entry_prune a pre suf vs e st Hd) as [-> Hs].
  destruct (process_entry a pre suf vs depth e st) as [st'|ex st'|st']; simpl in *; auto.
  destruct (IH st') as [-> Hs']. split; [reflexivity|congruence].
Qed.

Lemma process_entries_executed (a : scan_args) (pre suf : pystr) (vs : VerboseSettings)
    (depth : Z) (entries : list entry) (st : scan_state) (Q : pyfile -> Prop) :
  (forall f, In (EFile f) entries -> Q f) ->
  Forall Q (executed (world st)) ->
  Forall Q (executed (world (flow_state (process_entries a pre suf vs depth entries st)))).
Proof.
  revert st. induction entries as [|e rest IH]; intros st HQ Hst; simpl; [exact Hst|].
  assert (He : Forall Q (executed (world (flow_state (process_entry a pre suf vs depth e st))))).
  { destruct e as [name sl l|f|name]; simpl; auto.
    - destruct sl; simpl; auto. destruct (max_depth a <=? depth)%Z; simpl; auto.
    - destruct (process_file_executed a pre suf vs f st) as [E|[E _]]; rewrite E; auto.
      apply Forall_app; split; auto. constructor; [|constructor].
      apply HQ. left; reflexivity. }
  destruct (process_entry a pre suf vs depth e st) as [st'|ex st'|st']; simpl in *;
    try assumption.
  apply IH; [|assumption]. intros f Hf. apply HQ. right; exact Hf.
Qed.

(** One pass of the loop is the whole scan when nothing is pushed. *)
Lemma scan_loop_single (fuel : nat) (a : scan_args) (pre suf : pystr) (vs : VerboseSettings)
    (name : pystr) (sl : bool) (entries : list entry) (depth : Z) (st : scan_state) :
  (max_depth a <= depth)%Z ->
  stack st = [(EDir name sl (Ok entries), depth)] ->
  scan_loop (S fuel) a pre suf vs st
  = process_entries a pre suf vs depth entries
      (log HIGH (MsgTraversing depth name) vs (bump incr_dirs_visited (set_stack [] st))).
Proof.
  intros Hd Hst. simpl. rewrite Hst. simpl.
  match goal with |- context [process_entries a pre suf vs depth entries ?s] =>
    destruct (process_entries_prune a pre suf vs entries s Hd) as [_ Hs];
    destruct (process_entries a pre suf vs depth entries s) as [st'|ex st'|st'] end;
    try reflexivity.
  simpl in Hs. destruct fuel; simpl; rewrite Hs; reflexivity.
Qed.

(** C6.  With [max_depth = 0] the scan lists the base directory only:
    its result and the world it leaves are the same whatever the
    subdirectories hold; every file whose code was run is an entry of the
    base directory itself; and, at any depth, a directory is pushed for
    traversal exactly when it is no symbolic link and the depth of the
    directory being listed is strictly below [max_depth]. *)
Theorem depth_zero_stays_in_base :
  forall name sl entries vs p s pr v w,
    let a := mk_args 0 p s pr v in
    find_tools_json (Ok (EDir name sl (Ok (map prune entries)))) vs a w
    = find_tools_json (Ok (EDir name sl (Ok entries))) vs a w
    /\ Forall (fun f => In f (executed w) \/ In (EFile f) entries)
              (executed (snd (find_tools_json (Ok (EDir name sl (Ok entries))) vs a w)))
    /\ (forall a' pre suf depth dname dsl l st,
          stack (flow_state (process_entry a' pre suf vs depth (EDir dname dsl l) st))
          = if negb dsl && (depth <? max_depth a')%Z
            then (EDir dname dsl l, (depth + 1)%Z) :: stack st
            else stack st).
Proof.
  intros name sl entries vs p s pr v w a.
  split; [|split].
  - unfold find_tools_json. cbn -[scan_loop process_entries].
    rewrite scan_loop_single with (name := name) (sl := sl) (depth := 0%Z)
                                  (entries := map prune entries)
      by (simpl; first [lia | reflexivity]).
    rewrite scan_loop_single with (name := name) (sl := sl) (depth := 0%Z)
                                  (entries := entries)
      by (simpl; first [lia | reflexivity]).
    match goal with |- context [process_entries ?a' ?pp ?ss vs 0%Z (map prune entries) ?s0] =>
      assert (Hd : (max_depth a' <= 0)%Z) by (simpl; lia);
      destruct (@process_entries_prune a' pp ss vs 0%Z entries s0 Hd) as [-> _] end.
    reflexivity.
  - unfold find_tools_json. cbn -[scan_loop process_entries].
    rewrite scan_loop_single with (name := name) (sl := sl) (depth := 0%Z)
                                  (entries := entries)
      by (simpl; first [lia | reflexivity]).
    match goal with |- context [process_entries ?a' ?pp ?ss vs 0%Z entries ?s0] =>
      pose proof (@process_entries_executed a' pp ss vs 0%Z entries s0
                    (fun f => In f (executed w) \/ In (EFile f) entries)) as H;
      destruct (process_entries a' pp ss vs 0%Z entries s0) as [st'|ex st'|st'] end;
      simpl in *; apply H; auto; apply Forall_forall; auto.
  - intros. apply process_entry_push.
Qed.

(** ** Failures during discovery (C2) *)

(** What the extraction block raises, case by case. *)
Lemma extract_fields_failures (p v : bool) (vs : VerboseSettings) (m : pymodule) (w : World) :
  (is_callable (getattr (tool_run m) PNone) = false ->
   extract_fields p v vs m w
   = (Raised (mk_exc (py "AttributeError") (py "Missing or non-callable `tool_run`")), w))
  /\ (is_callable (getattr (tool_run m) PNone) = true ->
      is_str (getattr (TOOL_DEFINITION m) PNone) = false ->
      extract_fields p v vs m w
      = (Raised (mk_exc (py "TypeError")
                   (py "`TOOL_DEFINITION` must be a JSON string (type str)")), w))
  /\ (forall d,
        is_callable (getattr (tool_run m) PNone) = true ->
        getattr (TOOL_DEFINITION m) PNone = PStr d ->
        v || p = true ->
        json_loads d = None ->
        extract_fields p v vs m w
        = (Raised (if no_throw vs
                   then mk_exc (py "ValueError")
                          (py "Exception (JSONDecodeError): " ++ json_error_text d)
                   else mk_exc (py "JSONDecodeError") (json_error_text d)), w)).
Proof.
  unfold extract_fields. repeat split.
  - intros ->. reflexivity.
  - intros -> Hs. simpl. destruct (getattr (TOOL_DEFINITION m) PNone); try reflexivity.
    discriminate.
  - intros d -> -> -> Hd. simpl. unfold is_valid_json. rewrite Hd.
    destruct (no_throw vs); reflexivity.
Qed.

(** C2, as the code has it.  For a candidate whose size is known:
    above the ceiling it is skipped under both policies; a failing import
    whose exception is an instance of [Exception], and an exception of
    the extraction block (an entry point that is missing or not callable,
    a descriptor that is no string, a descriptor that is no JSON) leave
    the registry as it was and, when errors are suppressed, let the scan
    go on with the next entry, but when errors are raised they leave the
    scan with that exception.  An import that raises outside [Exception]
    (SystemExit, KeyboardInterrupt) leaves the scan with that exception
    under both policies. *)
Theorem per_file_failures_follow_policy :
  forall a pre suf vs f st size,
    is_candidate pre suf f = true ->
    f_size f = Ok size ->
    ((MAX_TOOL_FILE_SIZE_BYTES < size)%N ->
       exists st', tools st' = tools st /\ process_file a pre suf vs f st = Next st')
    /\ (forall ex,
          (size <= MAX_TOOL_FILE_SIZE_BYTES)%N -> f_module f = Err ex ->
          exists st', tools st' = tools st
                      /\ process_file a pre suf vs f st
                         = if is_exception ex
                           then if no_throw vs then Next st' else Throw ex st'
                           else Throw ex st')
    /\ (forall m ex w',
          (size <= MAX_TOOL_FILE_SIZE_BYTES)%N -> f_module f = Ok m ->
          extract_fields (prettify a) (validate a) vs m (run_file f (world st))
          = (Raised ex, w') ->
          exists st', tools st' = tools st
                      /\ process_file a pre suf vs f st
                         = if no_throw vs then Next st' else Throw ex st').
Proof.
  intros a pre suf vs f st size Hcand Hsize.
  unfold is_candidate in Hcand.
  apply andb_true_iff in Hcand as [Hcand Hlen].
  apply andb_true_iff in Hcand as [Hpy Hname].
  apply negb_true_iff in Hlen.
  repeat split.
  - intros Hbig.
    destruct (process_file_oversize a pre suf vs f st Hsize Hbig) as (st' & H1 & _ & H2 & _).
    eauto.
  - intros ex Hsmall Hmod. apply N.ltb_ge in Hsmall.
    unfold process_file. rewrite Hpy, Hname, Hlen, Hsize, Hsmall, Hmod. simpl.
    destruct (is_exception ex).
    + eexists; split; [|destruct (no_throw vs); reflexivity]. reflexivity.
    + eexists; split; [|reflexivity]. reflexivity.
  - intros m ex w' Hsmall Hmod Hext. apply N.ltb_ge in Hsmall.
    unfold process_file. rewrite Hpy, Hname, Hlen, Hsize, Hsmall, Hmod. simpl.
    rewrite Hext.
    eexists; split; [|destruct (no_throw vs); reflexivity].
    destruct (is_value_error ex && contains (py "JSON") (exc_text ex)); reflexivity.
Qed.

(** ** The scan comes to an end *)

Lemma extract_fields_unfinished (p v : bool) (vs : VerboseSettings) (m : pymodule)
    (w w' : World) :
  extract_fields p v vs m w = (Unfinished, w') -> p = true /\ draws w' = [].
Proof.
  unfold extract_fields.
  destruct (is_callable (getattr (tool_run m) PNone)); simpl; [|discriminate].
  destruct (getattr (TOOL_DEFINITION m) PNone) as [| |d|]; try discriminate.
  assert (Hp : (if p
                then match prettify_json d vs w with
                     | (Returned t, w1) => (Returned (t, getattr (tool_run m) PNone), w1)
                     | (Raised e, w1) => (Raised e, w1)
                     | (Unfinished, w1) => (Unfinished, w1)
                     end
                else (Returned (d, getattr (tool_run m) PNone), w)) = (Unfinished, w') ->
               p = true /\ draws w' = []).
  { destruct p; [|discriminate]. unfold prettify_json.
    destruct (is_valid_json d (no_throw vs)) as [[[r x] msg]| |] eqn:E.
    - destruct r.
      + destruct (replace_lists_with_placeholders d x ([], draws w)) as [[t [ph u]]|].
        * discriminate.
        * intros H; inversion H; subst w'. split; reflexivity.
      + unfold return_or_raise. destruct (no_throw vs); discriminate.
    - discriminate.
    - unfold is_valid_json in E. destruct (json_loads d); [discriminate|].
      destruct (no_throw vs); discriminate. }
  destruct (v || p).
  - unfold is_valid_json at 1.
    destruct (json_loads d); [exact Hp|]. destruct (no_throw vs); discriminate.
  - exact Hp.
Qed.

Lemma process_file_stall (a : scan_args) (pre suf : pystr) (vs : VerboseSettings)
    (f : pyfile) (st st' : scan_state) :
  process_file a pre suf vs f st = Stall st' ->
  prettify a = true /\ draws (world st') = [].
Proof.
  unfold process_file.
  destruct (negb (str_eqb (f_suffix f) (py ".py"))); [discriminate|].
  destruct (negb (starts_with pre (f_stem f) && ends_with suf (f_stem f))); [discriminate|].
  destruct (length (f_stem f) <=? length pre + length suf)%nat; [discriminate|].
  destruct (f_size f) as [size|ex]; [|destruct (no_throw vs); discriminate].
  destruct (MAX_TOOL_FILE_SIZE_BYTES <? size)%N; [discriminate|].
  destruct (f_module f) as [m|ex]; [|destruct (is_exception ex); [destruct (no_throw vs)|]; discriminate].
  match goal with |- context [extract_fields ?p ?v vs m ?w] =>
    destruct (extract_fields p v vs m w) as [[[d r]|ex|] w'] eqn:E end.
  - discriminate.
  - destruct (no_throw vs); discriminate.
  - intros H; inversion H; subst st'. simpl.
    exact (extract_fields_unfinished _ _ _ _ _ E).
Qed.

Lemma process_entries_stall (a : scan_args) (pre suf : pystr) (vs : VerboseSettings)
    (depth : Z) (entries : list entry) (st st' : scan_state) :
  process_entries a pre suf vs depth entries st = Stall st' ->
  prettify a = true /\ draws (world st') = [].
Proof.
  revert st. induction entries as [|e rest IH]; intros st; simpl; [discriminate|].
  destruct (process_entry a pre suf vs depth e st) as [s1|e1 s1|s1] eqn:E.
  - apply IH.
  - discriminate.
  - intros H; inversion H; subst s1.
    destruct e as [name sl l|f|name]; simpl in E.
    + destruct sl; [discriminate|]. destruct (max_depth a <=? depth)%Z; discriminate.
    + exact (process_file_stall _ _ _ _ _ _ E).
    + discriminate.
Qed.

Lemma stack_size_cons (e : entry) (d : Z) (k : list (entry * Z)) :
  stack_size ((e, d) :: k) = dir_count e + stack_size k.
Proof. reflexivity. Qed.

(** What the entries of one listing add to the stack. *)
Lemma process_entries_stack_size (a : scan_args) (pre suf : pystr) (vs : VerboseSettings)
    (depth : Z) (entries : list entry) (st : scan_state) :
  Forall (fun p => is_dir (fst p) = true) (stack st) ->
  Forall (fun p => is_dir (fst p) = true)
         (stack (flow_state (process_entries a pre suf vs depth entries st)))
  /\ stack_size (stack (flow_state (process_entries a pre suf vs depth entries st)))
     <= stack_size (stack st) + list_sum (map dir_count entries).
Proof.
  revert st. induction entries as [|e rest IH]; intros st Hd; simpl.
  - split; [exact Hd|lia].
  - assert (He : Forall (fun p => is_dir (fst p) = true)
                        (stack (flow_state (process_entry a pre suf vs depth e st)))
                 /\ stack_size (stack (flow_state (process_entry a pre suf vs depth e st)))
                    <= stack_size (stack st) + dir_count e).
    { destruct e as [name sl l|f|name].
      - rewrite process_entry_push.
        destruct (negb sl && (depth <? max_depth a)%Z).
        + split; [constructor; [reflexivity|exact Hd]|].
          rewrite stack_size_cons. lia.
        + split; [exact Hd|lia].
      - simpl. rewrite process_file_stack. split; [exact Hd|lia].
      - simpl. split; [exact Hd|lia]. }
    destruct He as [Hd1 Hs1].
    destruct (process_entry a pre suf vs depth e st) as [s1|e1 s1|s1]; simpl in *.
    + destruct (IH s1 Hd1) as [Hd2 Hs2]. split; [exact Hd2|lia].
    + split; [exact Hd1|lia].
    + split; [exact Hd1|lia].
Qed.

Lemma scan_loop_stall (fuel : nat) (a : scan_args) (pre suf : pystr)
    (vs : VerboseSettings) (st st' : scan_state) :
  Forall (fun p => is_dir (fst p) = true) (stack st) ->
  stack_size (stack st) <= fuel ->
  scan_loop fuel a pre suf vs st = Stall st' ->
  prettify a = true /\ draws (world st') = [].
Proof.
  revert st. induction fuel as [|fuel IH]; intros st Hd Hs; simpl;
    destruct (stack st) as [|[d depth] below] eqn:Hst; try discriminate.
  - inversion Hd as [|x l Hx Hl]; subst. rewrite stack_size_cons in Hs.
    destruct d as [name sl [entries|ex]|f|name];
      simpl in Hx; try discriminate; simpl in Hs; lia.
  - inversion Hd as [|x l Hx Hl]; subst. rewrite stack_size_cons in Hs.
    destruct d as [name sl [entries|ex]|f|name]; simpl in Hx; try discriminate;
      cbn [dir_count] in Hs; cbn [iterdir].
    + match goal with |- context [process_entries a pre suf vs depth entries ?s] =>
        pose proof (process_entries_stack_size a pre suf vs depth entries s Hl) as [Hd1 Hs1];
        pose proof (process_entries_stall a pre suf vs depth entries s) as Hstall;
        destruct (process_entries a pre suf vs depth entries s) as [s1|e1 s1|s1] end;
        simpl in Hd1, Hs1.
      * apply IH; [exact Hd1|lia].
      * discriminate.
      * intros H; inversion H; subst s1. apply Hstall. reflexivity.
    + destruct (no_throw vs); [|discriminate]. apply IH; [exact Hl|simpl; lia].
Qed.

(** X21.  A scan is cut short only when [prettify] is on and the draws of
    [uuid.uuid4().hex] given to it are used up: with [prettify] off, or
    with draws left at the end, the scan has returned or raised. *)
Lemma find_tools_json_unfinished (base_dir : result entry) (vs : VerboseSettings)
    (a : scan_args) (w : World) :
  fst (find_tools_json base_dir vs a w) = Unfinished ->
  prettify a = true /\ draws (snd (find_tools_json base_dir vs a w)) = [].
Proof.
  unfold find_tools_json.
  assert (Hr : forall e, return_or_raise (no_throw vs) ([] : pydict tool_entry) e
                         <> Unfinished).
  { intros e. unfold return_or_raise. destruct (no_throw vs); discriminate. }
  destruct (max_depth a <? 0)%Z; [intros H; elim (Hr _ H)|].
  destruct base_dir as [base|ex]; [|intros H; elim (Hr _ H)].
  destruct base as [name sl l|f|name]; try (intros H; elim (Hr _ H)).
  match goal with |- context [scan_loop ?n ?a' ?p ?s vs ?st0] =>
    pose proof (@scan_loop_stall n a' p s vs st0) as Hs;
    destruct (scan_loop n a' p s vs st0) as [s1|e1 s1|s1] end; simpl; try discriminate.
  intros _. apply (Hs s1); [repeat constructor| |reflexivity].
  unfold stack_size. simpl. lia.
Qed.

End Facts.

(** ** The JSON round trip (C1) *)

Unset Implicit Arguments.

Section RoundTrip.
Context {PL : PyLib}.

(** Induction on values, with the hypothesis for every item and member. *)
Lemma json_induction (P : json -> Prop) :
  P JNull -> (forall b, P (JBool b)) -> (forall z, P (JInt z)) ->
  (forall x, P (JFloat x)) -> (forall s, P (JStr s)) ->
  (forall items, Forall P items -> P (JArr items)) ->
  (forall members, Forall (fun kv => P (snd kv)) members -> P (JObj members)) ->
  forall v, P v.
Proof.
  intros Hn Hb Hi Hf Hs Ha Ho.
  fix IH 1. intros [| b | z | x | s | items | members].
  - exact Hn.
  - apply Hb.
  - apply Hi.
  - apply Hf.
  - apply Hs.
  - apply Ha. induction items as [|v items IHl]; constructor; [apply IH|exact IHl].
  - apply Ho. induction members as [|[k v] members IHl]; constructor; [apply IH|exact IHl].
Qed.

(** *** White space and strings *)

Lemma skip_ws_delim_free (s : pystr) (c : N) :
  is_ws c = false -> skip_ws (c :: s) = c :: s.
Proof. intros H. simpl. now rewrite H. Qed.

Lemma skip_ws_spaces (n : nat) (s : pystr) :
  skip_ws (str_times [32%N] n ++ s) = skip_ws s.
Proof. induction n as [|n IH]; simpl; auto. Qed.

Lemma skip_ws_newline (n : nat) (s : pystr) :
  skip_ws (10%N :: str_times [32%N] n ++ s) = skip_ws s.
Proof. simpl. apply skip_ws_spaces. Qed.

Lemma hex_round_trip (c : N) :
  (c < 32)%N ->
  decode_uXXXX [48; 48; hex_digit (c / 16); hex_digit (c mod 16)]%N = Some (c, []).
Proof.
  intros Hc.
  assert (H : N.to_nat c < 32) by lia.
  rewrite <- (N2Nat.id c). generalize dependent (N.to_nat c). clear.
  intros n H.
  do 32 (destruct n as [|n]; [vm_compute; reflexivity|]). lia.
Qed.

Lemma scanstring_encoded (s rest : pystr) :
  scanstring (flat_map escape_char s ++ 34%N :: rest) = Some (s, rest).
Proof.
  induction s as [|c s IH]; [reflexivity|].
  cbn [flat_map]. rewrite <- app_assoc.
  set (tail := flat_map escape_char s ++ 34%N :: rest) in *.
  unfold escape_char.
  destruct (N.eqb_spec c 34) as [->|H34]; [cbn; now rewrite IH|].
  destruct (N.eqb_spec c 92) as [->|H92]; [cbn; now rewrite IH|].
  destruct (N.eqb_spec c 10) as [->|H10]; [cbn; now rewrite IH|].
  destruct (N.eqb_spec c 13) as [->|H13]; [cbn; now rewrite IH|].
  destruct (N.eqb_spec c 9) as [->|H9]; [cbn; now rewrite IH|].
  destruct (N.eqb_spec c 12) as [->|H12]; [cbn; now rewrite IH|].
  destruct (N.eqb_spec c 8) as [->|H8]; [cbn; now rewrite IH|].
  destruct (N.ltb_spec c 32) as [Hlt|Hge].
  - pose proof (hex_round_trip c Hlt) as Hhex.
    cbn [app scanstring].
    change (92 =? 34)%N with false. change (92 <? 32)%N with false.
    change (92 =? 92)%N with true. change (117 =? 117)%N with true. cbv iota.
    rewrite Hhex, IH.
    assert (Hs : ((55296 <=? c) && (c <=? 56319))%N = false).
    { apply andb_false_iff. left. apply N.leb_gt. lia. }
    rewrite Hs. reflexivity.
  - cbn [app scanstring].
    apply N.eqb_neq in H34, H92. rewrite H34, H92.
    assert (Hlt : (c <? 32)%N = false) by (apply N.ltb_ge; lia).
    rewrite Hlt, IH. reflexivity.
Qed.

Lemma scan_once_string (fuel : nat) (s rest : pystr) :
  scan_once (S fuel) (encode_basestring s ++ rest) = Some (JStr s, rest).
Proof.
  unfold encode_basestring. cbn [app scan_once]. change (34 =? 34)%N with true. cbv iota.
  rewrite <- app_assoc. cbn [app]. now rewrite scanstring_encoded.
Qed.

(** *** Numbers *)

Lemma span_digits_complete (d r : pystr) :
  forallb is_digit d = true -> nodigit_head r -> span_digits (d ++ r) = (d, r).
Proof.
  intros Hd Hr. induction d as [|c d IH]; simpl in *.
  - destruct r as [|x r]; [reflexivity|]. simpl in *. now rewrite Hr.
  - apply andb_true_iff in Hd as [Hc Hd]. rewrite Hc, (IH Hd). reflexivity.
Qed.

Lemma span_digits_sound (s d r : pystr) :
  span_digits s = (d, r) -> s = d ++ r /\ forallb is_digit d = true.
Proof.
  revert d r. induction s as [|c s IH]; intros d r H; simpl in H.
  - inversion H; subst. auto.
  - destruct (is_digit c) eqn:Hc.
    + destruct (span_digits s) as [d' r'] eqn:E. inversion H; subst.
      destruct (IH d' r eq_refl) as [-> Hd]. simpl. rewrite Hc. auto.
    + inversion H; subst. auto.
Qed.

Lemma nat_lexeme_complete (sign d r : pystr) :
  (sign = [] \/ sign = [45%N]) ->
  nat_lexeme d = true -> nodigit_head r ->
  match_integer (sign ++ d ++ r) = Some (sign ++ d, r).
Proof.
  intros Hsign Hd Hr. unfold match_integer.
  assert (Hcore :
    match d ++ r with
    | c :: r0 =>
        if (c =? 48)%N then Some (sign ++ [c], r0)
        else if is_digit c
             then let (d0, r') := span_digits r0 in Some (sign ++ c :: d0, r')
             else None
    | [] => None
    end = Some (sign ++ d, r)).
  { destruct d as [|c d]; [discriminate|]. simpl in Hd. simpl.
    destruct (c =? 48)%N.
    - destruct d; [reflexivity|discriminate].
    - apply andb_true_iff in Hd as [Hc Hd]. rewrite Hc.
      now rewrite (span_digits_complete _ _ Hd Hr). }
  destruct Hsign as [->| ->].
  - simpl. destruct d as [|c d]; [discriminate|]. simpl in *.
    destruct (N.eqb_spec c 45) as [->|_]; [|exact Hcore].
    simpl in Hd. discriminate.
  - simpl. exact Hcore.
Qed.

Lemma int_lexeme_complete (i r : pystr) :
  int_lexeme i = true -> nodigit_head r -> match_integer (i ++ r) = Some (i, r).
Proof.
  intros Hi Hr. destruct i as [|c i]; [discriminate|]. simpl in Hi.
  destruct (N.eqb_spec c 45) as [->|Hc].
  - apply (@nat_lexeme_complete [45%N] i r); auto.
  - apply (@nat_lexeme_complete [] (c :: i) r); auto.
Qed.

Lemma int_lexeme_sound (s i r : pystr) :
  match_integer s = Some (i, r) -> s = i ++ r /\ int_lexeme i = true.
Proof.
  unfold match_integer.
  assert (Hcore : forall sign s1,
    match s1 with
    | c :: r0 =>
        if (c =? 48)%N then Some (sign ++ [c], r0)
        else if is_digit c
             then let (d0, r') := span_digits r0 in Some (sign ++ c :: d0, r')
             else None
    | [] => None
    end = Some (i, r) ->
    exists d, i = sign ++ d /\ s1 = d ++ r /\ nat_lexeme d = true
              /\ exists c d', d = c :: d' /\ is_digit c = true).
  { intros sign [|c r0]; [discriminate|].
    destruct (N.eqb_spec c 48) as [->|Hc].
    - intros H; inversion H; subst. exists [48%N]. repeat split. eauto.
    - destruct (is_digit c) eqn:Hd; [|discriminate].
      destruct (span_digits r0) as [d0 r'] eqn:E. intros H; inversion H; subst.
      destruct (span_digits_sound _ _ _ E) as [-> Hall].
      exists (c :: d0). repeat split; eauto.
      simpl. apply N.eqb_neq in Hc. now rewrite Hc, Hd, Hall. }
  destruct s as [|c s].
  - intros H. destruct (Hcore [] [] H) as (d & _ & Hd & _). destruct d; discriminate.
  - destruct (N.eqb_spec c 45) as [->|Hc]; intros H.
    + destruct (Hcore [45%N] s H) as (d & -> & -> & Hd & _). split; [reflexivity|].
      simpl. exact Hd.
    + destruct (Hcore [] (c :: s) H) as (d & -> & Hs & Hd & c' & d' & -> & Hc').
      simpl in *. inversion Hs; subst. split; [reflexivity|].
      apply N.eqb_neq in Hc. rewrite Hc. exact Hd.
Qed.

Lemma frac_lexeme_complete (f r : pystr) :
  frac_lexeme f = true -> nodigit_head r -> match_frac (f ++ r) = Some (f, r).
Proof.
  intros Hf Hr. destruct f as [|c d]; [discriminate|]. simpl in *.
  apply andb_true_iff in Hf as [Hc Hd]. rewrite Hc.
  destruct d as [|x d]; [discriminate|]. simpl in Hd.
  rewrite (@span_digits_complete (x :: d) r Hd Hr). reflexivity.
Qed.

Lemma frac_lexeme_sound (s f r : pystr) :
  match_frac s = Some (f, r) -> s = f ++ r /\ frac_lexeme f = true.
Proof.
  destruct s as [|c s]; [discriminate|]. simpl.
  destruct (c =? 46)%N eqn:Hc; [|discriminate].
  destruct (span_digits s) as [d r'] eqn:E.
  destruct d as [|x d]; [discriminate|]. intros H; inversion H; subst.
  destruct (span_digits_sound _ _ _ E) as [-> Hall]. split; [reflexivity|].
  simpl. rewrite Hc. exact Hall.
Qed.

Lemma exp_lexeme_complete (e r : pystr) :
  exp_lexeme e = true -> nodigit_head r -> match_exp (e ++ r) = Some (e, r).
Proof.
  intros He Hr. destruct e as [|c t]; [discriminate|]. simpl in *.
  apply andb_true_iff in He as [Hc Ht]. rewrite Hc.
  destruct t as [|x d]; [discriminate|]. simpl.
  destruct ((x =? 45) || (x =? 43))%N.
  - destruct d as [|y d]; [discriminate|]. simpl in Ht.
    rewrite (@span_digits_complete (y :: d) r Ht Hr). reflexivity.
  - simpl in Ht. pose proof (@span_digits_complete (x :: d) r Ht Hr) as Hs.
    change ((x :: d) ++ r) with (x :: d ++ r) in Hs. rewrite Hs. reflexivity.
Qed.

Lemma exp_lexeme_sound (s e r : pystr) :
  match_exp s = Some (e, r) -> s = e ++ r /\ exp_lexeme e = true.
Proof.
  destruct s as [|c s]; [discriminate|]. simpl.
  destruct ((c =? 101) || (c =? 69))%N eqn:Hc; [|discriminate].
  destruct s as [|x s].
  - simpl. discriminate.
  - destruct ((x =? 45) || (x =? 43))%N eqn:Hx.
    + destruct (span_digits s) as [d r'] eqn:E.
      destruct d as [|y d]; [discriminate|]. intros H; inversion H; subst.
      destruct (span_digits_sound _ _ _ E) as [-> Hall]. split; [reflexivity|].
      simpl. rewrite Hc, Hx. exact Hall.
    + destruct (span_digits (x :: s)) as [d r'] eqn:E.
      destruct d as [|y d]; [discriminate|]. intros H; inversion H; subst.
      destruct (span_digits_sound _ _ _ E) as [Hs Hall]. simpl in Hs. inversion Hs; subst.
      split; [reflexivity|]. simpl. rewrite Hc, Hx. exact Hall.
Qed.

Lemma uint_chars_digits (u : Decimal.uint) : forallb is_digit (uint_chars u) = true.
Proof. induction u; simpl; auto. Qed.

Lemma uint_of_chars_chars (u : Decimal.uint) : uint_of_chars (uint_chars u) = u.
Proof. induction u; simpl; unfold digit_of_char; simpl; congruence. Qed.

Lemma pos_to_uint_shape (p : positive) :
  exists c d, uint_chars (Pos.to_uint p) = c :: d
              /\ (c =? 48)%N = false /\ (c =? 45)%N = false /\ is_digit c = true.
Proof.
  assert (Hnorm : Decimal.unorm (Pos.to_uint p) = Pos.to_uint p).
  { rewrite <- DecimalPos.Unsigned.to_of, DecimalPos.Unsigned.of_to. reflexivity. }
  pose proof (DecimalPos.Unsigned.to_uint_nonzero p) as Hnz.
  destruct (Pos.to_uint p) as [|u|u|u|u|u|u|u|u|u|u] eqn:E;
    try (simpl; eexists; eexists; repeat split; reflexivity).
  - discriminate Hnorm.
  - exfalso. unfold Decimal.unorm in Hnorm.
    destruct (Decimal.nzhead (Decimal.D0 u)) eqn:Hh;
      try (apply (DecimalFacts.nzhead_nonzero (Decimal.D0 u) u); congruence).
Qed.

Lemma int_repr_lexeme (z : Z) : int_lexeme (int_repr z) = true.
Proof.
  unfold int_repr. destruct z as [|p|p]; simpl.
  - reflexivity.
  - destruct (pos_to_uint_shape p) as (c & d & E & H48 & H45 & Hd).
    pose proof (uint_chars_digits (Pos.to_uint p)) as Hall. rewrite E in *. simpl in *.
    now rewrite H45, H48.
  - destruct (pos_to_uint_shape p) as (c & d & E & H48 & H45 & Hd).
    pose proof (uint_chars_digits (Pos.to_uint p)) as Hall. rewrite E in *. simpl in *.
    now rewrite H48.
Qed.

Lemma int_of_lit_repr (z : Z) : int_of_lit (int_repr z) = z.
Proof.
  rewrite <- (DecimalZ.of_to z) at 2.
  unfold int_repr, int_of_lit. destruct z as [|p|p]; simpl.
  - reflexivity.
  - destruct (pos_to_uint_shape p) as (c & d & E & H48 & H45 & Hd).
    pose proof (uint_of_chars_chars (Pos.to_uint p)) as Hu. rewrite E in *.
    now rewrite H45, Hu.
  - now rewrite uint_of_chars_chars.
Qed.

Lemma delim_nodigit (r : pystr) : delim r -> nodigit_head r.
Proof.
  destruct r as [|c r]; simpl; [auto|].
  unfold is_ws, is_digit.
  intros [->|[->|[->|H]]]; try reflexivity.
  apply orb_true_iff in H as [H|H]; [apply orb_true_iff in H as [H|H];
    [apply orb_true_iff in H as [H|H]|]|]; apply N.eqb_eq in H; subst; reflexivity.
Qed.

Lemma delim_no_frac (r : pystr) : delim r -> match_frac r = None.
Proof.
  destruct r as [|c r]; simpl; [auto|].
  unfold is_ws.
  intros [->|[->|[->|H]]]; try reflexivity.
  apply orb_true_iff in H as [H|H]; [apply orb_true_iff in H as [H|H];
    [apply orb_true_iff in H as [H|H]|]|]; apply N.eqb_eq in H; subst; reflexivity.
Qed.

Lemma delim_no_exp (r : pystr) : delim r -> match_exp r = None.
Proof.
  destruct r as [|c r]; simpl; [auto|].
  unfold is_ws.
  intros [->|[->|[->|H]]]; try reflexivity.
  apply orb_true_iff in H as [H|H]; [apply orb_true_iff in H as [H|H];
    [apply orb_true_iff in H as [H|H]|]|]; apply N.eqb_eq in H; subst; reflexivity.
Qed.

Lemma scan_number_int (z : Z) (r : pystr) :
  delim r -> scan_number (int_repr z ++ r) = Some (JInt z, r).
Proof.
  intros Hr. unfold scan_number.
  rewrite (int_lexeme_complete _ _ (int_repr_lexeme z) (delim_nodigit _ Hr)).
  rewrite (delim_no_frac _ Hr), (delim_no_exp _ Hr), int_of_lit_repr. reflexivity.
Qed.

Lemma frac_head (f r : pystr) :
  frac_lexeme f = true -> nodigit_head (f ++ r) /\ match_exp (f ++ r) = None.
Proof.
  destruct f as [|c d]; [discriminate|]. simpl. intros H.
  apply andb_true_iff in H as [Hc _]. apply N.eqb_eq in Hc as ->. auto.
Qed.

Lemma exp_head (e r : pystr) :
  exp_lexeme e = true -> nodigit_head (e ++ r) /\ match_frac (e ++ r) = None.
Proof.
  destruct e as [|c d]; [discriminate|]. simpl. intros H.
  apply andb_true_iff in H as [Hc _].
  apply orb_true_iff in Hc as [Hc|Hc]; apply N.eqb_eq in Hc as ->; auto.
Qed.

Lemma scan_number_float (i f e r : pystr) :
  int_lexeme i = true ->
  (f = [] \/ frac_lexeme f = true) -> (e = [] \/ exp_lexeme e = true) ->
  (f <> [] \/ e <> []) ->
  delim r ->
  scan_number ((i ++ f ++ e) ++ r) = Some (JFloat (float_of_lit (i ++ f ++ e)), r).
Proof.
  intros Hi Hf He Hne Hr. unfold scan_number.
  rewrite <- !app_assoc.
  assert (Hnd : nodigit_head r) by (apply delim_nodigit; exact Hr).
  assert (Her : nodigit_head (e ++ r)).
  { destruct He as [->|He]; [exact Hnd|apply (exp_head e r He)]. }
  assert (Hfer : nodigit_head (f ++ e ++ r)).
  { destruct Hf as [->|Hf]; [exact Her|apply (frac_head f (e ++ r) Hf)]. }
  rewrite (int_lexeme_complete _ _ Hi Hfer).
  destruct Hf as [->|Hf]; destruct He as [->|He].
  - destruct Hne as [H|H]; congruence.
  - cbn [app]. rewrite (proj2 (exp_head e r He)), (exp_lexeme_complete _ _ He Hnd).
    destruct e; [discriminate|reflexivity].
  - cbn [app]. rewrite (frac_lexeme_complete _ _ Hf Hnd), (delim_no_exp _ Hr).
    destruct f; [discriminate|reflexivity].
  - rewrite (frac_lexeme_complete _ _ Hf Her), (exp_lexeme_complete _ _ He Hnd).
    destruct f; [discriminate|reflexivity].
Qed.

Lemma scan_number_sound (s : pystr) (v : json) (r : pystr) :
  scan_number s = Some (v, r) ->
  (exists z, v = JInt z) \/ (exists l, v = JFloat (float_of_lit l) /\ float_token l).
Proof.
  unfold scan_number.
  destruct (match_integer s) as [[i r1]|] eqn:Ei; [|discriminate].
  destruct (int_lexeme_sound _ _ _ Ei) as [_ Hi].
  assert (Hf : exists f r2,
            match match_frac r1 with Some (f, r) => (f, r) | None => ([], r1) end = (f, r2)
            /\ (f = [] \/ frac_lexeme f = true)).
  { destruct (match_frac r1) as [[f r2]|] eqn:Ef.
    - destruct (frac_lexeme_sound _ _ _ Ef) as [_ Hf]. eauto.
    - eauto. }
  destruct Hf as (f & r2 & -> & Hf).
  assert (He : exists e r3,
            match match_exp r2 with Some (e, r) => (e, r) | None => ([], r2) end = (e, r3)
            /\ (e = [] \/ exp_lexeme e = true)).
  { destruct (match_exp r2) as [[e r3]|] eqn:Ee.
    - destruct (exp_lexeme_sound _ _ _ Ee) as [_ He]. eauto.
    - eauto. }
  destruct He as (e & r3 & -> & He).
  assert (Htok : (f <> [] \/ e <> []) -> float_token (i ++ f ++ e)).
  { intros Hne. right; right; right. exists i, f, e. auto. }
  destruct f as [|c f].
  - destruct e as [|c e].
    + intros H; inversion H; subst. left; eauto.
    + intros H; inversion H; subst. right. eexists; split; [reflexivity|].
      apply Htok. right; discriminate.
  - intros H; inversion H; subst. right. eexists; split; [reflexivity|].
    apply Htok. left; discriminate.
Qed.

(** *** Values *)

Lemma scan_once_number (fuel : nat) (s : pystr) (res : json * pystr) :
  scan_number s = Some res -> scan_once (S fuel) s = Some res.
Proof.
  intros H.
  assert (Hhead : exists c t, s = c :: t /\ (c = 45%N \/ is_digit c = true)).
  { unfold scan_number in H.
    destruct (match_integer s) as [[i r1]|] eqn:Ei; [|discriminate].
    destruct (int_lexeme_sound _ _ _ Ei) as [-> Hi].
    destruct i as [|c i]; [discriminate|]. simpl in Hi.
    exists c, (i ++ r1). split; [reflexivity|].
    destruct (N.eqb_spec c 45) as [->|Hc]; [auto|].
    right. simpl in Hi. destruct (c =? 48)%N eqn:E48.
    - apply N.eqb_eq in E48 as ->. reflexivity.
    - apply andb_true_iff in Hi as [Hd _]. exact Hd. }
  destruct Hhead as (c & t & -> & Hc).
  assert (Hrange : c = 45%N \/ (48 <= c <= 57)%N).
  { destruct Hc as [->|Hd]; [auto|]. right. unfold is_digit in Hd.
    apply andb_true_iff in Hd as [H1 H2]. apply N.leb_le in H1, H2. lia. }
  cbn [scan_once starts_with py map String.list_ascii_of_string].
  assert (E : forall k, (k < 45 \/ 57 < k)%N -> (c =? k)%N = false /\ (k =? c)%N = false).
  { intros k Hk. split; apply N.eqb_neq; lia. }
  rewrite (proj1 (E 34%N ltac:(lia))), (proj1 (E 123%N ltac:(lia))),
          (proj1 (E 91%N ltac:(lia))).
  change (Ascii.N_of_ascii "n") with 110%N. change (Ascii.N_of_ascii "t") with 116%N.
  change (Ascii.N_of_ascii "f") with 102%N.
  rewrite (proj2 (E 110%N ltac:(lia))), (proj2 (E 116%N ltac:(lia))),
          (proj2 (E 102%N ltac:(lia))).
  cbn [andb]. now rewrite H.
Qed.

Lemma scan_once_float (fuel : nat) (l r : pystr) :
  float_token l -> delim r ->
  scan_once (S fuel) (l ++ r) = Some (JFloat (float_of_lit l), r).
Proof.
  intros [->|[->|[->|(i & f & e & -> & Hi & Hf & He & Hne)]]] Hr; try reflexivity.
  apply scan_once_number. apply scan_number_float; assumption.
Qed.

Lemma float_token_head (l : pystr) :
  float_token l ->
  exists c t, l = c :: t /\ is_ws c = false /\ c <> 93%N /\ c <> 125%N.
Proof.
  intros [->|[->|[->|(i & f & e & -> & Hi & _)]]];
    try (eexists; eexists; split; [reflexivity|repeat split; discriminate]).
  destruct i as [|c i]; [discriminate|]. exists c, (i ++ f ++ e). split; [reflexivity|].
  assert (Hc : c = 45%N \/ (48 <= c <= 57)%N).
  { simpl in Hi. destruct (N.eqb_spec c 45) as [->|Hc]; [auto|]. right.
    simpl in Hi. destruct (N.eqb_spec c 48) as [->|H48]; [lia|].
    apply andb_true_iff in Hi as [Hd _]. unfold is_digit in Hd.
    apply andb_true_iff in Hd as [H1 H2]. apply N.leb_le in H1, H2. lia. }
  unfold is_ws. repeat split; try lia.
  repeat (apply orb_false_iff; split); apply N.eqb_neq; lia.
Qed.

Lemma int_repr_head (z : Z) :
  exists c t, int_repr z = c :: t /\ is_ws c = false /\ c <> 93%N /\ c <> 125%N.
Proof.
  pose proof (int_repr_lexeme z) as Hi.
  destruct (int_repr z) as [|c i]; [discriminate|]. exists c, i. split; [reflexivity|].
  assert (Hc : c = 45%N \/ (48 <= c <= 57)%N).
  { simpl in Hi. destruct (N.eqb_spec c 45) as [->|Hc]; [auto|]. right.
    simpl in Hi. destruct (N.eqb_spec c 48) as [->|H48]; [lia|].
    apply andb_true_iff in Hi as [Hd _]. unfold is_digit in Hd.
    apply andb_true_iff in Hd as [H1 H2]. apply N.leb_le in H1, H2. lia. }
  unfold is_ws. repeat split; try lia.
  repeat (apply orb_false_iff; split); apply N.eqb_neq; lia.
Qed.

(** The text of a value starts with a character that is neither white
    space nor a closing bracket or brace. *)
Lemma render_head (mode : option nat) (v : json) :
  wf_json v ->
  exists c t, render mode v = c :: t /\ is_ws c = false /\ c <> 93%N /\ c <> 125%N.
Proof.
  destruct v as [| [|] | z | x | s | [|i items] | [|m members]]; intros Hwf;
    try (eexists; eexists; split; [reflexivity|repeat split; discriminate]).
  - apply int_repr_head.
  - apply float_token_head. apply Hwf.
Qed.

Lemma skip_ws_all (w s : pystr) :
  forallb is_ws w = true -> skip_ws (w ++ s) = skip_ws s.
Proof.
  induction w as [|c w IH]; simpl; [reflexivity|].
  intros H. apply andb_true_iff in H as [Hc Hw]. rewrite Hc. auto.
Qed.

Lemma skip_ws_render (w : pystr) (mode : option nat) (v : json) (rest : pystr) :
  forallb is_ws w = true -> wf_json v ->
  skip_ws (w ++ render mode v ++ rest) = render mode v ++ rest.
Proof.
  intros Hw Hwf. rewrite skip_ws_all by exact Hw.
  destruct (render_head mode v Hwf) as (c & t & -> & Hc & _).
  simpl. now rewrite Hc.
Qed.

Lemma wf_items (items : list json) :
  fold_right (fun x acc => wf_json x /\ acc) True items <-> Forall wf_json items.
Proof.
  induction items as [|x items IH]; simpl.
  - split; auto.
  - rewrite IH. split; [intros [H1 H2]; constructor; auto|intros H; inversion H; auto].
Qed.

Lemma wf_members (members : pydict json) :
  fold_right (fun kv acc => wf_json (snd kv) /\ acc) True members
  <-> Forall (fun kv => wf_json (snd kv)) members.
Proof.
  induction members as [|x members IH]; simpl.
  - split; auto.
  - rewrite IH. split; [intros [H1 H2]; constructor; auto|intros H; inversion H; auto].
Qed.

Lemma dict_set_fresh {V} (k : pystr) (v : V) (d : pydict V) :
  ~ In k (map fst d) -> dict_set k v d = d ++ [(k, v)].
Proof.
  induction d as [|[k' v'] d IH]; simpl; intros H; [reflexivity|].
  destruct (str_eqb_spec k k') as [->|Hne]; [tauto|].
  rewrite IH; tauto.
Qed.

Lemma parse_items_render (items : list json) :
  Forall reads_back items -> Forall wf_json items -> items <> [] ->
  forall fuel acc rest,
    list_sum (map (fun x => S (weight x)) items) <= fuel ->
    parse_items fuel (join [44%N] (map (render None) items) ++ 93%N :: rest) acc
    = Some (acc ++ items, rest).
Proof.
  induction items as [|x items IH]; intros Hrb Hwf Hne fuel acc rest Hfuel; [congruence|].
  inversion Hrb as [|? ? Hx Hrest]; subst. inversion Hwf as [|? ? Wx Wrest]; subst.
  simpl in Hfuel. destruct fuel as [|fuel]; [lia|].
  destruct items as [|y items].
  - cbn [map join parse_items].
    rewrite (Hx None fuel (93%N :: rest)) by (simpl; auto; lia).
    reflexivity.
  - change (join [44%N] (map (render None) (x :: y :: items)))
      with (render None x ++ [44%N] ++ join [44%N] (map (render None) (y :: items))).
    rewrite <- !app_assoc. cbn [parse_items].
    rewrite (Hx None fuel) by (simpl; auto; lia).
    cbn [app]. rewrite (skip_ws_delim_free _ 44%N eq_refl).
    change (44 =? 93)%N with false. change (44 =? 44)%N with true. cbv iota.
    assert (Hskip : skip_ws (join [44%N] (map (render None) (y :: items)) ++ 93%N :: rest)
                    = join [44%N] (map (render None) (y :: items)) ++ 93%N :: rest).
    { inversion Wrest; subst.
      destruct items as [|y' items'].
      - apply (skip_ws_render [] None y (93%N :: rest)); auto.
      - change (join [44%N] (map (render None) (y :: y' :: items')))
          with (render None y ++ [44%N] ++ join [44%N] (map (render None) (y' :: items'))).
        rewrite <- app_assoc.
        apply (skip_ws_render [] None y); auto. }
    rewrite Hskip.
    rewrite (IH Hrest Wrest ltac:(discriminate) fuel (acc ++ [x]) rest) by (simpl in *; lia).
    now rewrite <- app_assoc.
Qed.

Lemma delim_ws (w : pystr) (c : N) (r : pystr) :
  forallb is_ws w = true -> (c = 44%N \/ c = 125%N) -> delim (w ++ c :: r).
Proof.
  destruct w as [|x w]; simpl.
  - intros _ [->| ->]; auto.
  - intros H _. apply andb_true_iff in H as [Hx _]. auto.
Qed.

Lemma parse_members_step (fuel : nat) (k : pystr) (v : json) (wc : pystr)
    (mode : option nat) (tail : pystr) (acc : pydict json) :
  reads_back v -> wf_json v -> weight v <= fuel -> delim tail ->
  forallb is_ws wc = true -> ~ In k (map fst acc) ->
  parse_members (S fuel)
    (flat_map escape_char k ++ 34%N :: 58%N :: wc ++ render mode v ++ tail) acc
  = match skip_ws tail with
    | d :: r4 =>
        if (d =? 125)%N then Some (acc ++ [(k, v)], r4)
        else if (d =? 44)%N then
          match skip_ws r4 with
          | q :: r5 => if (q =? 34)%N then parse_members fuel r5 (acc ++ [(k, v)]) else None
          | [] => None
          end
        else None
    | [] => None
    end.
Proof.
  intros Hrb Hwf Hfuel Htail Hwc Hfresh.
  cbn [parse_members]. rewrite scanstring_encoded.
  rewrite (skip_ws_delim_free _ 58%N eq_refl).
  change (58 =? 58)%N with true. cbv iota.
  rewrite (skip_ws_render wc mode v tail Hwc Hwf).
  rewrite (Hrb mode fuel tail Hfuel Htail).
  rewrite (dict_set_fresh k v acc Hfresh). reflexivity.
Qed.

Lemma parse_members_render (w1 w0 wc : pystr) (mode : option nat) :
  forallb is_ws w1 = true -> forallb is_ws w0 = true -> forallb is_ws wc = true ->
  forall members,
    Forall (fun kv => reads_back (snd kv)) members ->
    Forall (fun kv => wf_json (snd kv)) members ->
    members <> [] -> NoDup (map fst members) ->
    forall fuel acc rest s,
      list_sum (map (fun kv => S (weight (snd kv))) members) <= fuel ->
      (forall k, In k (map fst members) -> ~ In k (map fst acc)) ->
      34%N :: s = join (44%N :: w1) (map (member_text mode wc) members) ++ w0 ++ 125%N :: rest ->
      parse_members fuel s acc = Some (acc ++ members, rest).
Proof.
  intros Hw1 Hw0 Hwc.
  induction members as [|[k v] members IH];
    intros Hrb Hwf Hne Hnd fuel acc rest s Hfuel Hacc Hs; [congruence|].
  inversion Hrb as [|? ? Hv Hrest]; subst. inversion Hwf as [|? ? Wv Wrest]; subst.
  inversion Hnd as [|? ? Hk Hnd']; subst.
  simpl in Hfuel, Hv, Wv. destruct fuel as [|fuel]; [lia|].
  assert (Hfresh : ~ In k (map fst acc)) by (apply Hacc; left; reflexivity).
  destruct members as [|[k2 v2] members].
  - cbn [map join] in Hs. unfold member_text, encode_basestring in Hs.
    cbn [fst snd] in Hs. rewrite <- !app_assoc in Hs. cbn [app] in Hs.
    rewrite <- !app_assoc in Hs. cbn [app] in Hs.
    inversion Hs as [Hs']. clear Hs. 
    rewrite (parse_members_step fuel k v wc mode (w0 ++ 125%N :: rest) acc); auto;
      [|lia|apply delim_ws; auto].
    rewrite skip_ws_all by exact Hw0.
    rewrite (skip_ws_delim_free _ 125%N eq_refl). reflexivity.
  - change (join (44%N :: w1) (map (member_text mode wc) ((k, v) :: (k2, v2) :: members)))
      with (member_text mode wc (k, v) ++ (44%N :: w1)
            ++ join (44%N :: w1) (map (member_text mode wc) ((k2, v2) :: members))) in Hs.
    set (later := join (44%N :: w1) (map (member_text mode wc) ((k2, v2) :: members))) in *.
    assert (Hlater : exists t, later ++ w0 ++ 125%N :: rest = 34%N :: t).
    { subst later. destruct members as [|m3 members].
      - cbn [map join]. unfold member_text, encode_basestring. cbn [app]. eauto.
      - change (join (44%N :: w1) (map (member_text mode wc) ((k2, v2) :: m3 :: members)))
          with (member_text mode wc (k2, v2) ++ (44%N :: w1)
                ++ join (44%N :: w1) (map (member_text mode wc) (m3 :: members))).
        unfold member_text at 1, encode_basestring. cbn [app]. eauto. }
    destruct Hlater as [t Ht].
    unfold member_text at 1, encode_basestring in Hs.
    cbn [fst snd] in Hs. rewrite <- !app_assoc in Hs. cbn [app] in Hs.
    rewrite <- !app_assoc in Hs. cbn [app] in Hs.
    inversion Hs as [Hs']. clear Hs.
    rewrite (parse_members_step fuel k v wc mode
               (44%N :: w1 ++ later ++ w0 ++ 125%N :: rest) acc); auto;
      [|lia|simpl; auto].
    rewrite (skip_ws_delim_free _ 44%N eq_refl).
    change (44 =? 125)%N with false. change (44 =? 44)%N with true. cbv iota.
    rewrite skip_ws_all by exact Hw1. rewrite Ht.
    rewrite (skip_ws_delim_free _ 34%N eq_refl).
    change (34 =? 34)%N with true. cbv iota.
    rewrite (IH Hrest Wrest ltac:(discriminate) Hnd' fuel (acc ++ [(k, v)]) rest t).
    + now rewrite <- app_assoc.
    + simpl in *. lia.
    + intros k' Hk' Hin. rewrite map_app, in_app_iff in Hin. simpl in Hin.
      destruct Hin as [Hin|[<-|[]]].
      * apply (Hacc k'); [right; exact Hk'|exact Hin].
      * apply Hk. exact Hk'.
    + symmetry. exact Ht.
Qed.

Lemma render_array (mode : option nat) (x : json) (items : list json) :
  render mode (JArr (x :: items))
  = 91%N :: join [44%N] (map (render None) (x :: items)) ++ [93%N].
Proof. reflexivity. Qed.

Lemma render_object (mode : option nat) (m : pystr * json) (members : pydict json) :
  render mode (JObj (m :: members))
  = match mode with
    | None =>
        123%N :: join (44%N :: []) (map (member_text None []) (m :: members))
        ++ [] ++ [125%N]
    | Some level =>
        123%N :: (10%N :: str_times [32%N] (S level))
        ++ join (44%N :: 10%N :: str_times [32%N] (S level))
             (map (member_text (Some (S level)) [32%N]) (m :: members))
        ++ (10%N :: str_times [32%N] level) ++ [125%N]
    end.
Proof. destruct mode; reflexivity. Qed.

Lemma spaces_ws (n : nat) : forallb is_ws (str_times [32%N] n) = true.
Proof. induction n; simpl; auto. Qed.

Lemma join_members_head (sep wc : pystr) (mode : option nat) (m : pystr * json)
    (members : pydict json) (rest : pystr) :
  exists t, join sep (map (member_text mode wc) (m :: members)) ++ rest = 34%N :: t.
Proof.
  destruct members as [|m2 members].
  - cbn [map join]. unfold member_text, encode_basestring. cbn [app]. eauto.
  - change (join sep (map (member_text mode wc) (m :: m2 :: members)))
      with (member_text mode wc m ++ sep ++ join sep (map (member_text mode wc) (m2 :: members))).
    unfold member_text at 1, encode_basestring. cbn [app]. eauto.
Qed.

(** Reading the text of a value gives the value back. *)
Lemma render_reads_back (v : json) : wf_json v -> reads_back v.
Proof.
  induction v as [| b | z | x | s | items IH | members IH] using json_induction;
    intros Hwf mode fuel rest Hfuel Hrest; simpl in Hfuel;
    (destruct fuel as [|fuel]; [lia|]).
  - reflexivity.
  - destruct b; reflexivity.
  - apply scan_once_number, scan_number_int. exact Hrest.
  - destruct Hwf as [Htok Heq]. cbn [render].
    rewrite (scan_once_float fuel _ rest Htok Hrest). now rewrite Heq.
  - apply scan_once_string.
  - destruct items as [|x items]; [reflexivity|].
    simpl in Hwf. fold (fold_right (fun x acc => wf_json x /\ acc) True items) in Hwf.
    assert (Hwfs : Forall wf_json (x :: items)).
    { apply wf_items. exact Hwf. }
    assert (Hrbs : Forall reads_back (x :: items)).
    { clear - IH Hwfs. induction IH as [|y l Hy Hl IHl]; [constructor|].
      inversion Hwfs; subst. constructor; auto. }
    rewrite render_array. cbn [app]. rewrite <- app_assoc. cbn [app scan_once].
    change (91 =? 34)%N with false. change (91 =? 123)%N with false.
    change (91 =? 91)%N with true. cbv iota.
    pose proof (parse_items_render (x :: items) Hrbs Hwfs ltac:(discriminate)
                  fuel [] rest ltac:(simpl in *; lia)) as Hitems.
    assert (Hhead : exists c t,
              join [44%N] (map (render None) (x :: items)) ++ 93%N :: rest = c :: t
              /\ is_ws c = false /\ c <> 93%N).
    { inversion Hwfs; subst.
      destruct (render_head None x ltac:(assumption)) as (c & t & E & Hc & H93 & _).
      destruct items as [|y items'].
      - cbn [map join]. rewrite E. cbn [app]. eauto.
      - change (join [44%N] (map (render None) (x :: y :: items')))
          with (render None x ++ [44%N] ++ join [44%N] (map (render None) (y :: items'))).
        rewrite E. cbn [app]. eauto. }
    destruct Hhead as (c & t & E & Hc & H93).
    rewrite E in *. rewrite (skip_ws_delim_free _ c Hc).
    apply N.eqb_neq in H93. rewrite H93, Hitems. reflexivity.
  - destruct members as [|m members]; [reflexivity|].
    destruct Hwf as [Hnd Hwf]. apply wf_members in Hwf.
    assert (Hrbs : Forall (fun kv => reads_back (snd kv)) (m :: members)).
    { clear - IH Hwf. induction IH as [|y l Hy Hl IHl]; [constructor|].
      inversion Hwf; subst. constructor; auto. }
    rewrite render_object.
    destruct mode as [level|].
    + pose proof (spaces_ws (S level)) as Hs1. pose proof (spaces_ws level) as Hs0.
      set (w1 := 10%N :: str_times [32%N] (S level)) in *.
      set (w0 := 10%N :: str_times [32%N] level) in *.
      destruct (join_members_head (44%N :: w1) [32%N] (Some (S level)) m members
                  (w0 ++ 125%N :: rest)) as [t Ht].
      cbn [app scan_once]. rewrite <- !app_assoc. cbn [app].
      change (123 =? 34)%N with false. change (123 =? 123)%N with true. cbv iota.
      rewrite (skip_ws_all w1) by (subst w1; simpl; exact Hs1).
      rewrite Ht. rewrite (skip_ws_delim_free _ 34%N eq_refl).
      change (34 =? 125)%N with false. change (34 =? 34)%N with true. cbv iota.
      rewrite (parse_members_render w1 w0 [32%N] (Some (S level))
                 ltac:(subst w1; simpl; exact Hs1) ltac:(subst w0; simpl; exact Hs0) eq_refl
                 (m :: members) Hrbs Hwf ltac:(discriminate) Hnd fuel [] rest t
                 ltac:(simpl in *; lia) ltac:(intros ? ? []) (eq_sym Ht)).
      reflexivity.
    + destruct (join_members_head [44%N] [] None m members ([] ++ 125%N :: rest)) as [t Ht].
      cbn [app scan_once]. rewrite <- !app_assoc.
      change (123 =? 34)%N with false. change (123 =? 123)%N with true. cbv iota.
      cbn [app] in *. rewrite Ht. rewrite (skip_ws_delim_free _ 34%N eq_refl).
      change (34 =? 125)%N with false. change (34 =? 34)%N with true. cbv iota.
      rewrite (parse_members_render [] [] [] None eq_refl eq_refl eq_refl
                 (m :: members) Hrbs Hwf ltac:(discriminate) Hnd fuel [] rest t
                 ltac:(simpl in *; lia) ltac:(intros ? ? []) (eq_sym Ht)).
      reflexivity.
Qed.

(** *** The text is long enough for the fuel of [json_loads] *)

Lemma join_weight {A} (f : A -> pystr) (g : A -> nat) (sep : pystr) (l : list A) :
  Forall (fun x => g x <= length (f x)) l -> 1 <= length sep ->
  list_sum (map (fun x => S (g x)) l) <= S (length (join sep (map f l))).
Proof.
  intros Hl Hsep. induction Hl as [|x l Hx Hl IH]; [simpl; lia|].
  destruct l as [|y l].
  - simpl. lia.
  - change (join sep (map f (x :: y :: l)))
      with (f x ++ sep ++ join sep (map f (y :: l))).
    change (list_sum (map (fun x => S (g x)) (x :: y :: l)))
      with (S (g x) + list_sum (map (fun x => S (g x)) (y :: l))).
    rewrite !length_app. lia.
Qed.

Lemma render_weight (v : json) : wf_json v -> forall mode, weight v <= length (render mode v).
Proof.
  induction v as [| b | z | x | s | items IH | members IH] using json_induction;
    intros Hwf mode.
  - simpl. lia.
  - destruct b; simpl; lia.
  - destruct (int_repr_head z) as (c & t & E & _). cbn [render weight]. rewrite E. simpl. lia.
  - destruct (float_token_head _ (proj1 Hwf)) as (c & t & E & _).
    cbn [render weight]. rewrite E. simpl. lia.
  - simpl. lia.
  - destruct items as [|x items]; [simpl; lia|].
    simpl in Hwf. fold (fold_right (fun x acc => wf_json x /\ acc) True items) in Hwf.
    assert (Hwfs : Forall wf_json (x :: items)) by (apply wf_items; exact Hwf).
    rewrite render_array. cbn [weight length]. rewrite length_app. cbn [length].
    assert (Hall : Forall (fun y => weight y <= length (render None y)) (x :: items)).
    { clear - IH Hwfs. induction IH as [|y l Hy Hl IHl]; [constructor|].
      inversion Hwfs; subst. constructor; auto. }
    pose proof (join_weight (render None) weight [44%N] (x :: items) Hall ltac:(simpl; lia)).
    lia.
  - destruct members as [|m members]; [simpl; lia|].
    destruct Hwf as [Hnd Hwf]. apply wf_members in Hwf.
    rewrite render_object. cbn [weight].
    assert (Hall : forall md wc,
              Forall (fun kv => weight (snd kv) <= length (member_text md wc kv))
                     (m :: members)).
    { intros md wc. clear - IH Hwf. induction IH as [|y l Hy Hl IHl]; [constructor|].
      inversion Hwf; subst. constructor; auto.
      unfold member_text. rewrite length_app. simpl. rewrite !length_app.
      specialize (Hy ltac:(assumption) md). lia. }
    destruct mode as [level|].
    + pose proof (join_weight (member_text (Some (S level)) [32%N])
                    (fun kv => weight (snd kv))
                    (44%N :: 10%N :: str_times [32%N] (S level)) (m :: members)
                    (Hall _ _) ltac:(simpl; lia)).
      cbn [length]. rewrite !length_app. cbn [length]. lia.
    + pose proof (join_weight (member_text None []) (fun kv => weight (snd kv))
                    [44%N] (m :: members) (Hall _ _) ltac:(simpl; lia)).
      cbn [length]. rewrite !length_app. cbn [length]. lia.
Qed.

(** Reading the canonical text of a value gives the value back. *)
Lemma json_loads_canonical (v : json) : wf_json v -> json_loads (canonical v) = Some v.
Proof.
  intros Hwf. unfold json_loads, canonical.
  destruct (render_head (Some 0) v Hwf) as (c & t & E & Hc & _).
  assert (Hskip : skip_ws (render (Some 0) v) = render (Some 0) v).
  { rewrite E. apply skip_ws_delim_free. exact Hc. }
  rewrite Hskip.
  pose proof (render_reads_back v Hwf (Some 0) (S (length (render (Some 0) v))) []
                ltac:(pose proof (render_weight v Hwf (Some 0)); lia) I) as H.
  rewrite List.app_nil_r in H. rewrite H. reflexivity.
Qed.

(** *** What [json.loads] builds is well formed *)

Lemma dict_set_keys {V} (k : pystr) (v : V) (d : pydict V) :
  map fst (dict_set k v d) = if dict_has k d then map fst d else map fst d ++ [k].
Proof.
  unfold dict_has. induction d as [|[k' v'] d IH]; simpl; [reflexivity|].
  destruct (str_eqb k k'); simpl; [reflexivity|].
  rewrite IH. destruct (dict_get k d); reflexivity.
Qed.

Lemma dict_has_false {V} (k : pystr) (d : pydict V) :
  dict_has k d = false -> ~ In k (map fst d).
Proof.
  unfold dict_has. induction d as [|[k' v'] d IH]; simpl; [tauto|].
  destruct (str_eqb_spec k k') as [->|Hne]; [discriminate|].
  intros H [Heq|Hin]; [congruence|]. exact (IH H Hin).
Qed.

Lemma dict_set_wf (k : pystr) (v : json) (d : pydict json) :
  wf_json v -> wf_dict d -> wf_dict (dict_set k v d).
Proof.
  intros Hv [Hnd Hall]. split.
  - rewrite dict_set_keys. destruct (dict_has k d) eqn:E; [exact Hnd|].
    apply NoDup_app; [exact Hnd|repeat constructor; simpl; tauto|].
    intros x Hx [<-|[]]. exact (dict_has_false k d E Hx).
  - apply dict_set_Forall; auto.
Qed.

Lemma scan_wf :
  float_laws ->
  forall fuel,
    (forall s v r, scan_once fuel s = Some (v, r) -> wf_json v)
    /\ (forall s acc l r,
          parse_items fuel s acc = Some (l, r) -> Forall wf_json acc -> Forall wf_json l)
    /\ (forall s acc m r,
          parse_members fuel s acc = Some (m, r) -> wf_dict acc -> wf_dict m).
Proof.
  intros Hlaw. induction fuel as [|fuel (IHv & IHi & IHm)].
  - split; [|split]; intros; discriminate.
  - split; [|split].
    + intros s v r. cbn [scan_once]. destruct s as [|c t]; [discriminate|].
      destruct (c =? 34)%N.
      { destruct (scanstring t) as [[str r']|]; [|discriminate].
        intros H; inversion H; subst. exact I. }
      destruct (c =? 123)%N.
      { destruct (skip_ws t) as [|d r1]; [discriminate|].
        destruct (d =? 125)%N; [intros H; inversion H; subst; simpl; split; constructor|].
        destruct (d =? 34)%N; [|discriminate].
        destruct (parse_members fuel r1 []) as [[m r']|] eqn:E; [|discriminate].
        intros H; inversion H; subst.
        destruct (IHm _ _ _ _ E) as [Hnd Hall]; [split; constructor|].
        simpl. split; [exact Hnd|]. apply wf_members. exact Hall. }
      destruct (c =? 91)%N.
      { destruct (skip_ws t) as [|d r1]; [discriminate|].
        destruct (d =? 93)%N; [intros H; inversion H; subst; exact I|].
        destruct (parse_items fuel (d :: r1) []) as [[l r']|] eqn:E; [|discriminate].
        intros H; inversion H; subst.
        simpl. apply wf_items. apply (IHi _ _ _ _ E). constructor. }
      destruct (starts_with (py "null") (c :: t));
        [intros H; inversion H; subst; exact I|].
      destruct (starts_with (py "true") (c :: t));
        [intros H; inversion H; subst; exact I|].
      destruct (starts_with (py "false") (c :: t));
        [intros H; inversion H; subst; exact I|].
      destruct (scan_number (c :: t)) as [[v' r']|] eqn:E.
      { intros H; inversion H; subst.
        destruct (scan_number_sound _ _ _ E) as [[z ->]|(l & -> & Hl)]; [exact I|].
        apply Hlaw. exact Hl. }
      destruct (starts_with (py "NaN") (c :: t)).
      { intros H; inversion H; subst. apply Hlaw. left; reflexivity. }
      destruct (starts_with (py "Infinity") (c :: t)).
      { intros H; inversion H; subst. apply Hlaw. right; left; reflexivity. }
      destruct (starts_with (py "-Infinity") (c :: t)); [|discriminate].
      intros H; inversion H; subst. apply Hlaw. right; right; left; reflexivity.
    + intros s acc l r. cbn [parse_items].
      destruct (scan_once fuel s) as [[value r1]|] eqn:E; [|discriminate].
      pose proof (IHv _ _ _ E) as Hvalue.
      destruct (skip_ws r1) as [|d r2]; [discriminate|].
      intros H Hacc.
      assert (Hacc' : Forall wf_json (acc ++ [value])).
      { apply Forall_app; split; [exact Hacc|constructor; [exact Hvalue|constructor]]. }
      destruct (d =? 93)%N; [inversion H; subst; exact Hacc'|].
      destruct (d =? 44)%N; [|discriminate].
      exact (IHi _ _ _ _ H Hacc').
    + intros s acc m r. cbn [parse_members].
      destruct (scanstring s) as [[key r1]|]; [|discriminate].
      destruct (skip_ws r1) as [|c r2]; [discriminate|].
      destruct (c =? 58)%N; [|discriminate].
      destruct (scan_once fuel (skip_ws r2)) as [[value r3]|] eqn:E; [|discriminate].
      pose proof (IHv _ _ _ E) as Hvalue.
      destruct (skip_ws r3) as [|d r4]; [discriminate|].
      intros H Hacc.
      pose proof (dict_set_wf key value acc Hvalue Hacc) as Hacc'.
      destruct (d =? 125)%N; [inversion H; subst; exact Hacc'|].
      destruct (d =? 44)%N; [|discriminate].
      destruct (skip_ws r4) as [|q r5]; [discriminate|].
      destruct (q =? 34)%N; [|discriminate].
      exact (IHm _ _ _ _ H Hacc').
Qed.

Lemma json_loads_wf (text : pystr) (v : json) :
  float_laws -> json_loads text = Some v -> wf_json v.
Proof.
  intros Hlaw. unfold json_loads.
  destruct (scan_once (S (length text)) (skip_ws text)) as [[v' r]|] eqn:E; [|discriminate].
  destruct (skip_ws r); [|discriminate]. intros H; inversion H; subst.
  exact (proj1 (scan_wf Hlaw _) _ _ _ E).
Qed.

(** *** Occurrences and [str.replace] *)

Lemma contains_unfold (t s : pystr) :
  contains t s
  = starts_with t s || match s with [] => false | _ :: s' => contains t s' end.
Proof. destruct s; reflexivity. Qed.

Lemma contains_occurs (t s : pystr) : contains t s = true <-> occurs t s.
Proof.
  split.
  - induction s as [|c s IH]; simpl.
    + rewrite orb_false_r. intros H. destruct (starts_with_inv _ _ H) as [r Hr].
      exists [], r. exact Hr.
    + intros H. apply orb_true_iff in H as [H|H].
      * destruct (starts_with_inv _ _ H) as [r Hr]. exists [], r. exact Hr.
      * destruct (IH H) as (pre & post & ->). exists (c :: pre), post. reflexivity.
  - intros (pre & post & ->). induction pre as [|c pre IH].
    + cbn [app]. rewrite contains_unfold, starts_with_app. reflexivity.
    + cbn [app]. rewrite contains_unfold, IH. apply orb_true_r.
Qed.

Lemma occurs_app_l (t a b : pystr) : occurs t a -> occurs t (a ++ b).
Proof.
  intros (pre & post & ->). exists pre, (post ++ b). now rewrite <- !app_assoc.
Qed.

Lemma occurs_app_r (t a b : pystr) : occurs t b -> occurs t (a ++ b).
Proof.
  intros (pre & post & ->). exists (a ++ pre), post. now rewrite <- !app_assoc.
Qed.

(** A text without a quote that starts before a quote ends before it. *)
Lemma prefix_before_quote (t r a z : pystr) :
  ~ In 34%N t -> t ++ r = a ++ 34%N :: z -> exists l, a = t ++ l.
Proof.
  intros Hq H. apply app_eq_app in H as [l [[-> H]|[-> H]]].
  - destruct l as [|c l]; [exists []; now rewrite !List.app_nil_r|].
    inversion H; subst. exfalso. apply Hq. apply in_or_app. right. left. reflexivity.
  - eauto.
Qed.

Lemma occurs_quote_split (t x y : pystr) :
  ~ In 34%N t -> occurs t (x ++ 34%N :: y) -> occurs t x \/ occurs t y.
Proof.
  intros Hq (pre & post & H). apply app_eq_app in H as [l [[-> H]|[-> H]]].
  - destruct (prefix_before_quote t post l y Hq H) as [l' ->].
    left. exists pre, l'. reflexivity.
  - destruct l as [|c l].
    + simpl in H. destruct t as [|c t].
      * left. exists [], x. reflexivity.
      * inversion H; subst. exfalso. apply Hq. left; reflexivity.
    + inversion H; subst. right. exists l, post. reflexivity.
Qed.

Lemma replace_from_skip (old new x b : pystr) :
  replace_from old new (length x) (x ++ b) = replace_from old new 0 b.
Proof.
  induction x as [|c x IH]; simpl; [|exact IH].
  destruct b; reflexivity.
Qed.

Lemma replace_absent (old new s : pystr) :
  old <> [] -> ~ occurs old s -> str_replace old new s = s.
Proof.
  intros Hne. unfold str_replace. induction s as [|c s IH]; intros Hs; simpl.
  - destruct old; [congruence|reflexivity].
  - destruct (starts_with old (c :: s)) eqn:E.
    + exfalso. apply Hs. destruct (starts_with_inv _ _ E) as [r Hr].
      exists [], r. exact Hr.
    + rewrite IH; [reflexivity|].
      intros (pre & post & ->). apply Hs. exists (c :: pre), post. reflexivity.
Qed.

(** The quoted token, when the token does not occur around it, is
    replaced where it stands and nowhere else. *)
Lemma replace_hole (t new a b : pystr) :
  ~ In 34%N t -> ~ occurs t a -> ~ occurs t b ->
  str_replace (34%N :: t ++ [34%N]) new (a ++ (34%N :: t ++ [34%N]) ++ b) = a ++ new ++ b.
Proof.
  intros Hq Ha Hb. unfold str_replace.
  set (old := 34%N :: t ++ [34%N]).
  assert (Hold : forall s, occurs old s -> occurs t s).
  { intros s (pre & post & ->). exists (pre ++ [34%N]), ([34%N] ++ post).
    subst old. cbn [app]. rewrite <- !app_assoc. reflexivity. }
  induction a as [|c a IH].
  - cbn [app]. subst old. cbn [app replace_from].
    change (34%N :: (t ++ [34%N]) ++ b) with ((34%N :: t ++ [34%N]) ++ b).
    rewrite starts_with_app. cbn [app length Nat.sub].
    rewrite Nat.sub_0_r.
    rewrite (replace_from_skip (34%N :: t ++ [34%N]) new (t ++ [34%N]) b).
    fold (str_replace (34%N :: t ++ [34%N]) new b).
    rewrite replace_absent; [reflexivity|discriminate|].
    intros H. apply Hb. apply Hold. exact H.
  - cbn [app replace_from].
    destruct (starts_with old (c :: a ++ old ++ b)) eqn:E.
    + exfalso. destruct (starts_with_inv _ _ E) as [r Hr].
      subst old. cbn [app] in Hr. inversion Hr as [[Hc Hrest]].
      destruct (prefix_before_quote t ([34%N] ++ r) a ((t ++ [34%N]) ++ b) Hq) as [l Hl].
      { rewrite Hrest, <- app_assoc. reflexivity. }
      apply Ha. exists [c], l. cbn [app]. now rewrite Hl.
    + rewrite IH; [reflexivity|].
      intros (pre & post & ->). apply Ha. exists (c :: pre), post. reflexivity.
Qed.

(** *** The pretty text with placeholders and the canonical text *)

Lemma iterencode_array_compact (level : nat) (x : json) (items : list json) :
  iterencode None [44%N] [58%N] level (JArr (x :: items))
  = 91%N :: join [44%N] (map (iterencode None [44%N] [58%N] (S level)) (x :: items))
    ++ [93%N].
Proof. reflexivity. Qed.

Lemma iterencode_object_compact (level : nat) (m : pystr * json) (members : pydict json) :
  iterencode None [44%N] [58%N] level (JObj (m :: members))
  = 123%N :: join [44%N]
      (map (fun kv => encode_basestring (fst kv) ++ 58%N :: []
                      ++ iterencode None [44%N] [58%N] (S level) (snd kv))
           (m :: members))
    ++ [] ++ [125%N].
Proof. reflexivity. Qed.

(** The one-line text of the encoder is the text of [render] inside a
    list. *)
Lemma compact_render (v : json) :
  forall level, iterencode None [44%N] [58%N] level v = render None v.
Proof.
  induction v as [| b | z | x | s | items IH | members IH] using json_induction;
    intros level; try reflexivity.
  - destruct items as [|x items]; [reflexivity|].
    rewrite iterencode_array_compact, render_array. do 3 f_equal.
    apply map_ext_Forall. revert IH. apply Forall_impl. auto.
  - destruct members as [|m members]; [reflexivity|].
    rewrite iterencode_object_compact, render_object. do 3 f_equal.
    apply map_ext_Forall. revert IH. apply Forall_impl.
    intros kv H. unfold member_text. now rewrite H.
Qed.

Lemma render_list_mode (mode : option nat) (items : list json) :
  render mode (JArr items) = list_to_single_line_json (JArr items).
Proof.
  unfold list_to_single_line_json, json_dumps. cbn [option_map fst snd].
  change (py ",") with [44%N]. change (py ":") with [58%N].
  rewrite compact_render. destruct items; reflexivity.
Qed.

Lemma pretty_scalar (level : nat) (v : json) :
  is_scalar v -> pretty level v = render (Some level) v.
Proof. destruct v as [| [|] | | | | |]; simpl; intros H; try reflexivity; contradiction. Qed.

Lemma pretty_object (level : nat) (m : pystr * json) (members : pydict json) :
  pretty level (JObj (m :: members))
  = 123%N :: (10%N :: str_times [32%N] (S level))
    ++ join (44%N :: 10%N :: str_times [32%N] (S level))
         (map (pretty_member (S level)) (m :: members))
    ++ (10%N :: str_times [32%N] level) ++ [125%N].
Proof. reflexivity. Qed.

Lemma plain_no_quote (t : pystr) : forallb plain_char t = true -> ~ In 34%N t.
Proof.
  intros H Hin. rewrite forallb_forall in H. specialize (H _ Hin). discriminate.
Qed.

Lemma encode_plain (t : pystr) :
  forallb plain_char t = true -> encode_basestring t = 34%N :: t ++ [34%N].
Proof.
  intros H. unfold encode_basestring. do 2 f_equal.
  induction t as [|c t IH]; [reflexivity|].
  simpl in H. apply andb_true_iff in H as [Hc Ht].
  cbn [flat_map]. rewrite (IH Ht). unfold plain_char in Hc.
  apply andb_true_iff in Hc as [Hc H92]. apply andb_true_iff in Hc as [H32 H34].
  apply negb_true_iff in H92, H34. apply N.leb_le in H32.
  unfold escape_char. rewrite H34, H92.
  assert (E : forall k, (k < 32)%N -> (c =? k)%N = false)
    by (intros k Hk; apply N.eqb_neq; lia).
  rewrite !E by lia.
  assert (Hlt : (c <? 32)%N = false) by (apply N.ltb_ge; lia).
  rewrite Hlt. reflexivity.
Qed.

Lemma holed_members_cases (ms ms' : pydict json) (e : pydict pystr) :
  holed_members ms ms' e ->
  (ms = [] /\ ms' = [] /\ e = [])
  \/ (exists m l m' l', ms = m :: l /\ ms' = m' :: l').
Proof. intros H. destruct H; [left; auto|right; eauto 8]. Qed.

(** A text that occurs nowhere in the canonical text and in no token
    occurs nowhere in the pretty text with the tokens. *)
Lemma holed_skeleton :
  (forall v v' e, holed v v' e ->
     forall t level a b,
       ~ In 34%N t ->
       (forall t', In t' (map fst e) -> forallb plain_char t' = true /\ ~ occurs t t') ->
       ~ occurs t (a ++ render (Some level) v ++ b) ->
       ~ occurs t (a ++ pretty level v' ++ b))
  /\ (forall ms ms' e, holed_members ms ms' e ->
        forall t level sep a b,
          ~ In 34%N t ->
          (forall t', In t' (map fst e) -> forallb plain_char t' = true /\ ~ occurs t t') ->
          ~ occurs t (a ++ join sep (map (member_text (Some level) [32%N]) ms) ++ b) ->
          ~ occurs t (a ++ join sep (map (pretty_member level) ms') ++ b)).
Proof.
  apply holed_both.
  - (* a list *)
    intros items token t level a b Hq Htok Hocc.
    destruct (Htok token (or_introl eq_refl)) as [Hplain Hnot].
    rewrite render_list_mode in Hocc.
    unfold pretty. cbn [iterencode]. rewrite (encode_plain token Hplain).
    intros H. cbn [app] in H.
    apply (occurs_quote_split t a _ Hq) in H as [H|H].
    + apply Hocc. apply occurs_app_l. exact H.
    + rewrite <- app_assoc in H. cbn [app] in H.
      apply (occurs_quote_split t token b Hq) in H as [H|H].
      * exact (Hnot H).
      * apply Hocc. apply occurs_app_r, occurs_app_r. exact H.
  - (* an object *)
    intros ms ms' e Hm IHm t level a b Hq Htok Hocc.
    destruct (holed_members_cases ms ms' e Hm) as [(-> & -> & _)|(m & l & m' & l' & -> & ->)];
      [exact Hocc|].
    rewrite render_object in Hocc. rewrite pretty_object.
    set (w1 := 10%N :: str_times [32%N] (S level)) in *.
    set (w0 := 10%N :: str_times [32%N] level) in *.
    specialize (IHm t (S level) (44%N :: w1) (a ++ 123%N :: w1) ((w0 ++ [125%N]) ++ b)
                    Hq Htok).
    match goal with |- ~ occurs t ?x =>
      replace x with ((a ++ 123%N :: w1)
                      ++ join (44%N :: w1) (map (pretty_member (S level)) (m' :: l'))
                      ++ (w0 ++ [125%N]) ++ b) by list_assoc end.
    apply IHm.
    match goal with |- ~ occurs t ?x =>
      match type of Hocc with ~ occurs t ?y => replace x with y by list_assoc end end.
    exact Hocc.
  - (* a scalar *)
    intros v Hv t level a b Hq Htok Hocc. rewrite (pretty_scalar level v Hv). exact Hocc.
  - (* no member *)
    intros t level sep a b Hq Htok Hocc. exact Hocc.
  - (* a member and the members after it *)
    intros k x x' e1 ms ms' e2 Hx IHx Hms IHms t level sep a b Hq Htok Hocc.
    assert (Htok1 : forall t', In t' (map fst e1) ->
                               forallb plain_char t' = true /\ ~ occurs t t').
    { intros t' Ht'. apply Htok. rewrite map_app. apply in_or_app. left. exact Ht'. }
    assert (Htok2 : forall t', In t' (map fst e2) ->
                               forallb plain_char t' = true /\ ~ occurs t t').
    { intros t' Ht'. apply Htok. rewrite map_app. apply in_or_app. right. exact Ht'. }
    destruct (holed_members_cases ms ms' e2 Hms)
      as [(-> & -> & _)|(m & l & m' & l' & -> & ->)].
    + cbn [map join] in *.
      specialize (IHx t level (a ++ encode_basestring k ++ 58%N :: [32%N]) b Hq Htok1).
      match goal with |- ~ occurs t ?y =>
        match type of IHx with _ -> ~ occurs t ?z => replace y with z by list_assoc end end.
      apply IHx.
      match goal with |- ~ occurs t ?y =>
        match type of Hocc with ~ occurs t ?z => replace y with z by list_assoc end end.
      exact Hocc.
    + set (rest := join sep (map (member_text (Some level) [32%N]) (m :: l))) in *.
      set (rest' := join sep (map (pretty_member level) (m' :: l'))) in *.
      change (join sep (map (member_text (Some level) [32%N]) ((k, x) :: m :: l)))
        with (member_text (Some level) [32%N] (k, x) ++ sep ++ rest) in Hocc.
      change (join sep (map (pretty_member level) ((k, x') :: m' :: l')))
        with (pretty_member level (k, x') ++ sep ++ rest').
      set (a1 := a ++ encode_basestring k ++ 58%N :: [32%N]).
      specialize (IHx t level a1 (sep ++ rest ++ b) Hq Htok1).
      specialize (IHms t level sep (a1 ++ pretty level x' ++ sep) b Hq Htok2).
      match goal with |- ~ occurs t ?y =>
        match type of IHms with _ -> ~ occurs t ?z =>
          replace y with z by (subst a1; list_assoc) end end.
      apply IHms. fold rest.
      match goal with |- ~ occurs t ?y =>
        match type of IHx with _ -> ~ occurs t ?z =>
          replace y with z by (subst a1; list_assoc) end end.
      apply IHx.
      match goal with |- ~ occurs t ?y =>
        match type of Hocc with ~ occurs t ?z =>
          replace y with z by (subst a1; list_assoc) end end.
      exact Hocc.
Qed.

Lemma NoDup_app_disjoint {A} (l1 l2 : list A) (x : A) :
  NoDup (l1 ++ l2) -> In x l1 -> ~ In x l2.
Proof.
  induction l1 as [|y l1 IH]; simpl; intros Hnd Hin; [contradiction|].
  inversion Hnd as [|? ? Hy Hrest]; subst.
  destruct Hin as [->|Hin]; [|exact (IH Hrest Hin)].
  intros H2. apply Hy. apply in_or_app. auto.
Qed.

Lemma tokens_ok_app (e1 e2 : pydict pystr) :
  tokens_ok (e1 ++ e2) ->
  tokens_ok e1 /\ tokens_ok e2
  /\ (forall t t', In t (map fst e1) -> In t' (map fst e2) -> ~ occurs t t').
Proof.
  intros (Hplain & Hnd & Hocc). rewrite map_app in *.
  repeat split.
  - intros t Ht. apply Hplain. apply in_or_app. auto.
  - exact (NoDup_app_remove_r _ _ Hnd).
  - intros t t' Ht Ht'. apply Hocc; apply in_or_app; auto.
  - intros t Ht. apply Hplain. apply in_or_app. auto.
  - exact (NoDup_app_remove_l _ _ Hnd).
  - intros t t' Ht Ht'. apply Hocc; apply in_or_app; auto.
  - intros t t' Ht Ht' Ho.
    assert (t = t') by (apply Hocc; [apply in_or_app; auto|apply in_or_app; auto|exact Ho]).
    subst t'. exact (NoDup_app_disjoint _ _ t Hnd Ht Ht').
Qed.

Lemma splice_app (e1 e2 : pydict pystr) (text : pystr) :
  splice_placeholders (e1 ++ e2) text
  = splice_placeholders e2 (splice_placeholders e1 text).
Proof. unfold splice_placeholders. apply fold_left_app. Qed.

(** Replacing the quoted tokens in the pretty text gives the canonical
    text, when no token occurs in the canonical text around it. *)
Lemma holed_splice :
  (forall v v' e, holed v v' e ->
     forall level a b,
       tokens_ok e ->
       (forall t, In t (map fst e) -> ~ occurs t (a ++ render (Some level) v ++ b)) ->
       splice_placeholders e (a ++ pretty level v' ++ b) = a ++ render (Some level) v ++ b)
  /\ (forall ms ms' e, holed_members ms ms' e ->
        forall level sep a b,
          tokens_ok e ->
          (forall t, In t (map fst e) ->
             ~ occurs t (a ++ join sep (map (member_text (Some level) [32%N]) ms) ++ b)) ->
          splice_placeholders e (a ++ join sep (map (pretty_member level) ms') ++ b)
          = a ++ join sep (map (member_text (Some level) [32%N]) ms) ++ b).
Proof.
  apply holed_both.
  - (* a list *)
    intros items token level a b (Hplain & _ & _) Hfresh.
    specialize (Hplain token (or_introl eq_refl)).
    specialize (Hfresh token (or_introl eq_refl)).
    rewrite render_list_mode in *.
    unfold pretty. cbn [iterencode]. rewrite (encode_plain token Hplain).
    unfold splice_placeholders. cbn [fold_left fst snd].
    apply replace_hole.
    + apply plain_no_quote. exact Hplain.
    + intros H. apply Hfresh. apply occurs_app_l. exact H.
    + intros H. apply Hfresh. apply occurs_app_r, occurs_app_r. exact H.
  - (* an object *)
    intros ms ms' e Hm IHm level a b Hok Hfresh.
    destruct (holed_members_cases ms ms' e Hm)
      as [(-> & -> & ->)|(m & l & m' & l' & -> & ->)]; [reflexivity|].
    rewrite render_object in *. rewrite pretty_object.
    set (w1 := 10%N :: str_times [32%N] (S level)) in *.
    set (w0 := 10%N :: str_times [32%N] level) in *.
    specialize (IHm (S level) (44%N :: w1) (a ++ 123%N :: w1) ((w0 ++ [125%N]) ++ b) Hok).
    match goal with |- splice_placeholders e ?x = ?y =>
      match type of IHm with _ -> splice_placeholders e ?x' = ?y' =>
        replace x with x' by list_assoc; replace y with y' by list_assoc end end.
    apply IHm. intros t Ht.
    match goal with |- ~ occurs t ?x =>
      match type of (Hfresh t Ht) with ~ occurs t ?y => replace x with y by list_assoc end
    end.
    exact (Hfresh t Ht).
  - (* a scalar *)
    intros v Hv level a b _ _. rewrite (pretty_scalar level v Hv). reflexivity.
  - (* no member *)
    intros level sep a b _ _. reflexivity.
  - (* a member and the members after it *)
    intros k x x' e1 ms ms' e2 Hx IHx Hms IHms level sep a b Hok Hfresh.
    destruct (tokens_ok_app e1 e2 Hok) as (Hok1 & Hok2 & Hcross).
    assert (Hfresh1 : forall t, In t (map fst e1) -> In t (map fst (e1 ++ e2))).
    { intros t Ht. rewrite map_app. apply in_or_app. auto. }
    assert (Hfresh2 : forall t, In t (map fst e2) -> In t (map fst (e1 ++ e2))).
    { intros t Ht. rewrite map_app. apply in_or_app. auto. }
    rewrite splice_app.
    destruct (holed_members_cases ms ms' e2 Hms)
      as [(-> & -> & ->)|(m & l & m' & l' & -> & ->)].
    + cbn [map join] in *. unfold splice_placeholders at 1. cbn [fold_left].
      specialize (IHx level (a ++ encode_basestring k ++ 58%N :: [32%N]) b Hok1).
      match goal with |- splice_placeholders e1 ?y = ?y2 =>
        match type of IHx with _ -> splice_placeholders e1 ?z = ?z2 =>
          replace y with z by list_assoc; replace y2 with z2 by list_assoc end end.
      apply IHx. intros t Ht.
      match goal with |- ~ occurs t ?y =>
        match type of (Hfresh t (Hfresh1 t Ht)) with ~ occurs t ?z =>
          replace y with z by list_assoc end end.
      exact (Hfresh t (Hfresh1 t Ht)).
    + set (rest := join sep (map (member_text (Some level) [32%N]) (m :: l))) in *.
      set (rest' := join sep (map (pretty_member level) (m' :: l'))) in *.
      change (join sep (map (member_text (Some level) [32%N]) ((k, x) :: m :: l)))
        with (member_text (Some level) [32%N] (k, x) ++ sep ++ rest) in *.
      change (join sep (map (pretty_member level) ((k, x') :: m' :: l')))
        with (pretty_member level (k, x') ++ sep ++ rest').
      set (a1 := a ++ encode_basestring k ++ 58%N :: [32%N]).
      assert (Hplain1 : forall t, In t (map fst e1) -> ~ In 34%N t).
      { intros t Ht. apply plain_no_quote. apply (proj1 Hok1). exact Ht. }
      (* the tokens of this member do not occur after it *)
      assert (H1 : forall t, In t (map fst e1) ->
                     ~ occurs t (a1 ++ render (Some level) x ++ sep ++ rest' ++ b)).
      { intros t Ht.
        pose proof (proj2 holed_skeleton _ _ _ Hms t level sep
                      (a1 ++ render (Some level) x ++ sep) b (Hplain1 t Ht)) as Hsk.
        match goal with |- ~ occurs t ?y =>
          match type of Hsk with _ -> _ -> ~ occurs t ?z =>
            replace y with z by (subst a1; list_assoc) end end.
        apply Hsk.
        - intros t' Ht'. split; [apply (proj1 Hok2); exact Ht'|apply Hcross; assumption].
        - fold rest.
          match goal with |- ~ occurs t ?y =>
            match type of (Hfresh t (Hfresh1 t Ht)) with ~ occurs t ?z =>
              replace y with z by (subst a1; list_assoc) end end.
          exact (Hfresh t (Hfresh1 t Ht)). }
      specialize (IHx level a1 (sep ++ rest' ++ b) Hok1 H1).
      match goal with |- splice_placeholders e2 (splice_placeholders e1 ?y) = _ =>
        match type of IHx with splice_placeholders e1 ?z = _ =>
          replace y with z by (subst a1; list_assoc) end end.
      rewrite IHx.
      specialize (IHms level sep (a1 ++ render (Some level) x ++ sep) b Hok2).
      fold rest rest' in IHms.
      match goal with |- splice_placeholders e2 ?y = ?y2 =>
        match type of IHms with _ -> splice_placeholders e2 ?z = ?z2 =>
          replace y with z by (subst a1; list_assoc);
          replace y2 with z2 by (subst a1; list_assoc) end end.
      apply IHms. intros t Ht.
      match goal with |- ~ occurs t ?y =>
        match type of (Hfresh t (Hfresh2 t Ht)) with ~ occurs t ?z =>
          replace y with z by (subst a1; list_assoc) end end.
      exact (Hfresh t (Hfresh2 t Ht)).
Qed.

(** *** The tokens of uuid draws *)

Lemma token_plain (h : pystr) :
  forallb is_hex_lower h = true -> forallb plain_char (placeholder_token h) = true.
Proof.
  intros H. unfold placeholder_token. rewrite !forallb_app.
  apply andb_true_iff; split; [reflexivity|].
  apply andb_true_iff; split; [|reflexivity].
  rewrite forallb_forall in *. intros c Hc. specialize (H c Hc).
  unfold is_hex_lower in H. unfold plain_char.
  apply orb_true_iff in H as [H|H]; apply andb_true_iff in H as [H1 H2];
    apply N.leb_le in H1, H2;
    (apply andb_true_iff; split; [apply andb_true_iff; split|]);
    try (apply N.leb_le; lia); apply negb_true_iff; apply N.eqb_neq; lia.
Qed.

Lemma token_inj (h h' : pystr) : placeholder_token h = placeholder_token h' -> h = h'.
Proof.
  unfold placeholder_token. intros H.
  apply app_inv_head in H. apply app_inv_tail in H. exact H.
Qed.

Lemma token_occurs (h h' : pystr) :
  length h = length h' -> occurs (placeholder_token h) (placeholder_token h') -> h = h'.
Proof.
  intros Hlen (pre & post & H).
  assert (Hl : length (placeholder_token h') = length (placeholder_token h)).
  { unfold placeholder_token. rewrite !length_app. lia. }
  rewrite H in Hl. rewrite !length_app in Hl.
  destruct pre as [|c pre]; [|simpl in Hl; lia].
  destruct post as [|c post]; [|simpl in Hl; lia].
  cbn [app] in H. rewrite List.app_nil_r in H. symmetry. apply token_inj. exact H.
Qed.

Lemma distinct_NoDup (l : list pystr) : distinct l = true -> NoDup l.
Proof.
  induction l as [|h t IH]; simpl; intros H; [constructor|].
  apply andb_true_iff in H as [Hh Ht]. constructor; [|auto].
  intros Hin. apply negb_true_iff in Hh.
  assert (existsb (str_eqb h) t = true).
  { apply existsb_exists. exists h. split; [exact Hin|apply str_eqb_refl]. }
  congruence.
Qed.

Lemma dict_has_In {V} (k : pystr) (d : pydict V) :
  dict_has k d = true <-> In k (map fst d).
Proof.
  unfold dict_has. induction d as [|[k' v'] d IH]; simpl.
  - split; [discriminate|tauto].
  - destruct (str_eqb_spec k k') as [->|Hne].
    + split; auto.
    + rewrite IH. split; [auto|]. intros [H|H]; [congruence|exact H].
Qed.

Lemma dict_has_app_false {V} (k : pystr) (d1 d2 : pydict V) :
  dict_has k d1 = false -> ~ In k (map fst d2) -> dict_has k (d1 ++ d2) = false.
Proof.
  intros H1 H2. destruct (dict_has k (d1 ++ d2)) eqn:E; [|reflexivity].
  apply dict_has_In in E. rewrite map_app in E. apply in_app_or in E as [E|E].
  - apply dict_has_In in E. congruence.
  - contradiction.
Qed.

(** *** [replace_lists_with_placeholders] with fresh draws *)

Lemma draws_good_rest (json_text : pystr) (ph e : pydict pystr) (used rest : list pystr) :
  draws_good json_text ph (used ++ rest) ->
  map fst e = map placeholder_token used ->
  draws_good json_text (ph ++ e) rest.
Proof.
  intros [Hnd Hall] He. split; [exact (NoDup_app_remove_l _ _ Hnd)|].
  intros h Hh. destruct (Hall h (in_or_app _ _ _ (or_intror Hh))) as [Hc Hd].
  split; [exact Hc|]. apply dict_has_app_false; [exact Hd|].
  rewrite He. intros Hin. apply in_map_iff in Hin as (h' & Heq & Hin').
  apply token_inj in Heq. subst h'.
  exact (NoDup_app_disjoint _ _ h Hnd Hin' Hh).
Qed.

Lemma rlwp_items_cons (json_text key : pystr) (val : json) (ms : pydict json)
    (st : pydict pystr * list pystr) :
  rlwp_items json_text ((key, val) :: ms) st
  = match replace_lists_with_placeholders json_text val st with
    | None => None
    | Some (val', st1) =>
        match rlwp_items json_text ms st1 with
        | None => None
        | Some (ms'', st2) => Some ((key, val') :: ms'', st2)
        end
    end.
Proof. reflexivity. Qed.

Lemma traverses_items (json_text : pystr) (ms : pydict json) :
  Forall (fun kv => traverses json_text (snd kv)) ms ->
  forall ph uuids,
    draws_good json_text ph uuids ->
    list_sum (map (fun kv => n_lists (snd kv)) ms) <= length uuids ->
    exists ms' e used rest,
      uuids = used ++ rest
      /\ length used = list_sum (map (fun kv => n_lists (snd kv)) ms)
      /\ rlwp_items json_text ms (ph, uuids) = Some (ms', (ph ++ e, rest))
      /\ holed_members ms ms' e /\ map fst e = map placeholder_token used.
Proof.
  induction 1 as [|[k x] ms Hx Hms IH]; intros ph uuids Hgood Hlen.
  - exists [], [], [], uuids. rewrite List.app_nil_r. repeat split; constructor.
  - simpl in Hlen, Hx.
    destruct (Hx ph uuids Hgood ltac:(lia)) as (x' & e1 & used1 & rest1 & -> & Hl1 & Hr1 & Hh1 & Hk1).
    pose proof (draws_good_rest _ _ _ _ _ Hgood Hk1) as Hgood1.
    rewrite length_app in Hlen.
    destruct (IH (ph ++ e1) rest1 Hgood1 ltac:(lia))
      as (ms' & e2 & used2 & rest2 & -> & Hl2 & Hr2 & Hh2 & Hk2).
    exists ((k, x') :: ms'), (e1 ++ e2), (used1 ++ used2), rest2.
    repeat split.
    + now rewrite app_assoc.
    + simpl. rewrite length_app. lia.
    + rewrite rlwp_items_cons, Hr1. unfold pydict in *. rewrite Hr2. now rewrite app_assoc.
    + constructor; assumption.
    + rewrite !map_app. congruence.
Qed.

Lemma traverses_scalar (json_text : pystr) (v : json) :
  is_scalar v -> traverses json_text v.
Proof.
  intros Hv ph uuids Hgood Hlen. exists v, [], [], uuids.
  rewrite List.app_nil_r.
  destruct v; try contradiction; repeat split; constructor; exact I.
Qed.

Lemma traverses_all (json_text : pystr) (v : json) : traverses json_text v.
Proof.
  induction v as [| b | z | x | s | items IH | members IH] using json_induction;
    try (apply traverses_scalar; exact I).
  - intros ph uuids [Hnd Hall] Hlen. simpl in Hlen.
    destruct uuids as [|h rest]; [simpl in Hlen; lia|].
    destruct (Hall h (or_introl eq_refl)) as [Hc Hd].
    exists (JStr (placeholder_token h)),
           [(placeholder_token h, list_to_single_line_json (JArr items))], [h], rest.
    repeat split.
    + cbn [replace_lists_with_placeholders generate_unique_token fst snd].
      rewrite Hc, Hd. cbn [negb andb].
      rewrite dict_set_fresh; [reflexivity|].
      apply dict_has_false. exact Hd.
    + constructor.
  - intros ph uuids Hgood Hlen. cbn [n_lists] in Hlen.
    destruct (traverses_items json_text members IH ph uuids Hgood Hlen)
      as (ms' & e & used & rest & -> & Hl & Hr & Hh & Hk).
    exists (JObj ms'), e, used, rest. repeat split; auto.
    + change (replace_lists_with_placeholders json_text (JObj members) (ph, used ++ rest))
        with (match rlwp_items json_text members (ph, used ++ rest) with
              | None => None
              | Some (members', st') => Some (JObj members', st')
              end).
      now rewrite Hr.
    + constructor. exact Hh.
Qed.

(** *** The round trip of [prettify_json] *)

Lemma fresh_draws_spec (json_text : pystr) (v : json) (uuids : list pystr) :
  fresh_draws json_text v uuids = true ->
  NoDup uuids
  /\ n_lists v <= length uuids
  /\ forall h, In h uuids ->
       length h = 32 /\ forallb is_hex_lower h = true
       /\ contains (placeholder_token h) json_text = false
       /\ ~ occurs (placeholder_token h) (canonical v).
Proof.
  unfold fresh_draws. intros H.
  apply andb_true_iff in H as [H Hn]. apply andb_true_iff in H as [Hd Hall].
  split; [apply distinct_NoDup; exact Hd|].
  split; [apply Nat.leb_le; exact Hn|].
  intros h Hh. rewrite forallb_forall in Hall. specialize (Hall h Hh).
  apply andb_true_iff in Hall as [Hall Hc]. apply andb_true_iff in Hall as [Hu Ht].
  unfold is_uuid_hex in Hu. apply andb_true_iff in Hu as [Hlen Hhex].
  apply Nat.eqb_eq in Hlen. apply negb_true_iff in Ht, Hc.
  repeat split; auto.
  intros Ho. apply contains_occurs in Ho. congruence.
Qed.

(** With fresh draws, [prettify_json] returns the canonical text of the
    value its input reads as. *)
Lemma prettify_json_canonical (text : pystr) (v : json) (vs : VerboseSettings) (w : World) :
  json_loads text = Some v ->
  fresh_draws text v (draws w) = true ->
  fst (prettify_json text vs w) = Returned (canonical v).
Proof.
  intros Hload Hfresh.
  destruct (fresh_draws_spec _ _ _ Hfresh) as (Hnd & Hn & Hall).
  assert (Hgood : draws_good text [] (draws w)).
  { split; [exact Hnd|]. intros h Hh. destruct (Hall h Hh) as (_ & _ & Hc & _). auto. }
  destruct (traverses_all text v [] (draws w) Hgood Hn)
    as (v' & e & used & rest & Hsplit & Hlen & Hr & Hh & Hk).
  unfold prettify_json, is_valid_json. rewrite Hload.
  unfold pydict in *. rewrite Hr. cbn [fst].
  f_equal.
  change (json_dumps (Some 1) (py ",", py ": ") v') with (pretty 0 v').
  assert (Hused : forall h, In h used -> In h (draws w)).
  { intros h Hh'. rewrite Hsplit. apply in_or_app. auto. }
  pose proof (proj1 holed_splice v v' e Hh 0 [] []) as Hs.
  cbn [app] in Hs. rewrite !List.app_nil_r in Hs. apply Hs.
  - (* the tokens *)
    split; [|split].
    + intros t Ht. rewrite Hk in Ht. apply in_map_iff in Ht as (h & <- & Hin).
      apply token_plain. apply (Hall h (Hused h Hin)).
    + rewrite Hk. apply NoDup_map_NoDup_ForallPairs.
      * intros x y _ _. apply token_inj.
      * rewrite Hsplit in Hnd. exact (NoDup_app_remove_r _ _ Hnd).
    + intros t t' Ht Ht' Ho. rewrite Hk in Ht, Ht'.
      apply in_map_iff in Ht as (h & <- & Hin). apply in_map_iff in Ht' as (h' & <- & Hin').
      f_equal. apply token_occurs; [|exact Ho].
      destruct (Hall h (Hused h Hin)) as (-> & _).
      destruct (Hall h' (Hused h' Hin')) as (-> & _). reflexivity.
  - intros t Ht. rewrite Hk in Ht. apply in_map_iff in Ht as (h & <- & Hin).
    apply (Hall h (Hused h Hin)).
Qed.

(** *** Draws that are passed over *)












End RoundTrip.

(** ** Resolution and dispatch ([run_tool]) *)

Section Dispatch.
Context {PL : PyLib}.


Lemma resolve_call_eq (nt : bool) (tool_call tool_name tool_args : json) :
  resolve_call nt tool_call tool_name tool_args
  = match tool_call with
    | JNull => fallback_call nt tool_name tool_args
    | JStr text =>
        match read_payload (match json_loads text with Some v => v | None => JNull end) with
        | Some (name, args) => Resolved name args
        | None => fallback_call nt tool_name tool_args
        end
    | JObj _ =>
        match read_payload tool_call with
        | Some (name, args) => Resolved name args
        | None => fallback_call nt tool_name tool_args
        end
    | _ =>
        Exit (return_or_raise nt JNull
                (mk_exc (py "TypeError") (py "`tool_call` must be of type str, dict or None")))
    end.
Proof. reflexivity. Qed.

Lemma read_payload_name (payload : json) (name : pystr) (args : pydict json) :
  read_payload payload = Some (name, args) -> strip_nonempty name = true.
Proof.
  assert (Hobj : forall m, read_payload (JObj m) = Some (name, args) ->
                           strip_nonempty name = true).
  { intros m. unfold read_payload.
    match goal with |- match ?n with JStr _ => _ | _ => _ end = _ -> _ =>
      destruct n as [| | | |s| |]; try discriminate end.
    match goal with |- match ?a with JObj _ => _ | _ => _ end = _ -> _ =>
      destruct a; try discriminate end.
    destruct (strip_nonempty s) eqn:E; [|discriminate].
    intros H; inversion H; subst. exact E. }
  destruct payload as [| | | | |items|m]; try discriminate; [|apply Hobj].
  destruct items as [|x [|y r]]; try discriminate.
  - destruct x; try discriminate. apply Hobj.
  - destruct x; discriminate.
Qed.

Lemma fallback_call_name (nt : bool) (tool_name tool_args : json) (name : pystr)
    (args : pydict json) :
  fallback_call nt tool_name tool_args = Resolved name args ->
  tool_name = JStr name /\ strip_nonempty name = true
  /\ (tool_args = JNull /\ args = [] \/ tool_args = JObj args).
Proof.
  unfold fallback_call. destruct tool_name as [| | | |s| |]; try discriminate.
  destruct (strip_nonempty s) eqn:E; [|discriminate].
  destruct tool_args; try discriminate; intros H; inversion H; subst; auto.
Qed.

Lemma fallback_call_exit (tool_name tool_args : json) (o : outcome json) :
  fallback_call true tool_name tool_args = Exit o -> o = Returned JNull.
Proof.
  unfold fallback_call, return_or_raise.
  destruct tool_name as [| | | |s| |]; try (intros H; inversion H; reflexivity).
  destruct (strip_nonempty s); [|intros H; inversion H; reflexivity].
  destruct tool_args; try discriminate; intros H; inversion H; reflexivity.
Qed.

Lemma resolve_call_name (nt : bool) (tool_call tool_name tool_args : json) (name : pystr)
    (args : pydict json) :
  resolve_call nt tool_call tool_name tool_args = Resolved name args ->
  strip_nonempty name = true.
Proof.
  rewrite resolve_call_eq.
  assert (Hf : fallback_call nt tool_name tool_args = Resolved name args ->
               strip_nonempty name = true).
  { intros H. apply fallback_call_name in H. tauto. }
  destruct tool_call as [| | | |text|items|m]; try discriminate; try exact Hf.
  - destruct (read_payload _) as [[n a]|] eqn:E; [|exact Hf].
    intros H; inversion H; subst. exact (read_payload_name _ _ _ E).
  - destruct (read_payload _) as [[n a]|] eqn:E; [|exact Hf].
    intros H; inversion H; subst. exact (read_payload_name _ _ _ E).
Qed.

(** X4.  A resolved call never has a blank name: on the primary path and
    on the fallback path alike, a name that is empty or all white space
    is turned down.  So a tool registered under a blank name (from a file
    whose stem holds only white space between the prefix and the suffix)
    is never called, whatever the call. *)
Theorem resolved_name_not_blank :
  forall nt tool_call tool_name tool_args name args,
    resolve_call nt tool_call tool_name tool_args = Resolved name args ->
    strip_nonempty name = true
    /\ (forall tools lvl blank,
           strip_nonempty blank = false ->
           ~ In blank (map fst (snd (run_tool tools (mk_settings lvl nt)
                                              tool_call tool_name tool_args)))).
Proof.
  intros nt tc tn ta name args H.
  pose proof (resolve_call_name nt tc tn ta name args H) as Hn.
  split; [exact Hn|].
  intros tools lvl blank Hb. unfold run_tool. cbn [no_throw]. rewrite H.
  destruct (negb (dict_has name tools)); [intros []|].
  destruct (match dict_get name tools with Some meta => runner meta | None => PNone end)
    as [| | |f]; try (intros []).
  destruct (f args); cbn [snd map fst]; intros [E|[]]; subst; congruence.
Qed.

(** X2.  With errors suppressed [run_tool] raises nothing of its own.
    Whatever the call, the fallback and the registry, it returns a value,
    which is [None] unless an entry point was called and returned it; or
    the entry point it called raised an exception outside [Exception]
    (SystemExit, KeyboardInterrupt), which leaves [run_tool] as it is. *)
Theorem run_tool_lenient_raises_nothing_of_its_own :
  forall tools lvl tool_call tool_name tool_args,
    (exists v,
       fst (run_tool tools (mk_settings lvl true) tool_call tool_name tool_args) = Returned v
       /\ (snd (run_tool tools (mk_settings lvl true) tool_call tool_name tool_args) = []
           -> v = JNull))
    \/ (exists name args meta f ex,
          resolve_call true tool_call tool_name tool_args = Resolved name args
          /\ dict_get name tools = Some meta
          /\ runner meta = PCallable f
          /\ f args = ToolRaises ex
          /\ is_exception ex = false
          /\ run_tool tools (mk_settings lvl true) tool_call tool_name tool_args
             = (Raised ex, [(name, args)])).
Proof.
  intros tools lvl tc tn ta. unfold run_tool, dict_has. cbn [no_throw].
  destruct (resolve_call true tc tn ta) as [name args|o] eqn:E.
  - destruct (dict_get name tools) as [meta|] eqn:Hget; cbn [negb];
      [|left; exists JNull; split; reflexivity].
    destruct (runner meta) as [| | |f] eqn:Hrun;
      try (left; exists JNull; split; reflexivity).
    destruct (f args) as [v|ex] eqn:Hf.
    + left. exists v. split; [reflexivity|discriminate].
    + destruct (is_exception ex) eqn:Hex.
      * left. exists JNull. split; [reflexivity|discriminate].
      * right. exists name, args, meta, f, ex. repeat split; auto.
  - assert (o = Returned JNull) as ->.
    { rewrite resolve_call_eq in E.
      destruct tc as [| | | |text|items|m];
        try (inversion E; reflexivity);
        try (apply fallback_call_exit in E; exact E).
      - destruct (read_payload _) as [[n a]|]; [discriminate|].
        apply fallback_call_exit in E; exact E.
      - destruct (read_payload _) as [[n a]|]; [discriminate|].
        apply fallback_call_exit in E; exact E. }
    left. exists JNull. split; reflexivity.
Qed.

(** X1.  A registered tool whose entry point returns: [run_tool] returns
    that value under either policy, after one call of the entry point
    with the resolved arguments as keyword arguments. *)
Theorem run_tool_dispatches :
  forall tools vs tool_call tool_name tool_args name args meta f v,
    resolve_call (no_throw vs) tool_call tool_name tool_args = Resolved name args ->
    dict_get name tools = Some meta ->
    runner meta = PCallable f ->
    f args = ToolReturns v ->
    run_tool tools vs tool_call tool_name tool_args = (Returned v, [(name, args)]).
Proof.
  intros tools vs tc tn ta name args meta f v Hres Hget Hrun Hf.
  unfold run_tool, dict_has. rewrite Hres, Hget. simpl. rewrite Hrun, Hf. reflexivity.
Qed.

(** X3.  [run_tool] calls at most one entry point, and only the runner
    registered under the name the call resolved to, with the resolved
    arguments. *)
Theorem run_tool_calls_registered_runner :
  forall tools vs tool_call tool_name tool_args,
    snd (run_tool tools vs tool_call tool_name tool_args) = []
    \/ exists name args meta f,
         resolve_call (no_throw vs) tool_call tool_name tool_args = Resolved name args
         /\ dict_get name tools = Some meta
         /\ runner meta = PCallable f
         /\ snd (run_tool tools vs tool_call tool_name tool_args) = [(name, args)].
Proof.
  intros tools vs tc tn ta. unfold run_tool, dict_has.
  destruct (resolve_call (no_throw vs) tc tn ta) as [name args|o]; [|left; reflexivity].
  destruct (dict_get name tools) as [meta|] eqn:Hget; simpl; [|left; reflexivity].
  destruct (runner meta) as [| | |f] eqn:Hrun; try (left; reflexivity).
  right. exists name, args, meta, f.
  destruct (f args); auto.
Qed.



(** X5.  The keys of a payload are read in a fixed order: [name] before
    [function_name] and [parameters] before [arguments], a key that is
    missing or [null] giving way to the next one, and no arguments at all
    standing for the empty mapping.  A payload that resolves wins over
    the fallback, whatever [tool_name] and [tool_args] are. *)
Theorem payload_keys_order :
  forall nt m tool_name tool_args n,
    strip_nonempty n = true ->
    (forall a,
        dict_get (py "name") m = Some (JStr n) ->
        dict_get (py "parameters") m = Some (JObj a) ->
        resolve_call nt (JObj m) tool_name tool_args = Resolved n a)
    /\ (forall a,
           dict_get (py "name") m = Some (JStr n) ->
           get_or_none (py "parameters") m = JNull ->
           dict_get (py "arguments") m = Some (JObj a) ->
           resolve_call nt (JObj m) tool_name tool_args = Resolved n a)
    /\ (forall a,
           get_or_none (py "name") m = JNull ->
           dict_get (py "function_name") m = Some (JStr n) ->
           dict_get (py "parameters") m = Some (JObj a) ->
           resolve_call nt (JObj m) tool_name tool_args = Resolved n a)
    /\ (dict_get (py "name") m = Some (JStr n) ->
        get_or_none (py "parameters") m = JNull ->
        get_or_none (py "arguments") m = JNull ->
        resolve_call nt (JObj m) tool_name tool_args = Resolved n []).
Proof.
  intros nt m tn ta n Hn. rewrite resolve_call_eq. unfold read_payload.
  repeat split.
  - intros a H1 H2. unfold get_or_none. rewrite H1, H2, Hn. reflexivity.
  - intros a H1 H2 H3. rewrite H2. unfold get_or_none. rewrite H1, H3, Hn. reflexivity.
  - intros a H1 H2 H3. rewrite H1. unfold get_or_none. rewrite H2, H3, Hn. reflexivity.
  - intros H1 H2 H3. rewrite H2, H3. unfold get_or_none. rewrite H1, Hn. reflexivity.
Qed.

(** X8.  A [tool_call] text that is no JSON is treated as no [tool_call]
    at all: the fallback name and arguments are used, and missing
    fallback arguments stand for the empty mapping. *)
Theorem undecodable_call_falls_back :
  forall nt text tool_name tool_args,
    json_loads text = None ->
    resolve_call nt (JStr text) tool_name tool_args
    = resolve_call nt JNull tool_name tool_args
    /\ (forall n a,
          strip_nonempty n = true ->
          resolve_call nt (JStr text) (JStr n) (JObj a) = Resolved n a
          /\ resolve_call nt (JStr text) (JStr n) JNull = Resolved n []).
Proof.
  intros nt text tn ta H. rewrite !resolve_call_eq. rewrite H.
  split; [reflexivity|].
  intros n a Hn. rewrite !resolve_call_eq. rewrite H. cbn [read_payload].
  unfold fallback_call. rewrite Hn. split; reflexivity.
Qed.

Lemma fallback_call_raises (nt : bool) (tool_name tool_args : json) (ex : pyexc) :
  fallback_call nt tool_name tool_args = Exit (Raised ex) ->
  exc_type ex = py "ValueError" \/ exc_type ex = py "TypeError".
Proof.
  unfold fallback_call, return_or_raise.
  destruct tool_name as [| | | |s| |]; destruct nt; try discriminate;
    try (intros H; inversion H; subst; cbn [exc_type]; auto; fail).
  - destruct (strip_nonempty s); [|discriminate]. destruct tool_args; discriminate.
  - destruct (strip_nonempty s).
    + destruct tool_args; try discriminate; intros H; inversion H; subst; cbn [exc_type]; auto.
    + intros H; inversion H; subst; cbn [exc_type]; auto.
Qed.

(** X24.  Whatever [run_tool] raises of its own is a [TypeError], a
    [ValueError] or a [RuntimeError]: the errors of the resolution, of
    the lookup and of a registry entry without a callable runner, and the
    [RuntimeError] that wraps an error of the tool.  The one exception of
    another origin is what the called entry point raised outside
    [Exception] (SystemExit, KeyboardInterrupt), which is passed on. *)
Theorem run_tool_error_types :
  forall tools vs tool_call tool_name tool_args ex,
    fst (run_tool tools vs tool_call tool_name tool_args) = Raised ex ->
    In (exc_type ex) [py "TypeError"; py "ValueError"; py "RuntimeError"]
    \/ (is_exception ex = false
        /\ exists name args meta f,
             resolve_call (no_throw vs) tool_call tool_name tool_args = Resolved name args
             /\ dict_get name tools = Some meta
             /\ runner meta = PCallable f
             /\ f args = ToolRaises ex).
Proof.
  intros tools vs tc tn ta ex. unfold run_tool, dict_has.
  assert (Hf : forall o, fallback_call (no_throw vs) tn ta = Exit o -> o = Raised ex ->
                         In (exc_type ex) [py "TypeError"; py "ValueError"; py "RuntimeError"]).
  { intros o Ho ->. destruct (fallback_call_raises _ _ _ _ Ho) as [->| ->];
      [right; left; reflexivity|left; reflexivity]. }
  destruct (resolve_call (no_throw vs) tc tn ta) as [name args|o] eqn:E.
  - unfold return_or_raise.
    destruct (dict_get name tools) as [meta|] eqn:Hget; cbn [negb].
    2:{ destruct (no_throw vs); [discriminate|]. cbn [fst].
        intros H; inversion H; subst. left. right. left. reflexivity. }
    destruct (runner meta) as [| | |f] eqn:Hrun;
      try (destruct (no_throw vs); [discriminate|]; cbn [fst];
           intros H; inversion H; subst; left; right; right; left; reflexivity).
    destruct (f args) as [v|e] eqn:Hcall; [discriminate|].
    destruct (is_exception e) eqn:Hex.
    + destruct (no_throw vs); [discriminate|]. cbn [fst].
      intros H; inversion H; subst. left. right. right. left. reflexivity.
    + cbn [fst]. intros H; inversion H; subst. right. split; [exact Hex|].
      exists name, args, meta, f. auto.
  - cbn [fst]. intros ->. left. rewrite resolve_call_eq in E.
    destruct tc as [| | | |text|items|m];
      try (unfold return_or_raise in E; destruct (no_throw vs); inversion E; subst;
           left; reflexivity);
      try (exact (Hf _ E eq_refl)).
    + destruct (read_payload _) as [[n a]|]; [discriminate|]. exact (Hf _ E eq_refl).
    + destruct (read_payload _) as [[n a]|]; [discriminate|]. exact (Hf _ E eq_refl).
Qed.

End Dispatch.

(** ** More on [prettify_json] *)

Section Canonical.
Context {PL : PyLib}.


(** X10.  [prettify_json] is idempotent: run on its own output, with fresh
    draws again, it returns that output unchanged. *)
Theorem prettify_json_idempotent :
  forall text v vs w vs' w',
    float_laws ->
    json_loads text = Some v ->
    fresh_draws text v (draws w) = true ->
    fresh_draws (canonical v) v (draws w') = true ->
    exists out,
      fst (prettify_json text vs w) = Returned out
      /\ fst (prettify_json out vs' w') = Returned out.
Proof.
  intros text v vs w vs' w' Hlaw Hload Hf Hf'.
  exists (canonical v). split.
  - apply prettify_json_canonical; assumption.
  - apply prettify_json_canonical; [|assumption].
    apply json_loads_canonical. exact (json_loads_wf text v Hlaw Hload).
Qed.

(** X11.  The output of [prettify_json] depends on the value read only:
    two texts that read as the same value give the same output, whatever
    their layout and escapes, the settings and the values drawn for the
    placeholders. *)
Theorem prettify_json_depends_on_value :
  forall text1 text2 v vs1 vs2 w1 w2,
    json_loads text1 = Some v ->
    json_loads text2 = Some v ->
    fresh_draws text1 v (draws w1) = true ->
    fresh_draws text2 v (draws w2) = true ->
    fst (prettify_json text1 vs1 w1) = fst (prettify_json text2 vs2 w2).
Proof.
  intros text1 text2 v vs1 vs2 w1 w2 H1 H2 F1 F2.
  rewrite (prettify_json_canonical text1 v vs1 w1 H1 F1).
  rewrite (prettify_json_canonical text2 v vs2 w2 H2 F2). reflexivity.
Qed.

(** *** [list_to_single_line_json] writes one line *)

Lemma digits_printable (d : pystr) :
  forallb is_digit d = true -> Forall (fun c => (32 <= c)%N) d.
Proof.
  intros H. apply Forall_forall. intros c Hc. rewrite forallb_forall in H.
  specialize (H c Hc). unfold is_digit in H. apply andb_true_iff in H as [H _].
  apply N.leb_le in H. lia.
Qed.

Lemma nat_lexeme_printable (d : pystr) :
  nat_lexeme d = true -> Forall (fun c => (32 <= c)%N) d.
Proof.
  destruct d as [|c r]; [discriminate|]. simpl.
  destruct (c =? 48)%N eqn:E.
  - apply N.eqb_eq in E. subst. destruct r; [|discriminate]. intros _.
    constructor; [lia|constructor].
  - intros H. apply andb_true_iff in H as [Hc Hr].
    apply (digits_printable (c :: r)). simpl. now rewrite Hc, Hr.
Qed.

Lemma int_lexeme_printable (i : pystr) :
  int_lexeme i = true -> Forall (fun c => (32 <= c)%N) i.
Proof.
  destruct i as [|c r]; [discriminate|]. simpl.
  destruct (c =? 45)%N eqn:E.
  - apply N.eqb_eq in E. subst. intros H. constructor; [lia|].
    apply nat_lexeme_printable. exact H.
  - intros H. apply (nat_lexeme_printable (c :: r)). exact H.
Qed.

Lemma digits1_printable (d : pystr) :
  digits1 d = true -> Forall (fun c => (32 <= c)%N) d.
Proof. destruct d; [discriminate|]. apply digits_printable. Qed.

Lemma frac_lexeme_printable (f : pystr) :
  f = [] \/ frac_lexeme f = true -> Forall (fun c => (32 <= c)%N) f.
Proof.
  intros [->|H]; [constructor|]. destruct f as [|c d]; [discriminate|]. simpl in H.
  apply andb_true_iff in H as [Hc Hd]. apply N.eqb_eq in Hc. subst.
  constructor; [lia|]. apply digits1_printable. exact Hd.
Qed.

Lemma exp_lexeme_printable (e : pystr) :
  e = [] \/ exp_lexeme e = true -> Forall (fun c => (32 <= c)%N) e.
Proof.
  intros [->|H]; [constructor|]. destruct e as [|c r]; [discriminate|]. simpl in H.
  apply andb_true_iff in H as [Hc Hr].
  constructor.
  - apply orb_true_iff in Hc as [Hc|Hc]; apply N.eqb_eq in Hc; lia.
  - destruct r as [|x d]; [discriminate|].
    destruct ((x =? 45) || (x =? 43))%N eqn:Ex.
    + constructor; [|apply digits1_printable; exact Hr].
      apply orb_true_iff in Ex as [Ex|Ex]; apply N.eqb_eq in Ex; lia.
    + apply digits1_printable. exact Hr.
Qed.

Lemma float_token_printable (l : pystr) :
  float_token l -> Forall (fun c => (32 <= c)%N) l.
Proof.
  intros [->|[->|[->|(i & f & e & -> & Hi & Hf & He & _)]]].
  - repeat constructor; vm_compute; discriminate.
  - repeat constructor; vm_compute; discriminate.
  - repeat constructor; vm_compute; discriminate.
  - apply Forall_app; split; [apply int_lexeme_printable; exact Hi|].
    apply Forall_app; split;
      [apply frac_lexeme_printable; exact Hf|apply exp_lexeme_printable; exact He].
Qed.

Lemma escape_char_printable (c : N) : Forall (fun c => (32 <= c)%N) (escape_char c).
Proof.
  unfold escape_char.
  repeat match goal with
         | |- context [(?a =? ?b)%N] => destruct (a =? b)%N eqn:?;
             [repeat constructor; lia|]
         end.
  destruct (c <? 32)%N eqn:E.
  - assert (Hh : forall n, (32 <= hex_digit n)%N).
    { intros n. unfold hex_digit. destruct (n <? 10)%N; lia. }
    repeat constructor; try lia; apply Hh.
  - apply N.ltb_ge in E. repeat constructor. exact E.
Qed.

Lemma encode_basestring_printable (s : pystr) :
  Forall (fun c => (32 <= c)%N) (encode_basestring s).
Proof.
  unfold encode_basestring. constructor; [lia|]. apply Forall_app. split.
  - induction s as [|c s IH]; simpl; [constructor|].
    apply Forall_app. split; [apply escape_char_printable|exact IH].
  - repeat constructor. lia.
Qed.

Lemma join_printable (sep : pystr) (parts : list pystr) :
  Forall (fun c => (32 <= c)%N) sep ->
  Forall (Forall (fun c => (32 <= c)%N)) parts ->
  Forall (fun c => (32 <= c)%N) (join sep parts).
Proof.
  intros Hsep Hp. induction Hp as [|x l Hx Hl IH]; [constructor|].
  destruct l as [|y l]; [simpl; exact Hx|].
  change (join sep (x :: y :: l)) with (x ++ sep ++ join sep (y :: l)).
  apply Forall_app; split; [exact Hx|]. apply Forall_app; split; [exact Hsep|exact IH].
Qed.

Lemma int_repr_printable (z : Z) : Forall (fun c => (32 <= c)%N) (int_repr z).
Proof. apply int_lexeme_printable. apply int_repr_lexeme. Qed.

Lemma render_compact_printable (v : json) :
  wf_json v -> Forall (fun c => (32 <= c)%N) (render None v).
Proof.
  induction v as [| b | z | x | s | items IH | members IH] using json_induction;
    intros Hwf.
  - repeat constructor; vm_compute; discriminate.
  - destruct b; repeat constructor; vm_compute; discriminate.
  - apply int_repr_printable.
  - apply float_token_printable. exact (proj1 Hwf).
  - apply encode_basestring_printable.
  - destruct items as [|x items]; [repeat constructor; vm_compute; discriminate|].
    rewrite render_array. constructor; [lia|]. apply Forall_app. split.
    + apply join_printable; [repeat constructor; lia|].
      apply Forall_map. pose proof (proj1 (wf_items _) Hwf) as Hall.
      revert IH Hall. generalize (x :: items). intros l IH Hall.
      induction IH as [|y l Hy Hl IHl]; [constructor|].
      inversion Hall; subst. constructor; auto.
    + repeat constructor. lia.
  - destruct members as [|m members]; [repeat constructor; vm_compute; discriminate|].
    rewrite render_object. constructor; [lia|]. apply Forall_app. split.
    + apply join_printable; [repeat constructor; lia|].
      apply Forall_map. pose proof (proj1 (wf_members _) (proj2 Hwf)) as Hall.
      revert IH Hall. generalize (m :: members). intros l IH Hall.
      induction IH as [|y l Hy Hl IHl]; [constructor|].
      inversion Hall; subst. constructor; auto.
      unfold member_text.
      apply Forall_app. split; [apply encode_basestring_printable|].
      constructor; [lia|]. cbn [app]. auto.
    + repeat constructor. lia.
Qed.

(** X12.  [list_to_single_line_json] writes a single line: its text holds
    no control character (nothing below U+0020), so no line feed, no
    carriage return and no tab, whatever the strings of the value hold. *)
Theorem list_to_single_line_json_one_line :
  forall v,
    wf_json v ->
    Forall (fun c => (32 <= c)%N) (list_to_single_line_json v).
Proof.
  intros v Hwf. unfold list_to_single_line_json, json_dumps. cbn [option_map fst snd].
  change (py ",") with [44%N]. change (py ":") with [58%N].
  rewrite compact_render. apply render_compact_printable. exact Hwf.
Qed.

End Canonical.

(** ** The diagnostics are observational *)

Section Observational.
Context {PL : PyLib}.

Lemma say_mute (lvl : VerboseLevel) (m : diag) (vs : VerboseSettings) (w : World) :
  say lvl m (quiet vs) (mute w) = mute (say lvl m vs w).
Proof. reflexivity. Qed.

Lemma log_mute (lvl : VerboseLevel) (m : diag) (vs : VerboseSettings) (st : scan_state) :
  log lvl m (quiet vs) (mute_st st) = mute_st (log lvl m vs st).
Proof. reflexivity. Qed.

Lemma prettify_json_mute (text : pystr) (vs : VerboseSettings) (w : World) :
  prettify_json text (quiet vs) (mute w)
  = (fst (prettify_json text vs w), mute (snd (prettify_json text vs w))).
Proof.
  unfold prettify_json. cbn [no_throw quiet].
  destruct (is_valid_json text (no_throw vs)) as [[[r v] msg]| |]; try reflexivity.
  destruct r.
  - cbn [draws mute].
    destruct (replace_lists_with_placeholders text v ([], draws w)) as [[t [ph u]]|];
      reflexivity.
  - destruct msg; reflexivity.
Qed.

Lemma extract_fields_mute (p v : bool) (vs : VerboseSettings) (m : pymodule) (w : World) :
  extract_fields p v (quiet vs) m (mute w)
  = (fst (extract_fields p v vs m w), mute (snd (extract_fields p v vs m w))).
Proof.
  unfold extract_fields. cbn [no_throw quiet].
  destruct (negb (is_callable (getattr (tool_run m) PNone))); [reflexivity|].
  destruct (getattr (TOOL_DEFINITION m) PNone) as [| |d|]; try reflexivity.
  destruct (if v || p then _ else _) as [[]|e|]; try reflexivity.
  destruct p; [|reflexivity].
  rewrite prettify_json_mute.
  destruct (prettify_json d vs w) as [[t|e|] w']; reflexivity.
Qed.

Lemma process_file_mute (a : scan_args) (pre suf : pystr) (vs : VerboseSettings)
    (f : pyfile) (st : scan_state) :
  process_file a pre suf (quiet vs) f (mute_st st)
  = flow_map mute_st (process_file a pre suf vs f st).
Proof.
  unfold process_file. cbn [no_throw quiet].
  destruct (negb (str_eqb (f_suffix f) (py ".py"))); [reflexivity|].
  destruct (negb (starts_with pre (f_stem f) && ends_with suf (f_stem f))); [reflexivity|].
  destruct (length (f_stem f) <=? length pre + length suf)%nat; [reflexivity|].
  destruct (f_size f) as [size|ex]; [|destruct (no_throw vs); reflexivity].
  destruct (MAX_TOOL_FILE_SIZE_BYTES <? size)%N; [reflexivity|].
  destruct (f_module f) as [m|ex]; [|destruct (is_exception ex); [destruct (no_throw vs)|]; reflexivity].
  cbn [world set_world bump set_count mute_st].
  change (run_file f (mute (world st))) with (mute (run_file f (world st))).
  rewrite (extract_fields_mute (prettify a) (validate a) vs m (run_file f (world st))).
  destruct (extract_fields (prettify a) (validate a) vs m (run_file f (world st)))
    as [[[d r]|ex|] w']; cbn [fst snd].
  - cbn [tools set_world bump set_count mute_st world stack count].
    destruct (dict_has (module_name_of pre suf (f_stem f)) (tools st)); reflexivity.
  - destruct (is_value_error ex && contains (py "JSON") (exc_text ex));
      destruct (no_throw vs); reflexivity.
  - reflexivity.
Qed.

Lemma process_entry_mute (a : scan_args) (pre suf : pystr) (vs : VerboseSettings)
    (depth : Z) (e : entry) (st : scan_state) :
  process_entry a pre suf (quiet vs) depth e (mute_st st)
  = flow_map mute_st (process_entry a pre suf vs depth e st).
Proof.
  destruct e as [name sl l|f|name]; simpl.
  - destruct sl; [reflexivity|]. destruct (max_depth a <=? depth)%Z; reflexivity.
  - apply process_file_mute.
  - reflexivity.
Qed.

Lemma process_entries_mute (a : scan_args) (pre suf : pystr) (vs : VerboseSettings)
    (depth : Z) (entries : list entry) (st : scan_state) :
  process_entries a pre suf (quiet vs) depth entries (mute_st st)
  = flow_map mute_st (process_entries a pre suf vs depth entries st).
Proof.
  revert st. induction entries as [|e rest IH]; intros st; [reflexivity|].
  cbn [process_entries]. rewrite process_entry_mute.
  destruct (process_entry a pre suf vs depth e st) as [s1|e1 s1|s1]; cbn [flow_map];
    [apply IH|reflexivity|reflexivity].
Qed.

Lemma scan_loop_mute (fuel : nat) (a : scan_args) (pre suf : pystr) (vs : VerboseSettings)
    (st : scan_state) :
  scan_loop fuel a pre suf (quiet vs) (mute_st st)
  = flow_map mute_st (scan_loop fuel a pre suf vs st).
Proof.
  revert st. induction fuel as [|fuel IH]; intros st; cbn [scan_loop].
  - cbn [stack mute_st set_world]. destruct (stack st) as [|[d depth] below]; reflexivity.
  - cbn [stack mute_st set_world]. destruct (stack st) as [|[d depth] below]; [reflexivity|].
    destruct (iterdir d) as [entries|ex].
    + match goal with |- context [process_entries a pre suf (quiet vs) depth entries ?s1] =>
        match goal with |- context [process_entries a pre suf vs depth entries ?s2] =>
          change s1 with (mute_st s2); rewrite (process_entries_mute a pre suf vs depth entries s2);
          destruct (process_entries a pre suf vs depth entries s2) as [s3|e3 s3|s3]
        end end; cbn [flow_map]; [apply IH|reflexivity|reflexivity].
    + cbn [no_throw quiet]. destruct (no_throw vs); [|reflexivity].
      match goal with |- scan_loop fuel a pre suf (quiet vs) ?s1 = flow_map _ (scan_loop fuel a pre suf vs ?s2) =>
        change s1 with (mute_st s2) end.
      apply IH.
Qed.

Lemma find_tools_json_mute (base_dir : result entry) (vs : VerboseSettings) (a : scan_args)
    (w : World) :
  find_tools_json base_dir (quiet vs) a (mute w)
  = (fst (find_tools_json base_dir vs a w), mute (snd (find_tools_json base_dir vs a w))).
Proof.
  unfold find_tools_json. cbn [no_throw quiet].
  destruct (max_depth a <? 0)%Z; [reflexivity|].
  destruct base_dir as [base|ex]; [|reflexivity].
  destruct base as [name sl l|f|name]; try reflexivity.
  match goal with |- context [scan_loop ?n ?a' ?p ?s (quiet vs) ?s1] =>
    match goal with |- context [scan_loop n a' p s vs ?s2] =>
      change s1 with (mute_st s2); rewrite (scan_loop_mute n a' p s vs s2);
      destruct (scan_loop n a' p s vs s2) as [s3|e3 s3|s3]
    end end; reflexivity.
Qed.

(** X19.  The verbosity is observational: two scans that differ in the
    verbosity only end alike (the same registry or the same exception),
    run the same files, use the same draws and issue the same messages;
    they differ in what is printed only. *)
Theorem verbosity_is_observational :
  forall base_dir lvl1 lvl2 nt a w,
    fst (find_tools_json base_dir (mk_settings lvl1 nt) a w)
    = fst (find_tools_json base_dir (mk_settings lvl2 nt) a w)
    /\ mute (snd (find_tools_json base_dir (mk_settings lvl1 nt) a w))
       = mute (snd (find_tools_json base_dir (mk_settings lvl2 nt) a w)).
Proof.
  intros base_dir lvl1 lvl2 nt a w.
  pose proof (find_tools_json_mute base_dir (mk_settings lvl1 nt) a w) as H1.
  pose proof (find_tools_json_mute base_dir (mk_settings lvl2 nt) a w) as H2.
  change (quiet (mk_settings lvl1 nt)) with (quiet (mk_settings lvl2 nt)) in H1.
  rewrite H2 in H1.
  pose proof (f_equal fst H1) as E1. pose proof (f_equal snd H1) as E2.
  cbn [fst snd] in E1, E2. split; symmetry; [exact E1|exact E2].
Qed.

(** *** What is printed *)

Lemma printed_app (l : VerboseLevel) (x y : list (VerboseLevel * diag)) :
  printed l (x ++ y) = printed l x ++ printed l y.
Proof. unfold printed. rewrite filter_app, map_app. reflexivity. Qed.

(** The channel [c'] extends the channel [c] at the verbosity [l]. *)
Lemma print_verbose_extends (l : VerboseLevel) (nt : bool) (lvl : VerboseLevel) (m : diag)
    (c : channel) :
  issued (print_verbose lvl m (mk_settings l nt) c) = issued c ++ [(lvl, m)]
  /\ written (print_verbose lvl m (mk_settings l nt) c) = written c ++ printed l [(lvl, m)].
Proof.
  split; [reflexivity|]. unfold print_verbose, printed, shown. cbn [verbose_level filter fst].
  destruct l; [rewrite List.app_nil_r; reflexivity| | |];
    destruct (includes _ lvl); cbn [map snd]; try reflexivity;
    rewrite List.app_nil_r; reflexivity.
Qed.

Lemma extends_refl (l : VerboseLevel) (c : channel) : extends l c c.
Proof. exists []. rewrite !List.app_nil_r. split; reflexivity. Qed.

Lemma extends_trans (l : VerboseLevel) (c1 c2 c3 : channel) :
  extends l c1 c2 -> extends l c2 c3 -> extends l c1 c3.
Proof.
  intros (n1 & I1 & W1) (n2 & I2 & W2). exists (n1 ++ n2).
  rewrite I2, I1, W2, W1, printed_app, !app_assoc. split; reflexivity.
Qed.

Lemma extends_print (lvl : VerboseLevel) (m : diag) (vs : VerboseSettings) (c : channel) :
  extends (verbose_level vs) c (print_verbose lvl m vs c).
Proof.
  destruct vs as [l nt]. exists [(lvl, m)]. apply print_verbose_extends.
Qed.

Lemma extends_say (c : channel) (lvl : VerboseLevel) (m : diag) (vs : VerboseSettings)
    (w : World) :
  extends (verbose_level vs) c (chan w) ->
  extends (verbose_level vs) c (chan (say lvl m vs w)).
Proof.
  intros H. eapply extends_trans; [exact H|]. apply extends_print.
Qed.

Lemma prettify_json_extends (text : pystr) (vs : VerboseSettings) (w : World) :
  extends (verbose_level vs) (chan w) (chan (snd (prettify_json text vs w))).
Proof.
  unfold prettify_json.
  destruct (is_valid_json text (no_throw vs)) as [[[r v] msg]| |];
    try apply extends_refl.
  destruct r.
  - destruct (replace_lists_with_placeholders text v ([], draws w)) as [[t [ph u]]|];
      apply extends_refl.
  - destruct msg; [apply extends_say|]; apply extends_refl.
Qed.

Lemma extract_fields_extends (p v : bool) (vs : VerboseSettings) (m : pymodule) (w : World) :
  extends (verbose_level vs) (chan w) (chan (snd (extract_fields p v vs m w))).
Proof.
  unfold extract_fields.
  destruct (negb (is_callable (getattr (tool_run m) PNone))); [apply extends_refl|].
  destruct (getattr (TOOL_DEFINITION m) PNone) as [| |d|]; try apply extends_refl.
  destruct (if v || p then _ else _) as [[]|e|]; try apply extends_refl.
  destruct p; [|apply extends_refl].
  pose proof (prettify_json_extends d vs w) as H.
  destruct (prettify_json d vs w) as [[t|e|] w']; exact H.
Qed.

Lemma process_file_extends (a : scan_args) (pre suf : pystr) (vs : VerboseSettings)
    (f : pyfile) (st : scan_state) (c : channel) :
  extends (verbose_level vs) c (chan (world st)) ->
  extends (verbose_level vs) c
          (chan (world (flow_state (process_file a pre suf vs f st)))).
Proof.
  intros H. unfold process_file.
  destruct (negb (str_eqb (f_suffix f) (py ".py"))); [exact H|].
  destruct (negb (starts_with pre (f_stem f) && ends_with suf (f_stem f))); [exact H|].
  destruct (length (f_stem f) <=? length pre + length suf)%nat;
    [apply extends_say; exact H|].
  destruct (f_size f) as [size|ex];
    [|destruct (no_throw vs); apply extends_say; exact H].
  destruct (MAX_TOOL_FILE_SIZE_BYTES <? size)%N; [apply extends_say; exact H|].
  destruct (f_module f) as [m|ex];
    [|destruct (is_exception ex);
      [destruct (no_throw vs); apply extends_say; exact H|exact H]].
  cbn [world set_world bump set_count].
  pose proof (extract_fields_extends (prettify a) (validate a) vs m (run_file f (world st)))
    as He.
  assert (H1 : extends (verbose_level vs) c
                 (chan (snd (extract_fields (prettify a) (validate a) vs m
                               (run_file f (world st)))))).
  { eapply extends_trans; [exact H|exact He]. }
  clear He.
  destruct (extract_fields (prettify a) (validate a) vs m (run_file f (world st)))
    as [[[d r]|ex|] w']; cbn [fst snd] in H1.
  - cbn [tools set_world bump set_count world stack count].
    destruct (dict_has (module_name_of pre suf (f_stem f)) (tools st)).
    + apply extends_say. apply extends_say. exact H1.
    + apply extends_say. exact H1.
  - destruct (is_value_error ex && contains (py "JSON") (exc_text ex));
      destruct (no_throw vs); apply extends_say; exact H1.
  - exact H1.
Qed.

(** X20.  What a scan prints is what it issues, filtered by the verbosity:
    the messages whose level the verbosity covers, none of them at the
    verbosity NONE, in the order they were issued; and a higher
    verbosity shows every level a lower one shows. *)
Theorem printed_is_issued_filtered :
  forall base_dir vs a w,
    (exists new,
        issued (chan (snd (find_tools_json base_dir vs a w))) = issued (chan w) ++ new
        /\ written (chan (snd (find_tools_json base_dir vs a w)))
           = written (chan w) ++ printed (verbose_level vs) new)
    /\ (forall l required,
           level_value (verbose_level vs) <= level_value l ->
           shown (verbose_level vs) required = true -> shown l required = true)
    /\ (forall log, printed NONE log = []).
Proof.
  intros base_dir vs a w. split; [|split].
  - change (extends (verbose_level vs) (chan w)
                    (chan (snd (find_tools_json base_dir vs a w)))).
    unfold find_tools_json.
    destruct (max_depth a <? 0)%Z; [apply extends_refl|].
    destruct base_dir as [base|ex]; [|apply extends_refl].
    destruct base as [name sl l|f|name]; try apply extends_refl.
    match goal with |- context [scan_loop ?n ?a' ?p ?s vs ?st0] =>
      pose proof (@scan_loop_inv _ a' p s vs
                    (fun st => extends (verbose_level vs) (chan w) (chan (world st))))
        as Hinv;
      specialize (fun H1 H2 H3 H4 => Hinv H1 H2 H3 H4 n st0);
      destruct (scan_loop n a' p s vs st0) as [s1|e1 s1|s1] end;
      cbn [fst snd flow_state] in *.
    + apply extends_say. apply extends_say. apply Hinv; auto.
      * intros st lvl m H. apply extends_say. exact H.
      * intros f st H. apply process_file_extends. exact H.
      * apply extends_refl.
    + apply Hinv; auto.
      * intros st lvl m H. apply extends_say. exact H.
      * intros f st H. apply process_file_extends. exact H.
      * apply extends_refl.
    + apply Hinv; auto.
      * intros st lvl m H. apply extends_say. exact H.
      * intros f st H. apply process_file_extends. exact H.
      * apply extends_refl.
  - intros l required Hl. unfold shown, includes.
    destruct (verbose_level vs); [discriminate|destruct l; simpl in Hl; try lia ..];
      intros H; apply Nat.leb_le in H; apply Nat.leb_le; simpl in *; lia.
  - intros log. unfold printed. induction log as [|x log IH]; [reflexivity|exact IH].
Qed.

End Observational.

(** ** What a scan can reach *)

Section Reach.
Context {PL : PyLib}.

Lemma entry_induction (P : entry -> Prop) :
  (forall name sl entries, Forall P entries -> P (EDir name sl (Ok entries))) ->
  (forall name sl ex, P (EDir name sl (Err ex))) ->
  (forall f, P (EFile f)) ->
  (forall name, P (EOther name)) ->
  forall e, P e.
Proof.
  intros Hd He Hf Ho.
  fix IH 1. intros [name sl [entries|ex]|f|name].
  - apply Hd. induction entries as [|c entries IHl]; constructor; [apply IH|exact IHl].
  - apply He.
  - apply Hf.
  - apply Ho.
Qed.

Lemma trim_unfold (k : nat) (name : pystr) (sl : bool) (entries : list entry) :
  trim k (EDir name sl (Ok entries)) = EDir name sl (Ok (map (trim_child k) entries)).
Proof. reflexivity. Qed.

Lemma entry_name_trim (k : nat) (e : entry) : entry_name (trim k e) = entry_name e.
Proof. destruct e as [name sl [entries|ex]|f|name]; reflexivity. Qed.

Lemma iterdir_trim (k : nat) (e : entry) :
  iterdir (trim k e)
  = match iterdir e with
    | Ok entries => Ok (map (trim_child k) entries)
    | Err ex => Err ex
    end.
Proof. destruct e as [name sl [entries|ex]|f|name]; reflexivity. Qed.

Lemma dir_count_prune (e : entry) : dir_count (prune e) <= dir_count e.
Proof. destruct e as [name sl [entries|ex]|f|name]; simpl; lia. Qed.

Lemma dir_count_trim (e : entry) : forall k, dir_count (trim k e) <= dir_count e.
Proof.
  induction e as [name sl entries IH|name sl ex|f|name] using entry_induction;
    intros k; try (simpl; lia).
  rewrite trim_unfold. cbn [dir_count]. apply le_n_S.
  induction IH as [|c l Hc Hl IHl]; [simpl; lia|].
  cbn [map list_sum]. 
  assert (Hch : dir_count (trim_child k c) <= dir_count c).
  { destruct c as [n' sl' l'|f'|n']; cbn [trim_child]; try lia.
    destruct sl'; [apply dir_count_prune|].
    destruct k as [|k']; [apply dir_count_prune|apply Hc]. }
  simpl. simpl in IHl. lia.
Qed.

(** The step on a file carries the stack along. *)
Lemma process_file_set_stack (a : scan_args) (pre suf : pystr) (vs : VerboseSettings)
    (f : pyfile) (k : list (entry * Z)) (st : scan_state) :
  process_file a pre suf vs f (set_stack k st)
  = flow_map (set_stack k) (process_file a pre suf vs f st).
Proof.
  unfold process_file.
  destruct (negb (str_eqb (f_suffix f) (py ".py"))); [reflexivity|].
  destruct (negb (starts_with pre (f_stem f) && ends_with suf (f_stem f))); [reflexivity|].
  destruct (length (f_stem f) <=? length pre + length suf)%nat; [reflexivity|].
  destruct (f_size f) as [size|ex]; [|destruct (no_throw vs); reflexivity].
  destruct (MAX_TOOL_FILE_SIZE_BYTES <? size)%N; [reflexivity|].
  destruct (f_module f) as [m|ex]; [|destruct (is_exception ex); [destruct (no_throw vs)|]; reflexivity].
  cbn [world set_world bump set_count set_stack].
  destruct (extract_fields (prettify a) (validate a) vs m (run_file f (world st)))
    as [[[d r]|ex|] w'].
  - cbn [tools set_world bump set_count world stack count set_stack].
    destruct (dict_has (module_name_of pre suf (f_stem f)) (tools st)); reflexivity.
  - destruct (is_value_error ex && contains (py "JSON") (exc_text ex));
      destruct (no_throw vs); reflexivity.
  - reflexivity.
Qed.

Lemma process_file_trim (a : scan_args) (pre suf : pystr) (vs : VerboseSettings)
    (f : pyfile) (maxd : Z) (st : scan_state) :
  process_file a pre suf vs f (trim_st maxd st)
  = flow_map (trim_st maxd) (process_file a pre suf vs f st).
Proof.
  unfold trim_st at 1. rewrite process_file_set_stack.
  pose proof (process_file_stack a pre suf vs f st) as Hs.
  destruct (process_file a pre suf vs f st) as [s1|e1 s1|s1]; cbn [flow_map flow_state] in *;
    unfold trim_st; rewrite Hs; reflexivity.
Qed.

Lemma trim_dir (k : nat) (name : pystr) (sl : bool) (l : result (list entry)) :
  trim k (EDir name sl l)
  = EDir name sl match l with
                 | Ok entries => Ok (map (trim_child k) entries)
                 | Err ex => Err ex
                 end.
Proof. destruct l; reflexivity. Qed.

Lemma process_entry_trim (a : scan_args) (pre suf : pystr) (vs : VerboseSettings)
    (depth : Z) (c : entry) (st : scan_state) :
  process_entry a pre suf vs depth
    (trim_child (Z.to_nat (max_depth a - depth)) c) (trim_st (max_depth a) st)
  = flow_map (trim_st (max_depth a)) (process_entry a pre suf vs depth c st).
Proof.
  destruct c as [name sl l|f|name]; cbn [trim_child].
  - destruct sl; [reflexivity|].
    destruct (Z.to_nat (max_depth a - depth)) as [|k'] eqn:Hk.
    + cbn [process_entry prune].
      destruct (max_depth a <=? depth)%Z eqn:Hd; [reflexivity|].
      apply Z.leb_gt in Hd. lia.
    + assert (E : trim_item (max_depth a) (EDir name false l, (depth + 1)%Z)
                  = (trim k' (EDir name false l), (depth + 1)%Z)).
      { unfold trim_item. cbn [fst snd].
        replace (Z.to_nat (max_depth a - (depth + 1))) with k' by lia. reflexivity. }
      rewrite trim_dir in *. cbn [process_entry].
      destruct (max_depth a <=? depth)%Z eqn:Hd; [apply Z.leb_le in Hd; lia|].
      cbn [flow_map]. unfold trim_st. cbn [stack set_stack map]. rewrite E. reflexivity.
  - cbn [process_entry]. apply process_file_trim.
  - reflexivity.
Qed.

Lemma process_entries_trim (a : scan_args) (pre suf : pystr) (vs : VerboseSettings)
    (depth : Z) (entries : list entry) (st : scan_state) :
  process_entries a pre suf vs depth
    (map (trim_child (Z.to_nat (max_depth a - depth))) entries) (trim_st (max_depth a) st)
  = flow_map (trim_st (max_depth a)) (process_entries a pre suf vs depth entries st).
Proof.
  revert st. induction entries as [|c rest IH]; intros st; [reflexivity|].
  cbn [map process_entries]. rewrite process_entry_trim.
  destruct (process_entry a pre suf vs depth c st) as [s1|e1 s1|s1]; cbn [flow_map];
    [apply IH|reflexivity|reflexivity].
Qed.

Lemma scan_loop_trim (fuel : nat) (a : scan_args) (pre suf : pystr) (vs : VerboseSettings)
    (st : scan_state) :
  scan_loop fuel a pre suf vs (trim_st (max_depth a) st)
  = flow_map (trim_st (max_depth a)) (scan_loop fuel a pre suf vs st).
Proof.
  revert st. induction fuel as [|fuel IH]; intros st; cbn [scan_loop].
  - unfold trim_st at 1. cbn [stack set_stack].
    destruct (stack st) as [|[d depth] below]; reflexivity.
  - unfold trim_st at 1. cbn [stack set_stack].
    destruct (stack st) as [|[d depth] below] eqn:Hst; [reflexivity|].
    cbn [map]. unfold trim_item at 1. cbn [fst snd].
    rewrite iterdir_trim, entry_name_trim.
    destruct (iterdir d) as [entries|ex].
    + match goal with |- context [process_entries a pre suf vs depth entries ?s2] =>
        match goal with |- context [process_entries a pre suf vs depth (map _ entries) ?s1] =>
          change s1 with (trim_st (max_depth a) s2);
          rewrite (process_entries_trim a pre suf vs depth entries s2);
          destruct (process_entries a pre suf vs depth entries s2) as [s3|e3 s3|s3]
        end end; cbn [flow_map]; [apply IH|reflexivity|reflexivity].
    + destruct (no_throw vs); [|reflexivity].
      match goal with
      |- scan_loop fuel a pre suf vs ?s1 = flow_map _ (scan_loop fuel a pre suf vs ?s2) =>
        change s1 with (trim_st (max_depth a) s2) end.
      apply IH.
Qed.

(** Fuel beyond the directories on the stack changes nothing. *)
Lemma scan_loop_fuel (n : nat) (a : scan_args) (pre suf : pystr) (vs : VerboseSettings) :
  forall m st,
    Forall (fun p => is_dir (fst p) = true) (stack st) ->
    stack_size (stack st) <= n -> stack_size (stack st) <= m ->
    scan_loop n a pre suf vs st = scan_loop m a pre suf vs st.
Proof.
  induction n as [|n IH]; intros m st Hd Hn Hm.
  - destruct (stack st) as [|[d depth] below] eqn:Hst.
    + destruct m; cbn [scan_loop]; rewrite Hst; reflexivity.
    + inversion Hd as [|x l Hx Hl]; subst. rewrite stack_size_cons in Hn.
      destruct d as [name sl [entries|ex]|f|name]; simpl in Hx; try discriminate;
        simpl in Hn; lia.
  - destruct (stack st) as [|[d depth] below] eqn:Hst.
    + destruct m; cbn [scan_loop]; rewrite Hst; reflexivity.
    + inversion Hd as [|x l Hx Hl]; subst. rewrite stack_size_cons in Hn, Hm.
      destruct m as [|m].
      { destruct d as [name sl [entries|ex]|f|name]; simpl in Hx; try discriminate;
          simpl in Hm; lia. }
      cbn [scan_loop]. rewrite Hst.
      destruct d as [name sl [entries|ex]|f|name]; simpl in Hx; try discriminate;
        cbn [dir_count] in Hn, Hm; cbn [iterdir].
      * match goal with |- context [process_entries a pre suf vs depth entries ?s] =>
          pose proof (@process_entries_stack_size _ a pre suf vs depth entries s Hl)
            as [Hd1 Hs1];
          destruct (process_entries a pre suf vs depth entries s) as [s1|e1 s1|s1] end;
          try reflexivity.
        simpl in Hd1, Hs1. apply IH; [exact Hd1|lia|lia].
      * destruct (no_throw vs); [|reflexivity]. apply IH; [exact Hl|simpl; lia|simpl; lia].
Qed.

Lemma file_in_listing (f : pyfile) (name : pystr) (sl : bool) (entries : list entry)
    (c : entry) :
  In c entries -> file_in f c -> file_in f (EDir name sl (Ok entries)).
Proof.
  cbn [file_in]. induction entries as [|x l IH]; [contradiction|].
  intros [->|Hin] Hf; cbn [fold_right]; [left; exact Hf|right; apply IH; assumption].
Qed.

Lemma process_entries_stack_all (a : scan_args) (pre suf : pystr) (vs : VerboseSettings)
    (depth : Z) (entries : list entry) (st : scan_state) (R : entry * Z -> Prop) :
  (forall c, In c entries -> R (c, (depth + 1)%Z)) ->
  Forall R (stack st) ->
  Forall R (stack (flow_state (process_entries a pre suf vs depth entries st))).
Proof.
  revert st. induction entries as [|e rest IH]; intros st HR Hst; [exact Hst|].
  cbn [process_entries].
  assert (He : Forall R (stack (flow_state (process_entry a pre suf vs depth e st)))).
  { destruct e as [name sl l|f|name].
    - rewrite process_entry_push.
      destruct (negb sl && (depth <? max_depth a)%Z); [|exact Hst].
      constructor; [apply HR; left; reflexivity|exact Hst].
    - cbn [process_entry]. rewrite process_file_stack. exact Hst.
    - exact Hst. }
  destruct (process_entry a pre suf vs depth e st) as [s1|e1 s1|s1]; cbn [flow_state] in *;
    [|exact He|exact He].
  apply IH; [|exact He]. intros c Hc. apply HR. right. exact Hc.
Qed.

Lemma scan_loop_executed_in (a : scan_args) (pre suf : pystr) (vs : VerboseSettings)
    (Q : pyfile -> Prop) (fuel : nat) :
  forall st,
    Forall Q (executed (world st)) ->
    Forall (fun item => forall f, file_in f (fst item) -> Q f) (stack st) ->
    Forall Q (executed (world (flow_state (scan_loop fuel a pre suf vs st)))).
Proof.
  induction fuel as [|fuel IH]; intros st Hx Hs; cbn [scan_loop];
    destruct (stack st) as [|[d depth] below] eqn:Hst; try exact Hx.
  inversion Hs as [|x l Hd Hl]; subst. cbn [fst] in Hd.
  destruct (iterdir d) as [entries|ex] eqn:Hit.
  - destruct d as [name sl [l|ex]|f|name]; cbn [iterdir] in Hit; try discriminate.
    injection Hit as ->.
    match goal with |- context [process_entries a pre suf vs depth entries ?s] =>
      pose proof (@process_entries_executed _ a pre suf vs depth entries s Q) as He;
      pose proof (process_entries_stack_all a pre suf vs depth entries s
                    (fun item => forall f, file_in f (fst item) -> Q f)) as Hk;
      destruct (process_entries a pre suf vs depth entries s) as [s1|e1 s1|s1] end;
      cbn [flow_state] in *.
    + apply IH.
      * apply He; [|exact Hx]. intros f Hf. apply Hd.
        apply (file_in_listing f name sl entries (EFile f) Hf). reflexivity.
      * apply Hk; [|exact Hl]. intros c Hc f Hf. apply Hd.
        apply (file_in_listing f name sl entries c Hc Hf).
    + apply He; [|exact Hx]. intros f Hf. apply Hd.
      apply (file_in_listing f name sl entries (EFile f) Hf). reflexivity.
    + apply He; [|exact Hx]. intros f Hf. apply Hd.
      apply (file_in_listing f name sl entries (EFile f) Hf). reflexivity.
  - destruct (no_throw vs); [|exact Hx]. apply IH; [exact Hx|exact Hl].
Qed.

Lemma executed_in_tree (base : entry) (vs : VerboseSettings) (a : scan_args) (w : World) :
  Forall (fun f => In f (executed w) \/ file_in f base)
         (executed (snd (find_tools_json (Ok base) vs a w))).
Proof.
  assert (Hw : Forall (fun f => In f (executed w) \/ file_in f base) (executed w)).
  { apply Forall_forall. intros f Hf. left. exact Hf. }
  unfold find_tools_json.
  destruct (max_depth a <? 0)%Z; [exact Hw|].
  destruct base as [name sl l|f|name]; try exact Hw.
  match goal with |- context [scan_loop ?n ?a' ?p ?s vs ?st0] =>
    pose proof (scan_loop_executed_in a' p s vs
                  (fun f => In f (executed w) \/ file_in f (EDir name sl l)) n st0 Hw) as H;
    destruct (scan_loop n a' p s vs st0) as [s1|e1 s1|s1] end;
    cbn [fst snd flow_state stack] in *;
    (lapply H; [clear H; intros H; exact H|]);
    (constructor; [intros f Hf; right; exact Hf|constructor]).
Qed.

(** X13.  A scan reaches what lies within [max_depth] levels below the
    base directory through directories that are no symbolic links, and
    nothing else: its result and the world it leaves are the same when
    everything beyond is taken away, and every file whose code it runs is
    a file of that part of the tree. *)
Theorem scan_reaches_within_depth :
  forall base vs a w,
    find_tools_json (Ok (trim (Z.to_nat (max_depth a)) base)) vs a w
    = find_tools_json (Ok base) vs a w
    /\ Forall (fun f => In f (executed w)
                        \/ file_in f (trim (Z.to_nat (max_depth a)) base))
              (executed (snd (find_tools_json (Ok base) vs a w))).
Proof.
  intros base vs a w.
  assert (H1 : find_tools_json (Ok (trim (Z.to_nat (max_depth a)) base)) vs a w
               = find_tools_json (Ok base) vs a w).
  { unfold find_tools_json.
    destruct (max_depth a <? 0)%Z; [reflexivity|].
    destruct base as [name sl l|f|name]; try reflexivity.
    rewrite trim_dir.
    set (a' := mk_args (max_depth a) (prefix a) (suffix a) (prettify a)
                       (if prettify a then false else validate a)).
    set (pre := match prefix a with Some p => p | None => [] end).
    set (suf := match suffix a with Some p => p | None => [] end).
    set (l' := match l with
               | Ok entries => Ok (map (trim_child (Z.to_nat (max_depth a))) entries)
               | Err ex => Err ex
               end).
    set (st0 := mk_state [] [(EDir name sl l, 0%Z)] new_counters w).
    assert (E0 : mk_state [] [(EDir name sl l', 0%Z)] new_counters w
                 = trim_st (max_depth a') st0).
    { unfold trim_st, st0. cbn [stack set_stack map tools count world].
      unfold trim_item. cbn [fst snd max_depth a'].
      rewrite Z.sub_0_r, trim_dir. reflexivity. }
    rewrite E0.
    rewrite (scan_loop_fuel (dir_count (EDir name sl l')) a' pre suf vs
               (dir_count (EDir name sl l)) (trim_st (max_depth a') st0)).
    - rewrite scan_loop_trim.
      destruct (scan_loop (dir_count (EDir name sl l)) a' pre suf vs st0) as [s1|e1 s1|s1];
        reflexivity.
    - rewrite <- E0. repeat constructor.
    - rewrite <- E0. cbn [stack]. rewrite stack_size_cons. unfold stack_size. simpl. lia.
    - rewrite <- E0. cbn [stack]. rewrite stack_size_cons.
      pose proof (dir_count_trim (EDir name sl l) (Z.to_nat (max_depth a))) as Hc.
      rewrite trim_dir in Hc. fold l' in Hc. unfold stack_size. simpl. simpl in Hc. lia. }
  split; [exact H1|].
  rewrite <- H1. apply executed_in_tree.
Qed.

End Reach.

(** ** Where the registry comes from *)

Section Provenance.
Context {PL : PyLib}.

Lemma dict_set_Forall_key {V} (P : pystr * V -> Prop) (k : pystr) (v : V) (d : pydict V) :
  P (k, v) -> Forall P d -> Forall P (dict_set k v d).
Proof.
  intros Hnew. induction 1 as [|[k' v'] d Hx Hd IH]; simpl.
  - constructor; auto.
  - destruct (str_eqb_spec k k') as [<-|Hne]; constructor; auto.
Qed.

Lemma dict_has_set {V} (k k' : pystr) (v : V) (d : pydict V) :
  dict_has k d = true -> dict_has k (dict_set k' v d) = true.
Proof.
  rewrite !dict_has_In, dict_set_keys. intros H.
  destruct (dict_has k' d); [exact H|]. apply in_or_app. left. exact H.
Qed.

Lemma dict_has_set_same {V} (k : pystr) (v : V) (d : pydict V) :
  dict_has k (dict_set k v d) = true.
Proof. unfold dict_has. rewrite dict_get_set_same. reflexivity. Qed.

(** The stem of a candidate is the prefix, the name and the suffix. *)
Lemma candidate_stem (pre suf : pystr) (f : pyfile) :
  is_candidate pre suf f = true ->
  f_stem f = pre ++ module_name_of pre suf (f_stem f) ++ suf.
Proof.
  unfold is_candidate. intros H.
  apply andb_true_iff in H as [H Hlen]. apply andb_true_iff in H as [_ H].
  apply andb_true_iff in H as [Hp Hs].
  apply negb_true_iff in Hlen. apply Nat.leb_gt in Hlen.
  destruct (starts_with_inv _ _ Hp) as [r Hr].
  unfold ends_with in Hs. destruct (starts_with_inv _ _ Hs) as [q Hq].
  assert (Hstem : f_stem f = rev q ++ suf).
  { rewrite <- (rev_involutive (f_stem f)), Hq, rev_app_distr, rev_involutive. reflexivity. }
  rewrite Hr in Hlen, Hstem |- *. rewrite length_app in Hlen.
  unfold module_name_of. rewrite skipn_app, skipn_all, Nat.sub_diag. cbn [app skipn].
  f_equal.
  assert (Hrs : r = firstn (length r - length suf) r ++ suf).
  { assert (Hl : length (pre ++ r) = length (rev q ++ suf)) by (rewrite Hstem; reflexivity).
    rewrite !length_app in Hl.
    assert (E1 : skipn (length (rev q)) (pre ++ r) = suf).
    { rewrite Hstem, skipn_app, skipn_all, Nat.sub_diag. reflexivity. }
    rewrite skipn_app in E1.
    replace (skipn (length (rev q)) pre) with (@nil N) in E1
      by (symmetry; apply skipn_all2; lia).
    cbn [app] in E1.
    rewrite <- (firstn_skipn (length (rev q) - length pre) r) at 1.
    rewrite E1. f_equal. f_equal. lia. }
  destruct suf as [|c suf'].
  - rewrite List.app_nil_r. reflexivity.
  - exact Hrs.
Qed.

Lemma extract_fields_returns (p v : bool) (vs : VerboseSettings) (m : pymodule)
    (w w' : World) (descr : pystr) (run : pyval) :
  extract_fields p v vs m w = (Returned (descr, run), w') ->
  run = getattr (tool_run m) PNone
  /\ exists d, getattr (TOOL_DEFINITION m) PNone = PStr d
               /\ (p = false -> descr = d)
               /\ (v || p = true -> json_loads d <> None).
Proof.
  unfold extract_fields.
  destruct (negb (is_callable (getattr (tool_run m) PNone))); [discriminate|].
  destruct (getattr (TOOL_DEFINITION m) PNone) as [| |d|]; try discriminate.
  assert (T : (if p
               then match prettify_json d vs w with
                    | (Returned t, w1) => (Returned (t, getattr (tool_run m) PNone), w1)
                    | (Raised e, w1) => (Raised e, w1)
                    | (Unfinished, w1) => (Unfinished, w1)
                    end
               else (Returned (d, getattr (tool_run m) PNone), w))
              = (Returned (descr, run), w') ->
              run = getattr (tool_run m) PNone /\ (p = false -> descr = d)).
  { destruct p.
    - destruct (prettify_json d vs w) as [[t|e|] w1]; try discriminate.
      intros H; inversion H; subst. split; [reflexivity|discriminate].
    - intros H; inversion H; subst. split; reflexivity. }
  destruct (v || p) eqn:Hvp.
  - unfold is_valid_json. destruct (json_loads d) as [x|] eqn:Hd.
    + intros H. destruct (T H) as [H1 H2]. split; [exact H1|].
      exists d. split; [reflexivity|]. split; [exact H2|]. intros _. rewrite Hd. discriminate.
    + destruct (no_throw vs); discriminate.
  - intros H. destruct (T H) as [H1 H2]. split; [exact H1|].
    exists d. split; [reflexivity|]. split; [exact H2|]. discriminate.
Qed.

Lemma sourced_more (a : scan_args) (before : list pyfile) (st st' : scan_state)
    (g : list pyfile) :
  sourced a before st ->
  executed (world st') = executed (world st) ++ g ->
  tools st' = tools st ->
  sourced a before st'.
Proof.
  intros (new & Hx & Hall) Hx' Ht. exists (new ++ g). split.
  - rewrite Hx', Hx, app_assoc. reflexivity.
  - rewrite Ht. revert Hall. apply Forall_impl. intros kv (f & Hf & Hc).
    exists f. split; [apply in_or_app; left; exact Hf|exact Hc].
Qed.

Lemma process_file_sourced (a : scan_args) (vs : VerboseSettings) (f : pyfile)
    (before : list pyfile) (st : scan_state) :
  sourced a before st ->
  sourced a before (flow_state (process_file a (prefix_of a) (suffix_of a) vs f st)).
Proof.
  intros Hst.
  assert (Hsame : forall st', executed (world st') = executed (world st) ->
                              tools st' = tools st -> sourced a before st').
  { intros st' Hx Ht. apply (sourced_more a before st st' [] Hst); [|exact Ht].
    rewrite List.app_nil_r. exact Hx. }
  assert (Hrun : forall st', executed (world st') = executed (world st) ++ [f] ->
                             tools st' = tools st -> sourced a before st').
  { intros st' Hx Ht. exact (sourced_more a before st st' [f] Hst Hx Ht). }
  unfold process_file.
  destruct (negb (str_eqb (f_suffix f) (py ".py"))) eqn:Hpy;
    [apply Hsame; reflexivity|].
  destruct (negb (starts_with (prefix_of a) (f_stem f) && ends_with (suffix_of a) (f_stem f)))
    eqn:Hname; [apply Hsame; reflexivity|].
  destruct (length (f_stem f) <=? length (prefix_of a) + length (suffix_of a))%nat eqn:Hlen;
    [apply Hsame; reflexivity|].
  assert (Hcand : is_candidate (prefix_of a) (suffix_of a) f = true).
  { unfold is_candidate. apply negb_false_iff in Hpy, Hname. rewrite Hpy, Hname, Hlen.
    reflexivity. }
  destruct (f_size f) as [size|ex] eqn:Hsize;
    [|destruct (no_throw vs); apply Hsame; reflexivity].
  destruct (MAX_TOOL_FILE_SIZE_BYTES <? size)%N eqn:Hbig; [apply Hsame; reflexivity|].
  assert (Hceil : within_ceiling f).
  { exists size. split; [exact Hsize|]. apply N.ltb_ge. exact Hbig. }
  destruct (f_module f) as [m|ex] eqn:Hmod;
    [|destruct (is_exception ex); [destruct (no_throw vs)|]; apply Hrun; reflexivity].
  cbn [world set_world bump set_count].
  pose proof (extract_fields_executed (prettify a) (validate a) vs m (run_file f (world st)))
    as Hx.
  destruct (extract_fields (prettify a) (validate a) vs m (run_file f (world st)))
    as [[[descr run]|ex|] w'] eqn:Hext; cbn [snd] in Hx; cbn [executed run_file] in Hx.
  - apply extract_fields_returns in Hext as (Hr & d & Hd & Hp & Hv).
    destruct Hst as (new & Hnew & Hall).
    assert (Hgoal : sourced a before
              (mk_state (dict_set (module_name_of (prefix_of a) (suffix_of a) (f_stem f))
                                  (mk_entry (PStr descr) run) (tools st))
                        (stack st) (count st) w')).
    { exists (new ++ [f]). split.
      - cbn [world]. rewrite Hx, Hnew, app_assoc. reflexivity.
      - cbn [tools]. apply dict_set_Forall_key.
        + exists f. split; [apply in_or_app; right; left; reflexivity|].
          unfold comes_from. cbn [fst snd runner description].
          split; [exact Hcand|]. split; [exact Hceil|].
          split; [apply candidate_stem; exact Hcand|].
          exists m, d. split; [exact Hmod|]. split; [exact Hr|]. split; [exact Hd|].
          split; [|exact Hv]. intros Hf. rewrite (Hp Hf). reflexivity.
        + revert Hall. apply Forall_impl. intros kv (g & Hg & Hc).
          exists g. split; [apply in_or_app; left; exact Hg|exact Hc]. }
    destruct Hgoal as (new' & Hnew' & Hall').
    cbn [tools set_world bump set_count world stack count].
    destruct (dict_has _ (tools st)); exists new'; split; assumption.
  - destruct (is_value_error ex && contains (py "JSON") (exc_text ex));
      destruct (no_throw vs); (apply Hrun; [exact Hx|reflexivity]).
  - apply Hrun; [exact Hx|reflexivity].
Qed.

(** X15.  Every entry of the registry a scan returns comes from a file the
    scan loaded: a candidate within the size ceiling whose stem is the
    prefix, the key and the suffix, whose [tool_run] is the runner, and
    whose [TOOL_DEFINITION] is a string that is the description itself
    unless [prettify] is on, and that reads as JSON when [validate] or
    [prettify] is on. *)
Theorem registry_entries_have_sources :
  forall base_dir vs a w reg,
    fst (find_tools_json base_dir vs a w) = Returned reg ->
    exists new,
      executed (snd (find_tools_json base_dir vs a w)) = executed w ++ new
      /\ Forall (fun kv => exists f, In f new /\ comes_from a kv f) reg.
Proof.
  intros base_dir vs a w reg. unfold find_tools_json.
  assert (Hnil : forall nt e, return_or_raise nt ([] : pydict tool_entry) e = Returned reg ->
                              exists new, executed w = executed w ++ new
                                /\ Forall (fun kv => exists f, In f new /\ comes_from a kv f)
                                          reg).
  { intros nt e. unfold return_or_raise. destruct nt; [|discriminate].
    intros H; inversion H. exists []. rewrite List.app_nil_r. split; [reflexivity|constructor]. }
  destruct (max_depth a <? 0)%Z; [apply Hnil|].
  destruct base_dir as [base|ex]; [|apply Hnil].
  destruct base as [name sl l|f|name]; try apply Hnil.
  set (a' := mk_args (max_depth a) (prefix a) (suffix a) (prettify a)
                     (if prettify a then false else validate a)).
  change (match prefix a with Some p => p | None => [] end) with (prefix_of a').
  change (match suffix a with Some p => p | None => [] end) with (suffix_of a').
  match goal with |- context [scan_loop ?n a' ?p ?s vs ?st0] =>
    pose proof (@scan_loop_inv _ a' p s vs (sourced a' (executed w))) as Hinv;
    specialize (fun H1 H2 H3 H4 => Hinv H1 H2 H3 H4 n st0);
    destruct (scan_loop n a' p s vs st0) as [s1|e1 s1|s1] end;
    cbn [fst snd flow_state]; try discriminate.
  intros H; inversion H; subst reg. clear H.
  lapply Hinv; [clear Hinv; intros Hinv|intros st k Hs; exact Hs].
  lapply Hinv; [clear Hinv; intros Hinv|intros st g Hs; exact Hs].
  lapply Hinv; [clear Hinv; intros Hinv|intros st lvl m0 Hs; exact Hs].
  lapply Hinv; [clear Hinv; intros Hinv|intros g st Hs; apply process_file_sourced; exact Hs].
  lapply Hinv; [clear Hinv; intros (new & Hx & Hall)|].
  - exists new. split; [exact Hx|].
    cbn [tools log set_world]. revert Hall. apply Forall_impl.
    intros kv (g & Hg & Hc). exists g. split; [exact Hg|].
    destruct Hc as (C1 & C2 & C3 & m0 & d & C4 & C5 & C6 & C7 & C8).
    split; [exact C1|]. split; [exact C2|]. split; [exact C3|].
    exists m0, d. split; [exact C4|]. split; [exact C5|]. split; [exact C6|].
    split; [exact C7|]. intros Hvp. apply C8. cbn [validate prettify a'].
    destruct (prettify a); [apply orb_true_r|exact Hvp].
  - exists []. rewrite List.app_nil_r. split; [reflexivity|constructor].
Qed.

End Provenance.

(** ** What a scan registers *)

Section Completeness.
Context {PL : PyLib}.

Lemma extract_fields_loadable (vs : VerboseSettings) (m : pymodule) (w : World)
    (d : pystr) :
  is_callable (getattr (tool_run m) PNone) = true ->
  getattr (TOOL_DEFINITION m) PNone = PStr d ->
  extract_fields false false vs m w = (Returned (d, getattr (tool_run m) PNone), w).
Proof.
  intros Hc Hd. unfold extract_fields. rewrite Hc, Hd. reflexivity.
Qed.

Lemma process_file_accepts (a : scan_args) (vs : VerboseSettings) (f : pyfile)
    (st st' : scan_state) :
  validate a = false -> prettify a = false ->
  loadable a f ->
  process_file a (prefix_of a) (suffix_of a) vs f st = Next st' ->
  registered a f st'.
Proof.
  intros Hv Hp (Hcand & (size & Hsize & Hsmall) & m & d & Hmod & Hc & Hd).
  unfold is_candidate in Hcand.
  apply andb_true_iff in Hcand as [Hcand Hlen].
  apply andb_true_iff in Hcand as [Hpy Hname].
  apply negb_true_iff in Hlen. apply N.ltb_ge in Hsmall.
  unfold process_file. rewrite Hpy, Hname, Hlen, Hsize, Hsmall, Hmod, Hv, Hp. cbn [negb].
  cbn [world set_world bump set_count].
  rewrite (extract_fields_loadable vs m (run_file f (world st)) d Hc Hd).
  cbn [tools set_world bump set_count world stack count].
  intros H. inversion H; subst st'. clear H. unfold registered.
  destruct (dict_has _ (tools st));
    cbn [tools log set_tools set_world bump set_count world stack count say executed
         run_file];
    (split; [apply dict_has_set_same|apply in_or_app; right; left; reflexivity]).
Qed.

Lemma process_file_tools (a : scan_args) (pre suf : pystr) (vs : VerboseSettings)
    (f : pyfile) (st : scan_state) :
  tools (flow_state (process_file a pre suf vs f st)) = tools st
  \/ exists k e, tools (flow_state (process_file a pre suf vs f st)) = dict_set k e (tools st).
Proof.
  unfold process_file.
  destruct (negb (str_eqb (f_suffix f) (py ".py"))); [left; reflexivity|].
  destruct (negb (starts_with pre (f_stem f) && ends_with suf (f_stem f)));
    [left; reflexivity|].
  destruct (length (f_stem f) <=? length pre + length suf)%nat; [left; reflexivity|].
  destruct (f_size f) as [size|ex]; [|destruct (no_throw vs); left; reflexivity].
  destruct (MAX_TOOL_FILE_SIZE_BYTES <? size)%N; [left; reflexivity|].
  destruct (f_module f) as [m|ex]; [|destruct (is_exception ex); [destruct (no_throw vs)|]; left; reflexivity].
  cbn [world set_world bump set_count].
  destruct (extract_fields (prettify a) (validate a) vs m (run_file f (world st)))
    as [[[descr run]|ex|] w'].
  - right. cbn [tools set_world bump set_count world stack count].
    destruct (dict_has _ (tools st)); eexists; eexists; reflexivity.
  - destruct (is_value_error ex && contains (py "JSON") (exc_text ex));
      destruct (no_throw vs); left; reflexivity.
  - left; reflexivity.
Qed.

Lemma process_file_registered (a : scan_args) (pre suf : pystr) (vs : VerboseSettings)
    (g : pyfile) (a0 : scan_args) (f : pyfile) (st : scan_state) :
  registered a0 f st -> registered a0 f (flow_state (process_file a pre suf vs g st)).
Proof.
  intros [Hk Hx]. split.
  - destruct (process_file_tools a pre suf vs g st) as [->|(k & e & ->)];
      [exact Hk|apply dict_has_set; exact Hk].
  - destruct (@process_file_executed _ a pre suf vs g st) as [E|[E _]]; rewrite E;
      [exact Hx|apply in_or_app; left; exact Hx].
Qed.

Lemma process_entries_registers (a : scan_args) (vs : VerboseSettings) (depth : Z)
    (f : pyfile) (entries : list entry) :
  validate a = false -> prettify a = false ->
  loadable a f ->
  forall st st',
    In (EFile f) entries ->
    process_entries a (prefix_of a) (suffix_of a) vs depth entries st = Next st' ->
    registered a f st'.
Proof.
  intros Hv Hp Hl. induction entries as [|e rest IH]; intros st st' Hin; [contradiction|].
  cbn [process_entries].
  destruct (process_entry a (prefix_of a) (suffix_of a) vs depth e st) as [s1|e1 s1|s1] eqn:E;
    try discriminate.
  intros Hrest. destruct Hin as [->|Hin].
  - cbn [process_entry] in E. pose proof (process_file_accepts a vs f st s1 Hv Hp Hl E) as Hreg.
    assert (Hinv : registered a f
                     (flow_state (process_entries a (prefix_of a) (suffix_of a) vs depth
                                    rest s1))).
    { apply (@process_entries_inv _ a (prefix_of a) (suffix_of a) vs (registered a f));
        try (intros; assumption).
      intros g st0 H0. apply process_file_registered. exact H0. }
    rewrite Hrest in Hinv. exact Hinv.
  - exact (IH s1 st' Hin Hrest).
Qed.

Lemma process_entries_stack_incl (a : scan_args) (pre suf : pystr) (vs : VerboseSettings)
    (depth : Z) (entries : list entry) (st : scan_state) (x : entry * Z) :
  In x (stack st) ->
  In x (stack (flow_state (process_entries a pre suf vs depth entries st))).
Proof.
  revert st. induction entries as [|e rest IH]; intros st Hx; [exact Hx|].
  cbn [process_entries].
  assert (He : In x (stack (flow_state (process_entry a pre suf vs depth e st)))).
  { destruct e as [name sl l|f|name].
    - rewrite process_entry_push.
      destruct (negb sl && (depth <? max_depth a)%Z); [right; exact Hx|exact Hx].
    - cbn [process_entry]. rewrite process_file_stack. exact Hx.
    - exact Hx. }
  destruct (process_entry a pre suf vs depth e st) as [s1|e1 s1|s1]; cbn [flow_state] in *;
    [apply IH; exact He|exact He|exact He].
Qed.

Lemma process_entries_pushes (a : scan_args) (pre suf : pystr) (vs : VerboseSettings)
    (depth : Z) (name : pystr) (l : result (list entry)) (entries : list entry) :
  (depth < max_depth a)%Z ->
  forall st st',
    In (EDir name false l) entries ->
    process_entries a pre suf vs depth entries st = Next st' ->
    In (EDir name false l, (depth + 1)%Z) (stack st').
Proof.
  intros Hd. induction entries as [|e rest IH]; intros st st' Hin; [contradiction|].
  cbn [process_entries].
  destruct (process_entry a pre suf vs depth e st) as [s1|e1 s1|s1] eqn:E;
    try discriminate.
  intros Hrest. destruct Hin as [->|Hin].
  - pose proof (process_entry_push a pre suf vs depth name false l st) as Hp.
    rewrite E in Hp. cbn [flow_state negb andb] in Hp.
    apply Z.ltb_lt in Hd. rewrite Hd in Hp.
    pose proof (process_entries_stack_incl a pre suf vs depth rest s1
                  (EDir name false l, (depth + 1)%Z)) as Hi.
    rewrite Hrest in Hi. apply Hi. rewrite Hp. left. reflexivity.
  - exact (IH s1 st' Hin Hrest).
Qed.

Lemma file_in_dir_inv (f : pyfile) (name : pystr) (sl : bool) (entries : list entry) :
  file_in f (EDir name sl (Ok entries)) -> exists c, In c entries /\ file_in f c.
Proof.
  cbn [file_in]. induction entries as [|x l IH]; cbn [fold_right]; [contradiction|].
  intros [H|H]; [exists x; split; [left; reflexivity|exact H]|].
  destruct (IH H) as (c & Hc & Hf). exists c. split; [right; exact Hc|exact Hf].
Qed.

Lemma scan_loop_registered (a : scan_args) (pre suf : pystr) (vs : VerboseSettings)
    (a0 : scan_args) (f : pyfile) (fuel : nat) (st : scan_state) :
  registered a0 f st -> registered a0 f (flow_state (scan_loop fuel a pre suf vs st)).
Proof.
  apply (@scan_loop_inv _ a pre suf vs (registered a0 f)); try (intros; assumption).
  intros g st0 H0. apply process_file_registered. exact H0.
Qed.

Lemma scan_loop_registers (a : scan_args) (vs : VerboseSettings) (f : pyfile) :
  validate a = false -> prettify a = false ->
  loadable a f ->
  forall fuel st st',
    Forall (fun p => is_dir (fst p) = true) (stack st) ->
    scan_loop fuel a (prefix_of a) (suffix_of a) vs st = Next st' ->
    forall d depth,
      In (d, depth) (stack st) ->
      file_in f (trim (Z.to_nat (max_depth a - depth)) d) ->
      registered a f st'.
Proof.
  intros Hv Hp Hl. induction fuel as [|fuel IH]; intros st st' Hdirs; cbn [scan_loop];
    destruct (stack st) as [|[d0 depth0] below] eqn:Hst;
    [intros _ d depth []|discriminate|intros _ d depth []|].
  inversion Hdirs as [|x l0 Hd0 Hbelow]; subst. cbn [fst] in Hd0.
  destruct d0 as [name sl [entries|ex]|g|name]; try discriminate; cbn [iterdir].
  - match goal with |- context [process_entries a _ _ vs depth0 entries ?s] =>
      set (s0 := s);
      pose proof (@process_entries_stack_size _ a (prefix_of a) (suffix_of a) vs depth0
                    entries s0 Hbelow) as [Hdirs1 _];
      destruct (process_entries a (prefix_of a) (suffix_of a) vs depth0 entries s0)
        as [s1|e1 s1|s1] eqn:Hpe end; try discriminate.
    cbn [flow_state] in Hdirs1.
    intros Hloop d depth [Hin|Hin] Hf.
    + inversion Hin; subst d depth. clear Hin.
      rewrite trim_unfold in Hf. apply file_in_dir_inv in Hf as (c' & Hc' & Hfc).
      apply in_map_iff in Hc' as (c & <- & Hc).
      destruct c as [n' sl' l'|g|n']; cbn [trim_child] in Hfc.
      * destruct sl'; [contradiction|].
        destruct (Z.to_nat (max_depth a - depth0)) as [|k'] eqn:Hk; [contradiction|].
        assert (Hd : (depth0 < max_depth a)%Z) by lia.
        pose proof (process_entries_pushes a (prefix_of a) (suffix_of a) vs depth0 n' l'
                      entries Hd s0 s1 Hc Hpe) as Hpush.
        apply (IH s1 st' Hdirs1 Hloop (EDir n' false l') (depth0 + 1)%Z Hpush).
        replace (Z.to_nat (max_depth a - (depth0 + 1))) with k' by lia. exact Hfc.
      * cbn [file_in] in Hfc. subst g.
        pose proof (process_entries_registers a vs depth0 f entries Hv Hp Hl s0 s1 Hc Hpe)
          as Hreg.
        pose proof (scan_loop_registered a (prefix_of a) (suffix_of a) vs a f fuel s1 Hreg)
          as Hfin.
        rewrite Hloop in Hfin. exact Hfin.
      * contradiction.
    + apply (IH s1 st' Hdirs1 Hloop d depth); [|exact Hf].
      pose proof (process_entries_stack_incl a (prefix_of a) (suffix_of a) vs depth0 entries
                    s0 (d, depth)) as Hi.
      rewrite Hpe in Hi. apply Hi. exact Hin.
  - destruct (no_throw vs); [|discriminate].
    intros Hloop d depth [Hin|Hin] Hf.
    + inversion Hin; subst d depth. contradiction.
    + refine (IH _ st' _ Hloop d depth Hin Hf). exact Hbelow.
Qed.

(** X14.  A scan that does not read the descriptors as JSON ([validate]
    and [prettify] off) and returns has registered every loadable file
    within its reach: for a candidate within the size ceiling whose
    import succeeds, with a callable [tool_run] and a string
    [TOOL_DEFINITION], in the part of the tree that lies within
    [max_depth] through directories that are no symbolic links, the name
    between the prefix and the suffix of its stem is a key of the
    registry, and the code of the file was run. *)
Theorem loadable_files_are_registered :
  forall base vs a w reg f,
    is_dir base = true ->
    (0 <= max_depth a)%Z ->
    validate a = false ->
    prettify a = false ->
    fst (find_tools_json (Ok base) vs a w) = Returned reg ->
    file_in f (trim (Z.to_nat (max_depth a)) base) ->
    loadable a f ->
    dict_has (module_name_of (prefix_of a) (suffix_of a) (f_stem f)) reg = true
    /\ In f (executed (snd (find_tools_json (Ok base) vs a w))).
Proof.
  intros base vs a w reg f Hdir Hdepth Hv Hp Hret Hf Hl. revert Hret. unfold find_tools_json.
  apply Z.ltb_ge in Hdepth. rewrite Hdepth.
  destruct base as [name sl l|g|name]; try discriminate.
  set (a' := mk_args (max_depth a) (prefix a) (suffix a) (prettify a)
                     (if prettify a then false else validate a)).
  change (match prefix a with Some p => p | None => [] end) with (prefix_of a').
  change (match suffix a with Some p => p | None => [] end) with (suffix_of a').
  assert (Hv' : validate a' = false).
  { cbn [validate a']. rewrite Hp. exact Hv. }
  assert (Hl' : loadable a' f) by exact Hl.
  match goal with |- context [scan_loop ?n a' ?p ?s vs ?st0] =>
    pose proof (scan_loop_registers a' vs f Hv' Hp Hl' n st0) as Hreg;
    destruct (scan_loop n a' p s vs st0) as [s1|e1 s1|s1] end;
    cbn [fst snd]; try discriminate.
  intros H; inversion H; subst reg. clear H.
  destruct (Hreg s1 ltac:(repeat constructor) eq_refl (EDir name sl l) 0%Z) as [Hk Hx].
  - left. reflexivity.
  - cbn [max_depth a']. rewrite Z.sub_0_r. exact Hf.
  - split; [exact Hk|exact Hx].
Qed.

End Completeness.

(** ** The counters of a scan *)

Section Counters.
Context {PL : PyLib}.

Lemma dict_set_length {V} (k : pystr) (v : V) (d : pydict V) :
  length (dict_set k v d) <= S (length d).
Proof.
  induction d as [|[k' v'] d IH]; simpl; [lia|].
  destruct (str_eqb k k'); simpl; lia.
Qed.

Lemma process_file_counters (a : scan_args) (pre suf : pystr) (vs : VerboseSettings)
    (f : pyfile) (st : scan_state) :
  counters_ok (count st) (tools st) ->
  counters_ok (count (flow_state (process_file a pre suf vs f st)))
              (tools (flow_state (process_file a pre suf vs f st)))
  /\ dirs_visited (count (flow_state (process_file a pre suf vs f st)))
     = dirs_visited (count st).
Proof.
  unfold counters_ok. intros (H1 & H2 & H3 & H4). unfold process_file.
  destruct (negb (str_eqb (f_suffix f) (py ".py"))); [cbn; lia|].
  destruct (negb (starts_with pre (f_stem f) && ends_with suf (f_stem f))); [cbn; lia|].
  destruct (length (f_stem f) <=? length pre + length suf)%nat; [cbn; lia|].
  destruct (f_size f) as [size|ex]; [|destruct (no_throw vs); cbn; lia].
  destruct (MAX_TOOL_FILE_SIZE_BYTES <? size)%N; [cbn; lia|].
  destruct (f_module f) as [m|ex]; [|destruct (is_exception ex); [destruct (no_throw vs)|]; cbn; lia].
  cbn [world set_world bump set_count].
  destruct (extract_fields (prettify a) (validate a) vs m (run_file f (world st)))
    as [[[descr run]|ex|] w'].
  - pose proof (dict_set_length (module_name_of pre suf (f_stem f))
                  (mk_entry (PStr descr) run) (tools st)) as Hl.
    cbn [tools set_world bump set_count world stack count].
    destruct (dict_has _ (tools st)); cbn; lia.
  - destruct (is_value_error ex && contains (py "JSON") (exc_text ex));
      destruct (no_throw vs); cbn; lia.
  - cbn; lia.
Qed.

Lemma process_entries_counters (a : scan_args) (pre suf : pystr) (vs : VerboseSettings)
    (depth : Z) (entries : list entry) (st : scan_state) :
  counters_ok (count st) (tools st) ->
  counters_ok (count (flow_state (process_entries a pre suf vs depth entries st)))
              (tools (flow_state (process_entries a pre suf vs depth entries st)))
  /\ dirs_visited (count (flow_state (process_entries a pre suf vs depth entries st)))
     = dirs_visited (count st).
Proof.
  revert st. induction entries as [|e rest IH]; intros st Hok; [split; [exact Hok|reflexivity]|].
  cbn [process_entries].
  assert (He : counters_ok (count (flow_state (process_entry a pre suf vs depth e st)))
                           (tools (flow_state (process_entry a pre suf vs depth e st)))
               /\ dirs_visited (count (flow_state (process_entry a pre suf vs depth e st)))
                  = dirs_visited (count st)).
  { destruct e as [name sl l|f|name].
    - cbn [process_entry]. destruct sl; [split; [exact Hok|reflexivity]|].
      destruct (max_depth a <=? depth)%Z; split; try exact Hok; reflexivity.
    - apply process_file_counters. exact Hok.
    - split; [exact Hok|reflexivity]. }
  destruct He as [He1 He2].
  destruct (process_entry a pre suf vs depth e st) as [s1|e1 s1|s1]; cbn [flow_state] in *;
    try (split; assumption).
  destruct (IH s1 He1) as [I1 I2]. split; [exact I1|congruence].
Qed.

Lemma scan_loop_counters (a : scan_args) (pre suf : pystr) (vs : VerboseSettings)
    (bound : nat) (fuel : nat) :
  forall st,
    counters_ok (count st) (tools st) ->
    Forall (fun p => is_dir (fst p) = true) (stack st) ->
    dirs_visited (count st) + stack_size (stack st) <= bound ->
    counters_ok (count (flow_state (scan_loop fuel a pre suf vs st)))
                (tools (flow_state (scan_loop fuel a pre suf vs st)))
    /\ dirs_visited (count (flow_state (scan_loop fuel a pre suf vs st))) <= bound.
Proof.
  induction fuel as [|fuel IH]; intros st Hok Hdirs Hb; cbn [scan_loop];
    destruct (stack st) as [|[d depth] below] eqn:Hst;
    try (split; [exact Hok|cbn [flow_state]; lia]).
  inversion Hdirs as [|x l0 Hd Hbelow]; subst. cbn [fst] in Hd.
  rewrite stack_size_cons in Hb.
  destruct d as [name sl [entries|ex]|g|name]; try discriminate; cbn [iterdir];
    cbn [dir_count] in Hb.
  - match goal with |- context [process_entries a pre suf vs depth entries ?s] =>
      set (s0 := s);
      pose proof (@process_entries_stack_size _ a pre suf vs depth entries s0 Hbelow)
        as [Hd1 Hs1];
      pose proof (process_entries_counters a pre suf vs depth entries s0 Hok) as [Hc1 Hv1];
      destruct (process_entries a pre suf vs depth entries s0) as [s1|e1 s1|s1] end;
      cbn [flow_state] in *;
      change (stack s0) with below in Hs1;
      change (dirs_visited (count s0)) with (S (dirs_visited (count st))) in Hv1.
    + apply IH; [exact Hc1|exact Hd1|]. rewrite Hv1. lia.
    + split; [exact Hc1|]. rewrite Hv1. lia.
    + split; [exact Hc1|]. rewrite Hv1. lia.
  - destruct (no_throw vs).
    + apply IH; [exact Hok|exact Hbelow|].
      match goal with |- dirs_visited (count ?s) + stack_size (stack ?s) <= _ =>
        change (stack s) with below;
        change (dirs_visited (count s)) with (S (dirs_visited (count st))) end.
      lia.
    + split; [exact Hok|].
      match goal with |- dirs_visited (count ?s) <= _ =>
        change (dirs_visited (count s)) with (S (dirs_visited (count st))) end.
      lia.
Qed.

(** X16.  The counters a scan reports at its end are consistent: the
    files accepted, too big, failing to import and skipped for their
    fields are counted among the files matched by name, those among the
    files seen; a descriptor that is no JSON is counted among the files
    skipped for their fields; the registry holds no more names than files
    were accepted; and no more directories were listed than the tree
    holds. *)
Theorem scan_counters_are_consistent :
  forall base vs a w reg,
    is_dir base = true ->
    (0 <= max_depth a)%Z ->
    fst (find_tools_json (Ok base) vs a w) = Returned reg ->
    exists c names prev,
      issued (chan (snd (find_tools_json (Ok base) vs a w)))
      = prev ++ [(MID, MsgLoadedTools (accepted c) names);
                 (LOW, MsgFinished (entry_name base) (counts_list c))]
      /\ counters_ok c reg
      /\ dirs_visited c <= dir_count base.
Proof.
  intros base vs a w reg Hdir Hdepth. unfold find_tools_json.
  apply Z.ltb_ge in Hdepth. rewrite Hdepth.
  destruct base as [name sl l|g|name]; try discriminate.
  match goal with |- context [scan_loop ?n ?a' ?p ?s vs ?st0] =>
    pose proof (scan_loop_counters a' p s vs n n st0) as Hc;
    destruct (scan_loop n a' p s vs st0) as [s1|e1 s1|s1] end;
    cbn [fst snd flow_state] in *; try discriminate.
  intros H; inversion H; subst reg. clear H.
  destruct Hc as [Hc1 Hc2].
  - unfold counters_ok. cbn. lia.
  - repeat constructor.
  - cbn [count stack]. rewrite stack_size_cons. unfold stack_size. cbn. lia.
  - exists (count s1), (dict_keys (tools s1)), (issued (chan (world s1))).
    split; [|split; [exact Hc1|exact Hc2]].
    cbn. rewrite <- app_assoc. reflexivity.
Qed.

End Counters.

(** ** Failures of a scan *)

Section Failures.
Context {PL : PyLib}.

(** X18.  A scan whose precondition fails (a negative [max_depth], a base
    path that cannot be resolved or is no directory) touches nothing: no
    file is run and no message is issued; with errors suppressed it
    returns the empty registry, with errors raised a [ValueError], a
    [RuntimeError] or a [FileNotFoundError]. *)
Theorem precondition_failures_follow_policy :
  forall base_dir vs a w,
    (max_depth a < 0)%Z
    \/ (exists ex, base_dir = Err ex)
    \/ (exists e, base_dir = Ok e /\ is_dir e = false) ->
    snd (find_tools_json base_dir vs a w) = w
    /\ (no_throw vs = true -> fst (find_tools_json base_dir vs a w) = Returned [])
    /\ (no_throw vs = false ->
        exists ex,
          fst (find_tools_json base_dir vs a w) = Raised ex
          /\ In (exc_type ex) [py "ValueError"; py "RuntimeError"; py "FileNotFoundError"]).
Proof.
  intros base_dir vs a w H. unfold find_tools_json, return_or_raise.
  destruct (max_depth a <? 0)%Z eqn:Hneg.
  - split; [reflexivity|]. split; intros ->; [reflexivity|].
    eexists. split; [reflexivity|]. left. reflexivity.
  - apply Z.ltb_ge in Hneg.
    destruct H as [H|[[ex ->]|(e & -> & He)]]; [lia| |].
    + split; [reflexivity|]. split; intros ->; [reflexivity|].
      eexists. split; [reflexivity|]. right. left. reflexivity.
    + destruct e as [name sl l|f|name]; [discriminate| |];
        (split; [reflexivity|]; split; intros ->; [reflexivity|];
         eexists; split; [reflexivity|]; right; right; left; reflexivity).
Qed.



End Failures.

(** ** The [LlmTools] object *)

Section Object.
Context {PL : PyLib} {PR : PyRepr}.

Lemma scan_registry_ok (base_dir : result entry) (vs : VerboseSettings) (a : scan_args)
    (w : World) (reg : pydict tool_entry) :
  fst (find_tools_json base_dir vs a w) = Returned reg -> registry_ok reg.
Proof.
  unfold find_tools_json.
  assert (Hnil : forall nt e, return_or_raise nt ([] : pydict tool_entry) e = Returned reg ->
                              registry_ok reg).
  { intros nt e. unfold return_or_raise. destruct nt; [|discriminate].
    intros H; inversion H. constructor. }
  destruct (max_depth a <? 0)%Z; [apply Hnil|].
  destruct base_dir as [base|ex]; [|apply Hnil].
  destruct base as [name sl l|f|name]; try apply Hnil.
  match goal with |- context [scan_loop ?n ?a' ?p ?s vs ?st0] =>
    assert (Hinv : registry_ok (tools (flow_state (scan_loop n a' p s vs st0))));
    [apply (@scan_loop_inv _ a' p s vs (fun st => registry_ok (tools st)));
       try (intros; assumption);
       [intros f st; apply process_file_registry|constructor]|];
    destruct (scan_loop n a' p s vs st0) as [st'|ex st'|st'] end;
    cbn [fst]; try discriminate.
  intros H; inversion H; subst reg. exact Hinv.
Qed.

Lemma LlmTools_init_tools (base_dir : result entry) (vs_opt : option VerboseSettings)
    (a : scan_args) (use_toon : bool) (w w' : World) (self : LlmTools) :
  LlmTools_init base_dir vs_opt a use_toon w = (Returned self, w') ->
  exists reg,
    use_toon = false
    /\ self_tools self = Some reg
    /\ self_verbose_settings self
       = match vs_opt with Some vs => vs | None => mk_settings NONE false end
    /\ find_tools_json base_dir (self_verbose_settings self) a w = (Returned reg, w').
Proof.
  unfold LlmTools_init, scan_tools. cbn [self_use_toon self_verbose_settings self_scan_args].
  destruct use_toon; [discriminate|]. cbn [negb].
  destruct (find_tools_json base_dir _ a w) as [[reg|e|] w1] eqn:E; try discriminate.
  intros H; inversion H; subst. exists reg. cbn [set_self_tools self_tools self_verbose_settings].
  repeat split. exact E.
Qed.

Lemma dict_get_map {V W} (g : V -> W) (k : pystr) (d : pydict V) :
  dict_get k (map (fun item => (fst item, g (snd item))) d)
  = option_map g (dict_get k d).
Proof.
  induction d as [|[k' v'] d IH]; [reflexivity|]. cbn [map fst snd dict_get].
  destruct (str_eqb k k'); [reflexivity|exact IH].
Qed.

Lemma registry_ok_get (reg : pydict tool_entry) (k : pystr) (meta : tool_entry) :
  registry_ok reg -> dict_get k reg = Some meta ->
  exists d f, description meta = PStr d /\ runner meta = PCallable f.
Proof.
  unfold registry_ok. induction 1 as [|[k' v'] reg Hx Hreg IH]; [discriminate|].
  cbn [dict_get]. destruct (str_eqb k k'); [|exact IH].
  intros H; inversion H; subst. cbn [fst snd] in Hx. destruct Hx as (_ & Hs & Hc).
  destruct (description meta) as [| |d|]; try discriminate.
  destruct (runner meta) as [| | |f]; try discriminate.
  exists d, f. split; reflexivity.
Qed.

(** X22.  After a construction that returned, [get_tool_definitions]
    returns one text per tool: the names of the registry in its order,
    each with the description string of its entry, whatever the
    representation of function objects is. *)
Theorem definitions_mirror_registry :
  forall base_dir vs_opt a use_toon w self w',
    LlmTools_init base_dir vs_opt a use_toon w = (Returned self, w') ->
    exists reg defs,
      self_tools self = Some reg
      /\ get_tool_definitions self = Returned defs
      /\ dict_keys defs = dict_keys reg
      /\ (forall name meta,
             dict_get name reg = Some meta ->
             description meta = PStr (py_str (description meta))
             /\ dict_get name defs = Some (py_str (description meta))).
Proof.
  intros base_dir vs_opt a use_toon w self w' H.
  apply LlmTools_init_tools in H as (reg & _ & Ht & _ & Hscan).
  pose proof (scan_registry_ok base_dir _ a w reg (f_equal fst Hscan)) as Hok.
  exists reg. eexists. unfold get_tool_definitions. rewrite Ht.
  split; [reflexivity|]. split; [reflexivity|]. split.
  - unfold dict_keys. rewrite map_map. reflexivity.
  - intros name meta Hget.
    destruct (registry_ok_get reg name meta Hok Hget) as (d & f & Hd & _).
    split; [rewrite Hd; reflexivity|].
    rewrite (dict_get_map (fun e => py_str (description e)) name reg), Hget. reflexivity.
Qed.

(** X23.  Every tool [get_tool_definitions] lists under a name that is not
    blank can be called by that name: [run_tool] with the fallback name
    and arguments calls the runner of the entry once, with those
    arguments, and returns what it returns. *)
Theorem advertised_tools_dispatch :
  forall base_dir vs_opt a use_toon w self w' defs name args,
    LlmTools_init base_dir vs_opt a use_toon w = (Returned self, w') ->
    get_tool_definitions self = Returned defs ->
    dict_has name defs = true ->
    strip_nonempty name = true ->
    exists reg meta f,
      self_tools self = Some reg
      /\ dict_get name reg = Some meta
      /\ runner meta = PCallable f
      /\ snd (LlmTools_run_tool self JNull (JStr name) (JObj args)) = [(name, args)]
      /\ (forall v, f args = ToolReturns v ->
                    fst (LlmTools_run_tool self JNull (JStr name) (JObj args)) = Returned v).
Proof.
  intros base_dir vs_opt a use_toon w self w' defs name args H Hdefs Hhas Hname.
  apply LlmTools_init_tools in H as (reg & _ & Ht & _ & Hscan).
  pose proof (scan_registry_ok base_dir _ a w reg (f_equal fst Hscan)) as Hok.
  unfold get_tool_definitions in Hdefs. rewrite Ht in Hdefs. inversion Hdefs; subst defs.
  unfold dict_has in Hhas.
  rewrite (dict_get_map (fun e => py_str (description e)) name reg) in Hhas.
  destruct (dict_get name reg) as [meta|] eqn:Hget; [|discriminate].
  destruct (registry_ok_get reg name meta Hok Hget) as (d & f & _ & Hf).
  exists reg, meta, f. split; [exact Ht|]. split; [exact Hget|]. split; [exact Hf|].
  unfold LlmTools_run_tool. rewrite Ht. unfold run_tool.
  rewrite resolve_call_eq. unfold fallback_call. rewrite Hname.
  unfold dict_has. rewrite Hget. cbn [negb]. rewrite Hf.
  split.
  - destruct (f args); reflexivity.
  - intros v Hv. rewrite Hv. reflexivity.
Qed.

End Object.

(* ================================================================== *)
(** * Part III: the statements on the sample data                     *)
(* ================================================================== *)

Section OnSamples.
Existing Instance literal_floats.

Lemma literal_floats_laws : float_laws.
Proof. intros l H. split; [exact H|reflexivity]. Qed.



(** The draws have to be fresh for the value, not only for the text: with
    a draw whose token the text holds behind an escape, [prettify_json]
    returns a text that reads as another value. *)
Lemma masked_token_is_spliced :
  json_loads masked_text
  = Some (JObj [(py "k", JStr (placeholder_token (py "00000000000000000000000000000000")));
                (py "l", JArr [JInt 1])])
  /\ fst (prettify_json masked_text (strict LOW) masked_world)
     = Returned (canonical (JObj [(py "k", JArr [JInt 1]); (py "l", JArr [JInt 1])])).
Proof. split; vm_compute; reflexivity. Qed.

(** A failing import during a strict and during a lenient scan, and an
    import that ends the program during a lenient scan. *)
Lemma per_file_failures_sample :
  (exists st',
      tools st' = tools after_calc
      /\ process_file (sample_args 1 false) [] (py "_tool") (strict LOW) broken_file after_calc
         = Throw (mk_exc (py "SyntaxError") (py "invalid syntax")) st')
  /\ (exists st',
         tools st' = tools after_calc
         /\ process_file (sample_args 1 false) [] (py "_tool") (lenient LOW) broken_file
              after_calc
            = Next st')
  /\ (exists st',
         tools st' = tools after_calc
         /\ process_file (sample_args 1 false) [] (py "_tool") (lenient LOW) quitting_file
              after_calc
            = Throw (mk_exc (py "SystemExit") (py "2")) st').
Proof.
  split; [|split].
  - destruct (@per_file_failures_follow_policy literal_floats (sample_args 1 false) []
                (py "_tool") (strict LOW) broken_file after_calc 64%N eq_refl eq_refl)
      as (_ & H & _).
    apply (H (mk_exc (py "SyntaxError") (py "invalid syntax"))); [|reflexivity].
    vm_compute. discriminate.
  - destruct (@per_file_failures_follow_policy literal_floats (sample_args 1 false) []
                (py "_tool") (lenient LOW) broken_file after_calc 64%N eq_refl eq_refl)
      as (_ & H & _).
    apply (H (mk_exc (py "SyntaxError") (py "invalid syntax"))); [|reflexivity].
    vm_compute. discriminate.
  - destruct (@per_file_failures_follow_policy literal_floats (sample_args 1 false) []
                (py "_tool") (lenient LOW) quitting_file after_calc 20%N eq_refl eq_refl)
      as (_ & H & _).
    apply (H (mk_exc (py "SystemExit") (py "2"))); [|reflexivity].
    vm_compute. discriminate.
Defined.

(** With errors raised, the scan of [faulty_dir] ends with the exception
    of the failing import: the file listed after it is never reached.
    With errors suppressed the same scan goes on and registers it. *)
Lemma strict_scan_stops_at_failing_import :
  find_tools_json (Ok faulty_dir) (strict NONE) (sample_args 1 false) sample_world
  = (Raised (mk_exc (py "SyntaxError") (py "invalid syntax")),
     mk_world (mk_channel
                 [(HIGH, MsgTraversing 0 (py "tools"));
                  (LOW, MsgImportFailed (py "broken_tool.py")
                          (mk_exc (py "SyntaxError") (py "invalid syntax")))]
                 [])
              [broken_file] sample_draws)
  /\ (exists w',
         find_tools_json (Ok faulty_dir) (lenient NONE) (sample_args 1 false) sample_world
         = (Returned [(py "calc", mk_entry (PStr calc_text) (PCallable echo))], w')
         /\ executed w' = [broken_file; calc_file]).
Proof.
  split; [vm_compute; reflexivity|].
  eexists. split; [lazy; reflexivity|]. reflexivity.
Qed.

(** A call of a tool that is not registered. *)
Lemma run_tool_unregistered_sample :
  run_tool sample_registry (strict LOW) (JStr (jtext "{'name':'x','arguments':{'a':1}}"))
           JNull JNull
  = (Raised (mk_exc (py "ValueError") (py "`" ++ py "x" ++ py "` is not a registered tool")),
     [])
  /\ run_tool sample_registry (lenient LOW) (JObj [(py "function_name", JStr (py "x"))])
              JNull JNull
     = (Returned JNull, []).
Proof.
  split.
  - apply (@run_tool_unregistered literal_floats sample_registry (strict LOW)
             (JStr (jtext "{'name':'x','arguments':{'a':1}}")) JNull JNull
             (py "x") [(py "a", JInt 1)]); vm_compute; reflexivity.
  - apply (@run_tool_unregistered literal_floats sample_registry (lenient LOW)
             (JObj [(py "function_name", JStr (py "x"))]) JNull JNull
             (py "x") []); vm_compute; reflexivity.
Defined.

(** A call of the registered tool that raises, by its fallback name. *)
Lemma run_tool_reclassifies_errors_sample :
  run_tool sample_registry (strict LOW) JNull (JStr (py "boom")) JNull
  = (Raised (mk_exc (py "RuntimeError")
               (py "Tool `" ++ py "boom" ++ py "` execution failed. Exception ("
                ++ py "KeyError" ++ py "): " ++ py "missing key")),
     [(py "boom", [])])
  /\ run_tool sample_registry (lenient LOW) JNull (JStr (py "boom")) JNull
     = (Returned JNull, [(py "boom", [])]).
Proof.
  split.
  - apply (@run_tool_reclassifies_errors literal_floats sample_registry (strict LOW)
             JNull (JStr (py "boom")) JNull (py "boom") []
             (mk_entry (PStr (jtext "{'name':'boom'}")) (PCallable failing)) failing
             (mk_exc (py "KeyError") (py "missing key"))); vm_compute; reflexivity.
  - apply (@run_tool_reclassifies_errors literal_floats sample_registry (lenient LOW)
             JNull (JStr (py "boom")) JNull (py "boom") []
             (mk_entry (PStr (jtext "{'name':'boom'}")) (PCallable failing)) failing
             (mk_exc (py "KeyError") (py "missing key"))); vm_compute; reflexivity.
Defined.

(** An entry point that ends the program: the [SystemExit] leaves
    [run_tool] as it is, with errors raised and with errors suppressed;
    no RuntimeError is raised and [None] is not returned. *)
Lemma tool_exit_leaves_run_tool :
  run_tool exit_registry (strict LOW) JNull (JStr (py "quit")) JNull
  = (Raised (mk_exc (py "SystemExit") (py "2")), [(py "quit", [])])
  /\ run_tool exit_registry (lenient LOW) JNull (JStr (py "quit")) JNull
     = (Raised (mk_exc (py "SystemExit") (py "2")), [(py "quit", [])]).
Proof. split; vm_compute; reflexivity. Qed.

(** The file [_tool.py] under the suffix [_tool]. *)
Lemma empty_middle_rejected_sample :
  exists st',
    process_file (sample_args 1 true) [] (py "_tool") (strict LOW) bare_file after_calc
    = Next st'
    /\ tools st' = tools after_calc
    /\ executed (world st') = executed (world after_calc)
    /\ name_matched (count st') = name_matched (count after_calc).
Proof.
  apply (@empty_middle_rejected literal_floats (sample_args 1 true) [] (py "_tool")
           (strict LOW) bare_file after_calc); vm_compute; reflexivity.
Defined.


(** The scan of the base directory of the sample tree. *)
Lemma returned_registry_ok_sample :
  fst (find_tools_json (Ok sample_dir) (strict LOW) (sample_args 0 true) sample_world)
  = Returned scanned_registry
  /\ registry_ok scanned_registry.
Proof.
  split; [vm_compute; reflexivity|].
  apply (@returned_registry_ok literal_floats (Ok sample_dir) (strict LOW)
           (sample_args 0 true) sample_world).
  vm_compute. reflexivity.
Defined.

End OnSamples.

Section MoreOnSamples.
Existing Instance literal_floats.
Existing Instance sample_repr.

Lemma calc_value_wf : wf_json calc_value.
Proof.
  apply (json_loads_wf calc_text calc_value literal_floats_laws).
  vm_compute. reflexivity.
Qed.


Lemma resolved_name_not_blank_sample :
  strip_nonempty (py "x") = true
  /\ (forall tools lvl blank,
         strip_nonempty blank = false ->
         ~ In blank (map fst (snd (run_tool tools (mk_settings lvl false)
                                      (JStr (jtext "{'name':'x','arguments':{'a':1}}"))
                                      JNull JNull)))).
Proof.
  apply (@resolved_name_not_blank literal_floats false
           (JStr (jtext "{'name':'x','arguments':{'a':1}}")) JNull JNull
           (py "x") [(py "a", JInt 1)]).
  vm_compute. reflexivity.
Defined.

Lemma run_tool_dispatches_sample :
  run_tool sample_registry (strict LOW) (JObj full_payload) JNull JNull
  = (Returned (JObj [(py "a", JInt 1)]), [(py "echo", [(py "a", JInt 1)])]).
Proof.
  apply (@run_tool_dispatches literal_floats sample_registry (strict LOW)
           (JObj full_payload) JNull JNull (py "echo") [(py "a", JInt 1)]
           (mk_entry (PStr (jtext "{'name':'echo'}")) (PCallable echo)) echo);
    vm_compute; reflexivity.
Defined.



Lemma payload_keys_order_sample :
  resolve_call false (JObj full_payload) (JStr (py "other")) JNull
  = Resolved (py "echo") [(py "a", JInt 1)].
Proof.
  destruct (@payload_keys_order literal_floats false full_payload (JStr (py "other")) JNull
              (py "echo") eq_refl) as (H & _).
  apply H; reflexivity.
Defined.

Lemma undecodable_call_falls_back_sample :
  resolve_call false (JStr (py "not json")) (JStr (py "echo")) JNull
  = resolve_call false JNull (JStr (py "echo")) JNull
  /\ (forall n a,
         strip_nonempty n = true ->
         resolve_call false (JStr (py "not json")) (JStr n) (JObj a) = Resolved n a
         /\ resolve_call false (JStr (py "not json")) (JStr n) JNull = Resolved n []).
Proof.
  apply (@undecodable_call_falls_back literal_floats false (py "not json")
           (JStr (py "echo")) JNull).
  vm_compute. reflexivity.
Defined.


Lemma prettify_json_idempotent_sample :
  exists out,
    fst (prettify_json calc_text (strict LOW) sample_world) = Returned out
    /\ fst (prettify_json out (lenient NONE) sample_world) = Returned out.
Proof.
  apply (@prettify_json_idempotent literal_floats calc_text calc_value (strict LOW)
           sample_world (lenient NONE) sample_world).
  - exact literal_floats_laws.
  - vm_compute. reflexivity.
  - vm_compute. reflexivity.
  - vm_compute. reflexivity.
Defined.

Lemma prettify_json_depends_on_value_sample :
  fst (prettify_json calc_text (strict LOW) sample_world)
  = fst (prettify_json (canonical calc_value) (lenient NONE) sample_world).
Proof.
  apply (@prettify_json_depends_on_value literal_floats calc_text (canonical calc_value)
           calc_value (strict LOW) (lenient NONE) sample_world sample_world);
    vm_compute; reflexivity.
Defined.

Lemma list_to_single_line_json_one_line_sample :
  Forall (fun c => (32 <= c)%N) (list_to_single_line_json calc_value).
Proof.
  apply (@list_to_single_line_json_one_line literal_floats calc_value).
  exact calc_value_wf.
Defined.

Lemma registry_entries_have_sources_sample :
  exists new,
    executed (snd (find_tools_json (Ok sample_dir) (strict LOW) (sample_args 0 true)
                     sample_world))
    = executed sample_world ++ new
    /\ Forall (fun kv => exists f, In f new /\ comes_from (sample_args 0 true) kv f)
              scanned_registry.
Proof.
  apply (@registry_entries_have_sources literal_floats (Ok sample_dir) (strict LOW)
           (sample_args 0 true) sample_world scanned_registry).
  vm_compute. reflexivity.
Defined.

Lemma calc_file_loadable : loadable (sample_args 1 false) calc_file.
Proof.
  split; [vm_compute; reflexivity|]. split.
  - exists 310%N. split; [reflexivity|]. vm_compute. discriminate.
  - exists (mk_module (Some (PCallable echo)) (Some (PStr calc_text))), calc_text.
    split; [reflexivity|]. split; reflexivity.
Qed.

Lemma loadable_files_are_registered_sample :
  dict_has (module_name_of (prefix_of (mk_args 1 None (Some (py "_tool")) false false))
                           (suffix_of (mk_args 1 None (Some (py "_tool")) false false))
                           (f_stem calc_file))
           [(py "calc", mk_entry (PStr (jtext "{'name': 'calc', 'version': 2}"))
                                 (PCallable failing))]
  = true
  /\ In calc_file
        (executed (snd (find_tools_json (Ok sample_dir) (strict LOW)
                          (mk_args 1 None (Some (py "_tool")) false false) sample_world))).
Proof.
  apply (@loadable_files_are_registered literal_floats sample_dir (strict LOW)
           (mk_args 1 None (Some (py "_tool")) false false) sample_world).
  - reflexivity.
  - vm_compute. discriminate.
  - reflexivity.
  - reflexivity.
  - vm_compute. reflexivity.
  - cbn. left. reflexivity.
  - exact calc_file_loadable.
Defined.

Lemma scan_counters_are_consistent_sample :
  exists c names prev,
    issued (chan (snd (find_tools_json (Ok sample_dir) (strict LOW) (sample_args 0 true)
                         sample_world)))
    = prev ++ [(MID, MsgLoadedTools (accepted c) names);
               (LOW, MsgFinished (entry_name sample_dir) (counts_list c))]
    /\ counters_ok c scanned_registry
    /\ dirs_visited c <= dir_count sample_dir.
Proof.
  apply (@scan_counters_are_consistent literal_floats sample_dir (strict LOW)
           (sample_args 0 true) sample_world scanned_registry).
  - reflexivity.
  - vm_compute. discriminate.
  - vm_compute. reflexivity.
Defined.

Lemma precondition_failures_follow_policy_sample :
  snd (find_tools_json (Ok (EFile calc_file)) (strict LOW) (sample_args 0 true) sample_world)
  = sample_world
  /\ (no_throw (strict LOW) = true ->
      fst (find_tools_json (Ok (EFile calc_file)) (strict LOW) (sample_args 0 true)
             sample_world) = Returned [])
  /\ (no_throw (strict LOW) = false ->
      exists ex,
        fst (find_tools_json (Ok (EFile calc_file)) (strict LOW) (sample_args 0 true)
               sample_world) = Raised ex
        /\ In (exc_type ex) [py "ValueError"; py "RuntimeError"; py "FileNotFoundError"]).
Proof.
  apply (@precondition_failures_follow_policy literal_floats (Ok (EFile calc_file))
           (strict LOW) (sample_args 0 true) sample_world).
  right. right. exists (EFile calc_file). split; reflexivity.
Defined.


Lemma sample_self_built :
  LlmTools_init (Ok sample_dir) (Some (strict LOW)) (sample_args 0 true) false sample_world
  = (Returned sample_self,
     snd (find_tools_json (Ok sample_dir) (strict LOW) (sample_args 0 true) sample_world)).
Proof. vm_compute. reflexivity. Qed.

Lemma definitions_mirror_registry_sample :
  exists reg defs,
    self_tools sample_self = Some reg
    /\ get_tool_definitions sample_self = Returned defs
    /\ dict_keys defs = dict_keys reg
    /\ (forall name meta,
           dict_get name reg = Some meta ->
           description meta = PStr (py_str (description meta))
           /\ dict_get name defs = Some (py_str (description meta))).
Proof.
  apply (@definitions_mirror_registry literal_floats sample_repr (Ok sample_dir)
           (Some (strict LOW)) (sample_args 0 true) false sample_world sample_self
           (snd (find_tools_json (Ok sample_dir) (strict LOW) (sample_args 0 true)
                   sample_world))).
  exact sample_self_built.
Defined.

Lemma advertised_tools_dispatch_sample :
  exists reg meta f,
    self_tools sample_self = Some reg
    /\ dict_get (py "calc") reg = Some meta
    /\ runner meta = PCallable f
    /\ snd (LlmTools_run_tool sample_self JNull (JStr (py "calc")) (JObj [(py "a", JInt 1)]))
       = [(py "calc", [(py "a", JInt 1)])]
    /\ (forall v, f [(py "a", JInt 1)] = ToolReturns v ->
                  fst (LlmTools_run_tool sample_self JNull (JStr (py "calc"))
                         (JObj [(py "a", JInt 1)])) = Returned v).
Proof.
  apply (@advertised_tools_dispatch literal_floats sample_repr (Ok sample_dir)
           (Some (strict LOW)) (sample_args 0 true) false sample_world sample_self
           (snd (find_tools_json (Ok sample_dir) (strict LOW) (sample_args 0 true)
                   sample_world))
           [(py "calc", canonical calc_value)]).
  - exact sample_self_built.
  - reflexivity.
  - reflexivity.
  - reflexivity.
Defined.

Lemma find_tools_json_unfinished_sample :
  prettify (sample_args 0 true) = true
  /\ draws (snd (find_tools_json (Ok sample_dir) (strict LOW) (sample_args 0 true)
                   drained_world)) = [].
Proof.
  apply (@find_tools_json_unfinished literal_floats (Ok sample_dir) (strict LOW)
           (sample_args 0 true) drained_world).
  vm_compute. reflexivity.
Defined.

Lemma run_tool_error_types_sample :
  exists ex,
    fst (run_tool sample_registry (strict LOW) JNull (JStr (py "boom")) JNull) = Raised ex
    /\ (In (exc_type ex) [py "TypeError"; py "ValueError"; py "RuntimeError"]
        \/ (is_exception ex = false
            /\ exists name args meta f,
                 resolve_call false JNull (JStr (py "boom")) JNull = Resolved name args
                 /\ dict_get name sample_registry = Some meta
                 /\ runner meta = PCallable f
                 /\ f args = ToolRaises ex)).
Proof.
  eexists. split; [vm_compute; reflexivity|].
  apply (@run_tool_error_types literal_floats sample_registry (strict LOW) JNull
           (JStr (py "boom")) JNull).
  vm_compute. reflexivity.
Defined.

End MoreOnSamples.
